(** * Findx: the binary credential-detection engine and the scan orchestrator

    A shallow embedding of [internal/parser] (the binary parser with its
    rule corpus, string extractor and offset resolver) and of
    [Scanner.scanFiles], followed by the properties of the specification.

    Conventions.
    - A Go [string] and a Go [[]byte] are both [list byte].
    - A Go [int] is a [Z]; the target is a 64-bit platform, so [int]
      arithmetic that can leave the 64-bit range is wrapped with [wrap64].
    - A run-time panic (slice bounds out of range) is [None]. *)

From Stdlib Require Import ZArith List Bool Lia String Ascii.
From Stdlib Require Import Init.Byte Strings.Byte.
From stdpp Require Import gmap strings.
Import ListNotations.
Local Open Scope Z_scope.

(** ** Bytes, strings and slices *)

Definition bz (b : byte) : Z := Z.of_N (Byte.to_N b).

Definition of_Z (z : Z) : byte :=
  match Byte.of_N (Z.to_N z) with
  | Some b => b
  | None => "000"%byte
  end.

(** A string literal of the Go source, as its bytes. *)
Definition s2b (s : string) : list byte := list_byte_of_string s.

Definition len {A} (l : list A) : Z := Z.of_nat (List.length l).

Definition wrap64 (z : Z) : Z := (z + 2 ^ 63) mod 2 ^ 64 - 2 ^ 63.

Definition byte_eqb (a b : byte) : bool := Byte.eqb a b.

Fixpoint bytes_eqb (a b : list byte) : bool :=
  match a, b with
  | [], [] => true
  | x :: a', y :: b' => byte_eqb x y && bytes_eqb a' b'
  | _, _ => false
  end.

(** [s[lo:hi]]: Go panics unless [0 <= lo <= hi <= len(s)]. *)
Definition slice {A} (s : list A) (lo hi : Z) : option (list A) :=
  if (0 <=? lo) && (lo <=? hi) && (hi <=? len s)
  then Some (firstn (Z.to_nat (hi - lo)) (skipn (Z.to_nat lo) s))
  else None.

(** [s[lo:]] *)
Definition slice_from {A} (s : list A) (lo : Z) : option (list A) :=
  slice s lo (len s).

(** [s[:hi]] *)
Definition slice_to {A} (s : list A) (hi : Z) : option (list A) :=
  slice s 0 hi.

(** [binary.LittleEndian.Uint16(b)] and [Uint32(b)]: the library indexes
    [b[1]] (resp. [b[3]]) first and panics when [b] is shorter. *)
Definition Uint16 (b : list byte) : option Z :=
  match b with
  | b0 :: b1 :: _ => Some (Z.lor (bz b0) (Z.shiftl (bz b1) 8))
  | _ => None
  end.

Definition Uint32 (b : list byte) : option Z :=
  match b with
  | b0 :: b1 :: b2 :: b3 :: _ =>
      Some (Z.lor (Z.lor (Z.lor (bz b0) (Z.shiftl (bz b1) 8))
                         (Z.shiftl (bz b2) 16))
                  (Z.shiftl (bz b3) 24))
  | _ => None
  end.

Definition PE_SIGNATURE : Z := 0x00004550.
Definition DOS_SIGNATURE : Z := 0x5A4D.

(** ** Format validator *)

(** [isValidPEFile]. The short-circuit [||] and [&&] of the source decide
    which slice expressions are evaluated. *)
Definition isValidPEFile (data : list byte) : option bool :=
  if len data <? 2 then Some false
  else
    d02 ← slice data 0 2;
    sig ← Uint16 d02;
    if negb (sig =? DOS_SIGNATURE) then Some false
    else if len data <? 0x40 then Some false
    else
      d3c ← slice data 0x3C 0x40;
      peOffset ← Uint32 d3c;
      if peOffset + 4 <=? len data then
        dpe ← slice data peOffset (peOffset + 4);
        pe ← Uint32 dpe;
        Some (pe =? PE_SIGNATURE)
      else Some false.


(** ** UTF-8 decoding, as [utf8.DecodeRuneInString]

    The regexp engine and [for _, ch := range str] both read a string one
    rune at a time: an ASCII byte is its own rune, a well-formed multi-byte
    sequence is one rune, and any other byte is [RuneError] of width 1. *)

Definition RuneError : Z := 0xFFFD.

Definition between (lo x hi : Z) : bool := (lo <=? x) && (x <=? hi).

Definition cont (b : byte) : bool := between 0x80 (bz b) 0xBF.

Definition DecodeRune (s : list byte) : Z * nat :=
  match s with
  | [] => (RuneError, 0%nat)
  | b0 :: t =>
      let x := bz b0 in
      if x <? 0x80 then (x, 1%nat)
      else if between 0xC2 x 0xDF then
        match t with
        | b1 :: _ =>
            if cont b1
            then (Z.lor (Z.shiftl (Z.land x 0x1F) 6) (Z.land (bz b1) 0x3F), 2%nat)
            else (RuneError, 1%nat)
        | _ => (RuneError, 1%nat)
        end
      else if between 0xE0 x 0xEF then
        match t with
        | b1 :: b2 :: _ =>
            let lo1 := if x =? 0xE0 then 0xA0 else 0x80 in
            let hi1 := if x =? 0xED then 0x9F else 0xBF in
            if between lo1 (bz b1) hi1 && cont b2
            then (Z.lor (Z.lor (Z.shiftl (Z.land x 0x0F) 12)
                               (Z.shiftl (Z.land (bz b1) 0x3F) 6))
                        (Z.land (bz b2) 0x3F), 3%nat)
            else (RuneError, 1%nat)
        | _ => (RuneError, 1%nat)
        end
      else if between 0xF0 x 0xF4 then
        match t with
        | b1 :: b2 :: b3 :: _ =>
            let lo1 := if x =? 0xF0 then 0x90 else 0x80 in
            let hi1 := if x =? 0xF4 then 0x8F else 0xBF in
            if between lo1 (bz b1) hi1 && cont b2 && cont b3
            then (Z.lor (Z.lor (Z.lor (Z.shiftl (Z.land x 0x07) 18)
                                      (Z.shiftl (Z.land (bz b1) 0x3F) 12))
                               (Z.shiftl (Z.land (bz b2) 0x3F) 6))
                        (Z.land (bz b3) 0x3F), 4%nat)
            else (RuneError, 1%nat)
        | _ => (RuneError, 1%nat)
        end
      else (RuneError, 1%nat)
  end.

(** The runes of a string, as [range str] yields them. *)
Fixpoint runes_fuel (fuel : nat) (s : list byte) : list Z :=
  match fuel, s with
  | S f, _ :: _ =>
      let '(r, w) := DecodeRune s in r :: runes_fuel f (skipn w s)
  | _, _ => []
  end.

Definition runes (s : list byte) : list Z := runes_fuel (List.length s) s.

(** ** Regular expressions with Go's leftmost-first semantics

    The syntax tree of the patterns in the source. A character class is a
    list of rune ranges, possibly negated; a capturing group carries its
    number; [Rep a lo hi] is the greedy [a{lo,hi}], with [hi = None] for an
    open upper bound. *)

Inductive re : Type :=
| Eps
| Chr (neg : bool) (rs : list (Z * Z))
| Seq (a b : re)
| Alt (a b : re)
| Rep (a : re) (lo : nat) (hi : option nat)
| Grp (g : nat) (a : re)
| Bol
| Eol
| WordB.

Definition in_ranges (x : Z) (rs : list (Z * Z)) : bool :=
  existsb (fun r => between (fst r) x (snd r)) rs.

(** Capture registers: the most recent binding of a group comes first. *)
Definition caps : Type := list (nat * (nat * nat)).

Fixpoint cap_lookup (g : nat) (c : caps) : option (nat * nat) :=
  match c with
  | [] => None
  | (g', se) :: c' => if Nat.eqb g g' then Some se else cap_lookup g c'
  end.

Definition is_word_byte (o : option byte) : bool :=
  match o with
  | Some b =>
      let x := bz b in
      between 0x30 x 0x39 || between 0x41 x 0x5A || between 0x61 x 0x7A
      || (x =? 0x5F)
  | None => false
  end.

(** A continuation receives the position reached, the text left and the
    capture registers. *)
Definition K : Type := nat -> list byte -> caps -> option (nat * caps).

(** The greedy loop of [a{lo,hi}]: [lo] iterations are still required and
    at most [n] are allowed; one more iteration is tried before leaving. *)
Fixpoint rep_loop (body : nat -> list byte -> caps -> K -> option (nat * caps))
  (k : K) (n lo : nat) (pos : nat) (rest : list byte) (c : caps)
  {struct n} : option (nat * caps) :=
  match lo, n with
  | S _, O => None
  | S lo', S n' =>
      body pos rest c (fun p' r' c' => rep_loop body k n' lo' p' r' c')
  | O, O => k pos rest c
  | O, S n' =>
      match body pos rest c (fun p' r' c' => rep_loop body k n' O p' r' c') with
      | Some x => Some x
      | None => k pos rest c
      end
  end.

Section Matcher.

(** The text being searched; [\b] looks one byte behind the position. *)
Variable text : list byte.

Definition prev_byte (pos : nat) : option byte :=
  match pos with
  | O => None
  | S p => nth_error text p
  end.

(** A backtracking matcher in continuation-passing style. The match it
    finds at a position is the one of highest priority: the left branch
    of an alternation first, one more iteration of a repetition first.
    An open upper bound is replaced by the number of bytes left, which no
    sequence of non-empty iterations can exceed. *)
Fixpoint run (r : re) (pos : nat) (rest : list byte) (c : caps) (k : K)
  {struct r} : option (nat * caps) :=
  match r with
  | Eps => k pos rest c
  | Chr neg rs =>
      match rest with
      | [] => None
      | _ :: _ =>
          let '(x, w) := DecodeRune rest in
          if xorb neg (in_ranges x rs)
          then k (pos + w)%nat (skipn w rest) c
          else None
      end
  | Seq a b => run a pos rest c (fun p' r' c' => run b p' r' c' k)
  | Alt a b =>
      match run a pos rest c k with
      | Some x => Some x
      | None => run b pos rest c k
      end
  | Rep a lo hi =>
      rep_loop (run a) k
        (match hi with Some h => h | None => lo + List.length rest end)%nat
        lo pos rest c
  | Grp g a => run a pos rest c (fun p' r' c' => k p' r' ((g, (pos, p')) :: c'))
  | Bol => if Nat.eqb pos 0 then k pos rest c else None
  | Eol => match rest with [] => k pos rest c | _ :: _ => None end
  | WordB =>
      if xorb (is_word_byte (prev_byte pos)) (is_word_byte (head rest))
      then k pos rest c else None
  end.

Definition accept : K := fun p _ c => Some (p, c).

(** The leftmost match at or after [pos]: [(start, end, captures)]. *)
Fixpoint search (fuel : nat) (r : re) (pos : nat) (rest : list byte)
  : option (nat * nat * caps) :=
  match run r pos rest [] accept with
  | Some (e, c) => Some (pos, e, c)
  | None =>
      match fuel, rest with
      | S f, _ :: _ =>
          let w := snd (DecodeRune rest) in
          search f r (pos + w)%nat (skipn w rest)
      | _, _ => None
      end
  end.

(** [Regexp.allMatches]: successive non-overlapping matches; an empty
    match directly after the previous match is dropped, and the scan
    moves one rune forward after an empty match. *)
Fixpoint allMatches (fuel : nat) (r : re) (pos : nat) (rest : list byte)
  (prevMatchEnd : option nat) : list (nat * nat * caps) :=
  match fuel with
  | O => []
  | S f =>
      match search (List.length rest) r pos rest with
      | None => []
      | Some (st, e, c) =>
          let rest_e := skipn (e - pos) rest in
          if Nat.eqb e pos then
            let accepted :=
              match prevMatchEnd with
              | Some pe => negb (Nat.eqb st pe)
              | None => true
              end in
            let tl :=
              match rest with
              | [] => []
              | _ :: _ =>
                  let w := snd (DecodeRune rest) in
                  allMatches f r (pos + w)%nat (skipn w rest) (Some e)
              end in
            if accepted then (st, e, c) :: tl else tl
          else (st, e, c) :: allMatches f r e rest_e (Some e)
      end
  end.

End Matcher.

Definition sub (s : list byte) (a b : nat) : list byte :=
  firstn (b - a) (skipn a s).

(** Number of capturing groups of a pattern. *)
Fixpoint ngroups (r : re) : nat :=
  match r with
  | Seq a b | Alt a b => (ngroups a + ngroups b)%nat
  | Rep a _ _ => ngroups a
  | Grp _ a => S (ngroups a)
  | _ => O
  end.

(** The least number of bytes a match of the pattern spans. *)
Fixpoint min_width (r : re) : nat :=
  match r with
  | Chr _ _ => 1
  | Seq a b => min_width a + min_width b
  | Alt a b => Nat.min (min_width a) (min_width b)
  | Rep a lo _ => lo * min_width a
  | Grp _ a => min_width a
  | _ => 0
  end%nat.

(** [Regexp.FindAllIndex(b, -1)] *)
Definition FindAllIndex (r : re) (s : list byte) : list (nat * nat) :=
  map (fun m => (fst (fst m), snd (fst m)))
      (allMatches s (S (List.length s)) r 0 s None).

(** [Regexp.FindAllStringSubmatch(s, -1)]: for each match, the matched text
    followed by the text of every group, empty for a group that took no
    part in the match. *)
Definition FindAllStringSubmatch (r : re) (s : list byte)
  : list (list (list byte)) :=
  map (fun m =>
         let '(st, e, c) := m in
         sub s st e ::
         map (fun g => match cap_lookup g c with
                       | Some (a, b) => sub s a b
                       | None => []
                       end)
             (seq 1 (ngroups r)))
      (allMatches s (S (List.length s)) r 0 s None).

(** [Regexp.MatchString] *)
Definition MatchString (r : re) (s : list byte) : bool :=
  match search s (List.length s) r 0 s with
  | Some _ => true
  | None => false
  end.

(** ** Pattern syntax helpers *)

Definition c_ (a : byte) : Z * Z := (bz a, bz a).
Definition r_ (a b : byte) : Z * Z := (bz a, bz b).
Arguments c_ a%_byte.
Arguments r_ (a b)%_byte.

(** The double quote, written by its code. *)
Definition dquote : Z * Z := (34, 34).
Definition squote : Z * Z := (39, 39).

(** Perl classes of RE2: [\s] is [[\t\n\f\r ]], [\w] is [[0-9A-Za-z_]],
    [\d] is [[0-9]]; all three are ASCII-only. *)
Definition cls_s : list (Z * Z) := [(9, 10); (12, 13); (32, 32)].
Definition cls_w : list (Z * Z) := [r_ "0" "9"; r_ "A" "Z"; c_ "_"; r_ "a" "z"].
Definition cls_d : list (Z * Z) := [r_ "0" "9"].
Definition alnum : list (Z * Z) := [r_ "a" "z"; r_ "A" "Z"; r_ "0" "9"].

Definition seqs (l : list re) : re := foldr Seq Eps l.

Fixpoint alts (l : list re) : re :=
  match l with
  | [] => Chr false []
  | [a] => a
  | a :: l' => Alt a (alts l')
  end.

Definition star (a : re) : re := Rep a 0 None.
Definition plus (a : re) : re := Rep a 1 None.
Definition opt (a : re) : re := Rep a 0 (Some 1%nat).
Definition cls (rs : list (Z * Z)) : re := Chr false rs.
Definition ncls (rs : list (Z * Z)) : re := Chr true rs.

(** A literal: one single-rune class per rune of the text. *)
Definition lit (s : string) : re :=
  seqs (map (fun x => Chr false [(x, x)]) (runes (s2b s))).

(** Case folding under the [(?i)] flag: a range is closed under
    [unicode.SimpleFold]. For ASCII letters the orbit is the other case,
    plus U+212A (Kelvin sign) for [k] and U+017F (long s) for [s]. *)
Definition fold_range (r : Z * Z) : list (Z * Z) :=
  let '(lo, hi) := r in
  let up_lo := Z.max lo 0x41 in let up_hi := Z.min hi 0x5A in
  let dn_lo := Z.max lo 0x61 in let dn_hi := Z.min hi 0x7A in
  let has x := between lo x hi in
  [r]
  ++ (if up_lo <=? up_hi then [(up_lo + 32, up_hi + 32)] else [])
  ++ (if dn_lo <=? dn_hi then [(dn_lo - 32, dn_hi - 32)] else [])
  ++ (if has 0x4B || has 0x6B then [(0x212A, 0x212A)] else [])
  ++ (if has 0x53 || has 0x73 then [(0x17F, 0x17F)] else []).

Definition fold_ranges (rs : list (Z * Z)) : list (Z * Z) :=
  concat (map fold_range rs).

(** The same pattern under [(?i)]. *)
Fixpoint ci (r : re) : re :=
  match r with
  | Chr neg rs => Chr neg (fold_ranges rs)
  | Seq a b => Seq (ci a) (ci b)
  | Alt a b => Alt (ci a) (ci b)
  | Rep a lo hi => Rep (ci a) lo hi
  | Grp g a => Grp g (ci a)
  | _ => r
  end.

(** ** The rule corpus

    Each pattern is preceded by its source text, in which [\x22] stands for
    the double quote. *)

Record DetectionRule : Type := {
  Name : list byte;
  Pattern : re;
  Description : list byte;
  RiskLevel : list byte
}.

(** The two quote characters of the class [[\x22']]. *)
Definition quotes : list (Z * Z) := [dquote; squote].

Definition initDetectionRules : list DetectionRule := [
  (* (?i)(ConnectionString|connstr?)\s*=\s*[\x22']([^\x22']{10,200})[\x22'] *)
  {| Name := s2b "数据库连接字符串";
     Pattern := ci (seqs [
       Grp 1 (alts [lit "ConnectionString"; seqs [lit "connst"; opt (lit "r")]]);
       star (cls cls_s); lit "="; star (cls cls_s); cls quotes;
       Grp 2 (Rep (ncls quotes) 10 (Some 200%nat)); cls quotes]);
     Description := s2b "数据库连接字符串包含认证信息";
     RiskLevel := s2b "high" |};
  (* jdbc:\w+://[^\s\x22']+ *)
  {| Name := s2b "JDBC连接URL";
     Pattern := seqs [lit "jdbc:"; plus (cls cls_w); lit "://";
                      plus (ncls (cls_s ++ quotes))];
     Description := s2b "JDBC数据库连接URL";
     RiskLevel := s2b "high" |};
  (* (?i)(password|pwd)\s*=\s*[\x22']?([^\x22'\s;&]{4,50}) *)
  {| Name := s2b "密码字段";
     Pattern := ci (seqs [
       Grp 1 (alts [lit "password"; lit "pwd"]);
       star (cls cls_s); lit "="; star (cls cls_s); opt (cls quotes);
       Grp 2 (Rep (ncls (quotes ++ cls_s ++ [c_ ";"; c_ "&"])) 4 (Some 50%nat))]);
     Description := s2b "密码字段赋值";
     RiskLevel := s2b "critical" |};
  (* (?i)(username|user|uid)\s*=\s*[\x22']?([^\x22'\s;&]{3,50}) *)
  {| Name := s2b "用户名字段";
     Pattern := ci (seqs [
       Grp 1 (alts [lit "username"; lit "user"; lit "uid"]);
       star (cls cls_s); lit "="; star (cls cls_s); opt (cls quotes);
       Grp 2 (Rep (ncls (quotes ++ cls_s ++ [c_ ";"; c_ "&"])) 3 (Some 50%nat))]);
     Description := s2b "用户名字段赋值";
     RiskLevel := s2b "high" |};
  (* (?i)(api[_-]?key|apisecret|sk-)\s*=\s*[\x22']?([a-zA-Z0-9]{20,60}) *)
  {| Name := s2b "API密钥";
     Pattern := ci (seqs [
       Grp 1 (alts [seqs [lit "api"; opt (cls [c_ "_"; c_ "-"]); lit "key"];
                    lit "apisecret"; lit "sk-"]);
       star (cls cls_s); lit "="; star (cls cls_s); opt (cls quotes);
       Grp 2 (Rep (cls alnum) 20 (Some 60%nat))]);
     Description := s2b "API密钥或访问令牌";
     RiskLevel := s2b "critical" |};
  (* ssh-\w+\s+[A-Za-z0-9+/]{100,} *)
  {| Name := s2b "SSH密钥";
     Pattern := seqs [lit "ssh-"; plus (cls cls_w); plus (cls cls_s);
                      Rep (cls [r_ "A" "Z"; r_ "a" "z"; r_ "0" "9"; c_ "+"; c_ "/"])
                          100 None];
     Description := s2b "SSH公钥或私钥";
     RiskLevel := s2b "critical" |};
  (* ldap[s]?://[^\s\x22']+ *)
  {| Name := s2b "LDAP连接";
     Pattern := seqs [lit "ldap"; opt (cls [c_ "s"]); lit "://";
                      plus (ncls (cls_s ++ quotes))];
     Description := s2b "LDAP连接字符串";
     RiskLevel := s2b "high" |};
  (* mysqli_connect\([^)]+\) *)
  {| Name := s2b "MySQL连接";
     Pattern := seqs [lit "mysqli_connect("; plus (ncls [c_ ")"]); lit ")"];
     Description := s2b "MySQL数据库连接";
     RiskLevel := s2b "high" |};
  (* (账号|密码|用户名)\s*[=:]\s*[\x22']?([^\x22'\s]{3,50}) *)
  {| Name := s2b "中文凭据";
     Pattern := seqs [
       Grp 1 (alts [lit "账号"; lit "密码"; lit "用户名"]);
       star (cls cls_s); cls [c_ "="; c_ ":"]; star (cls cls_s);
       opt (cls quotes);
       Grp 2 (Rep (ncls (quotes ++ cls_s)) 3 (Some 50%nat))];
     Description := s2b "中文账号密码信息";
     RiskLevel := s2b "high" |};
  (* Bearer\s+[\w\-._~+/]{20,100} *)
  {| Name := s2b "Bearer令牌";
     Pattern := seqs [lit "Bearer"; plus (cls cls_s);
                      Rep (cls (cls_w ++ [c_ "-"; c_ "."; c_ "_"; c_ "~"; c_ "+"; c_ "/"]))
                          20 (Some 100%nat)];
     Description := s2b "Bearer认证令牌";
     RiskLevel := s2b "high" |};
  (* -----BEGIN (?:RSA|DSA|EC) PRIVATE KEY----- *)
  {| Name := s2b "私钥文件";
     Pattern := seqs [lit "-----BEGIN "; alts [lit "RSA"; lit "DSA"; lit "EC"];
                      lit " PRIVATE KEY-----"];
     Description := s2b "加密私钥文件";
     RiskLevel := s2b "critical" |};
  (* [a-zA-Z0-9._%+-]+@[a-zA-Z0-9.-]+\.[a-zA-Z]{2,} *)
  {| Name := s2b "邮箱地址";
     Pattern := seqs [
       plus (cls (alnum ++ [c_ "."; c_ "_"; c_ "%"; c_ "+"; c_ "-"]));
       lit "@"; plus (cls (alnum ++ [c_ "."; c_ "-"])); lit ".";
       Rep (cls [r_ "a" "z"; r_ "A" "Z"]) 2 None];
     Description := s2b "邮箱地址（可能用于认证）";
     RiskLevel := s2b "medium" |};
  (* \b(?:[0-9]{1,3}\.){3}[0-9]{1,3}(?::\d+)?\b *)
  {| Name := s2b "IP地址和端口";
     Pattern := seqs [
       WordB;
       Rep (seqs [Rep (cls cls_d) 1 (Some 3%nat); lit "."]) 3 (Some 3%nat);
       Rep (cls cls_d) 1 (Some 3%nat);
       opt (seqs [lit ":"; plus (cls cls_d)]);
       WordB];
     Description := s2b "IP地址和端口信息";
     RiskLevel := s2b "low" |}
].

(** ** Credential validity *)

(** [strings.Contains(s, substr)] and [strings.Index(s, substr)] on bytes. *)
Fixpoint has_prefix (s p : list byte) : bool :=
  match p, s with
  | [], _ => true
  | y :: p', x :: s' => byte_eqb x y && has_prefix s' p'
  | _ :: _, [] => false
  end.

Fixpoint Index_from (i : Z) (s substr : list byte) : Z :=
  if has_prefix s substr then i
  else match s with
       | [] => -1
       | _ :: s' => Index_from (i + 1) s' substr
       end.

Definition Index (s substr : list byte) : Z := Index_from 0 s substr.

Definition Contains (s substr : list byte) : bool := 0 <=? Index s substr.

Definition excluded : list (list byte) := map s2b [
  "true"; "false"; "null"; "void"; "main"; "class"; "string"; "int"; "bool";
  "=="; "!="; "=<"; "=>"; "= "; " ="; "=p="; "=6"; "=N"; "=L"; "=W"; "=f"; "=C";
  "GET"; "POST"; "HTTP"; "Content"; "Type"; "Length"; "Version"; "Microsoft";
  "System"; "Windows"; "Assembly"; "PublicKey"; "Culture"; "Token"
]%string.

(** The seven shape patterns of [hasCredentialLikePattern]. In the first
    one the class ends in [_+-=], which the regexp syntax reads as [_] and
    the range from [+] to [=]. *)
Definition validPatterns : list re := [
  (* ^[a-zA-Z0-9!@#$%^&*()_+-=]{4,50}$ *)
  seqs [Bol;
        Rep (cls (alnum ++ [c_ "!"; c_ "@"; c_ "#"; c_ "$"; c_ "%"; c_ "^";
                            c_ "&"; c_ "*"; c_ "("; c_ ")"; c_ "_"; r_ "+" "="]))
            4 (Some 50%nat);
        Eol];
  (* ^[a-zA-Z0-9._%+-]+@[a-zA-Z0-9.-]+\.[a-zA-Z]{2,}$ *)
  seqs [Bol;
        plus (cls (alnum ++ [c_ "."; c_ "_"; c_ "%"; c_ "+"; c_ "-"]));
        lit "@"; plus (cls (alnum ++ [c_ "."; c_ "-"])); lit ".";
        Rep (cls [r_ "a" "z"; r_ "A" "Z"]) 2 None;
        Eol];
  (* ^\d+\.\d+\.\d+\.\d+$ *)
  seqs [Bol; plus (cls cls_d); lit "."; plus (cls cls_d); lit ".";
        plus (cls cls_d); lit "."; plus (cls cls_d); Eol];
  (* ^[a-zA-Z0-9]{20,60}$ *)
  seqs [Bol; Rep (cls alnum) 20 (Some 60%nat); Eol];
  (* ^[a-zA-Z][a-zA-Z0-9]{3,20}$ *)
  seqs [Bol; cls [r_ "a" "z"; r_ "A" "Z"]; Rep (cls alnum) 3 (Some 20%nat); Eol];
  (* ^[a-zA-Z]+:// *)
  seqs [Bol; plus (cls [r_ "a" "z"; r_ "A" "Z"]); lit "://"];
  (* ^jdbc:\w+:// *)
  seqs [Bol; lit "jdbc:"; plus (cls cls_w); lit "://"]
].

Definition hasCredentialLikePattern (str : list byte) : bool :=
  existsb (fun pattern => MatchString pattern str) validPatterns.

Definition isValidCredential (str : list byte) : bool :=
  if len str <? 3 then false
  else if existsb (fun exclude => Contains str exclude) excluded then false
  else hasCredentialLikePattern str.

(** ** String extractor *)

Definition printable (b : byte) : bool := (32 <=? bz b) && (bz b <=? 126).

(** [hasRepeatingPattern]: four equal bytes at [i .. i+3] for some
    [i < len(str) - 10]; the index [i + 3] stays inside the string. *)
Definition at_ (str : list byte) (i : nat) : byte := nth i str "000"%byte.

Definition hasRepeatingPattern (str : list byte) : bool :=
  if len str <? 20 then false
  else
    existsb (fun i => byte_eqb (at_ str i) (at_ str (i + 1))
                      && byte_eqb (at_ str i) (at_ str (i + 2))
                      && byte_eqb (at_ str i) (at_ str (i + 3)))
            (seq 0 (Z.to_nat (len str - 10))).

(** The test of the counting loop of [isLikelyGarbage], on a rune. *)
Definition special_rune (ch : Z) : bool :=
  ((ch <? 32) || (126 <? ch)) && negb (ch =? 32) && negb (ch =? 9)
  && negb (ch =? 10).

Definition specialCharCount (str : list byte) : Z :=
  len (List.filter special_rune (runes str)).

(** [isLikelyGarbage]. The source compares
    [float64(specialCharCount)/float64(len(str))] with [0.3]; for the two
    integers of a string that fits in memory the rounded quotient exceeds
    the rounded constant exactly when [10 * count > 3 * len]. *)
Definition isLikelyGarbage (str : list byte) : bool :=
  if len str <? 10 then false
  else if 3 * len str <? 10 * specialCharCount str then true
  else if hasRepeatingPattern str then true
  else false.

(** [strings.ToLower] on the ASCII letters. The strings it is applied to
    are the extracted candidates, whose bytes are printable ASCII, and the
    keywords below, whose other runes have no case. *)
Definition lower_byte (b : byte) : byte :=
  if between 0x41 (bz b) 0x5A then of_Z (bz b + 32) else b.

Definition ToLower (s : list byte) : list byte := map lower_byte s.

Definition meaningful_keywords : list (list byte) := map s2b [
  "password"; "user"; "jdbc"; "ssh"; "ldap"; "mysql"; "sk-";
  "账号"; "密码"; "Connection"; "Database"; "Server"; "Host";
  "Token"; "Key"; "Secret"; "Auth"; "Login"; "credential";
  "connect"; "config"; "setting"; "account"; "passwd"
]%string.

Definition isMeaningfulString (str : list byte) : bool :=
  if (500 <? len str) || (len str <? 8) then false
  else if isLikelyGarbage str then false
  else if existsb (fun keyword => Contains (ToLower str) (ToLower keyword))
                  meaningful_keywords then true
  else if Contains str (s2b "://") || Contains str (s2b "Data Source")
          || Contains str (s2b "Initial Catalog")
          || Contains str (s2b "User ID") then true
  else false.

(** [stringSet[str]] of a [map[string]bool] used as a set. *)
Definition in_set (str : list byte) (stringSet : list (list byte)) : bool :=
  existsb (bytes_eqb str) stringSet.

(** [string(utf16.Decode(currentString))]: every collected unit lies in
    [32, 126], where the decoding is the identity and each rune is one
    byte. *)
Definition utf16_string (currentString : list Z) : list byte :=
  map of_Z currentString.

Fixpoint extractUTF16_loop (data : list byte) (currentString : list Z)
  (results : list (list byte)) : list Z * list (list byte) :=
  match data with
  | b0 :: b1 :: data' =>
      let char := Z.lor (bz b0) (Z.shiftl (bz b1) 8) in
      if (32 <=? char) && (char <=? 126)
      then extractUTF16_loop data' (currentString ++ [char]) results
      else
        let results :=
          if 8 <=? len currentString then
            let str := utf16_string currentString in
            if isMeaningfulString str then results ++ [str] else results
          else results in
        extractUTF16_loop data' [] results
  | _ => (currentString, results)
  end.

Definition extractUTF16Strings (data : list byte) : list (list byte) :=
  let '(currentString, results) := extractUTF16_loop data [] [] in
  if 8 <=? len currentString then
    let str := utf16_string currentString in
    if isMeaningfulString str then results ++ [str] else results
  else results.

(** The loop over the bytes of [extractMeaningfulStrings]; the state is the
    string builder, the set of strings already kept and the results. *)
Fixpoint extractAscii_loop (data : list byte) (current : list byte)
  (stringSet results : list (list byte))
  : list byte * list (list byte) * list (list byte) :=
  match data with
  | [] => (current, stringSet, results)
  | b :: data' =>
      if printable b
      then extractAscii_loop data' (current ++ [b]) stringSet results
      else if (8 <=? len current)
              && negb (in_set current stringSet) && isMeaningfulString current
      then extractAscii_loop data' [] (current :: stringSet) (results ++ [current])
      else extractAscii_loop data' [] stringSet results
  end.

Fixpoint extractUTF16_merge (utf16Strings : list (list byte))
  (stringSet results : list (list byte)) : list (list byte) :=
  match utf16Strings with
  | [] => results
  | str :: rest =>
      if negb (in_set str stringSet) && isMeaningfulString str
      then extractUTF16_merge rest (str :: stringSet) (results ++ [str])
      else extractUTF16_merge rest stringSet results
  end.

(** [extractMeaningfulStrings]. The run that ends with the buffer is
    appended without being recorded in [stringSet], as in the source. *)
Definition extractMeaningfulStrings (data : list byte) : list (list byte) :=
  let '(current, stringSet, results) := extractAscii_loop data [] [] [] in
  let results :=
    if (8 <=? len current)
       && negb (in_set current stringSet) && isMeaningfulString current
    then results ++ [current] else results in
  extractUTF16_merge (extractUTF16Strings data) stringSet results.

(** ** Base64 layer *)

(** [isText]: more than 70% of the bytes are printable, LF, CR or tab; the
    float comparison [printable/len > 0.7] is [10 * printable > 7 * len],
    and false for the empty slice (where the quotient is NaN). *)
Definition isText (data : list byte) : bool :=
  let printable_count :=
    len (List.filter (fun b => between 32 (bz b) 126 || (bz b =? 10)
                                || (bz b =? 13) || (bz b =? 9)) data) in
  7 * len data <? 10 * printable_count.

(** The alphabet of [base64.StdEncoding]. *)
Definition b64val (b : byte) : option Z :=
  let x := bz b in
  if between 0x41 x 0x5A then Some (x - 0x41)
  else if between 0x61 x 0x7A then Some (x - 0x61 + 26)
  else if between 0x30 x 0x39 then Some (x - 0x30 + 52)
  else if x =? 0x2B then Some 62
  else if x =? 0x2F then Some 63
  else None.

Definition is_pad (b : byte) : bool := bz b =? 0x3D.

Definition is_nil {A} (l : list A) : bool :=
  match l with [] => true | _ => false end.

(** Quanta of four characters; padding is accepted in the last quantum
    only, as [xx==] or [xxx=], and the unused low bits are not checked
    ([StdEncoding] is not in strict mode). *)
Fixpoint decodeQuanta (s : list byte) : option (list byte) :=
  match s with
  | [] => Some []
  | a :: b :: c :: d :: rest =>
      va ← b64val a;
      vb ← b64val b;
      if is_pad c then
        if is_pad d && is_nil rest
        then Some [of_Z (Z.shiftr (Z.lor (Z.shiftl va 18) (Z.shiftl vb 12)) 16)]
        else None
      else
        vc ← b64val c;
        if is_pad d then
          if is_nil rest then
            let val := Z.lor (Z.lor (Z.shiftl va 18) (Z.shiftl vb 12))
                             (Z.shiftl vc 6) in
            Some [of_Z (Z.shiftr val 16); of_Z (Z.land (Z.shiftr val 8) 0xFF)]
          else None
        else
          vd ← b64val d;
          tl ← decodeQuanta rest;
          let val := Z.lor (Z.lor (Z.lor (Z.shiftl va 18) (Z.shiftl vb 12))
                                  (Z.shiftl vc 6)) vd in
          Some (of_Z (Z.shiftr val 16) :: of_Z (Z.land (Z.shiftr val 8) 0xFF)
                :: of_Z (Z.land val 0xFF) :: tl)
  | _ => None
  end.

(** [base64.StdEncoding.DecodeString]; [None] is the decoding error. CR and
    LF are ignored by the decoder. *)
Definition DecodeString (s : list byte) : option (list byte) :=
  decodeQuanta
    (List.filter (fun b => negb ((bz b =? 10) || (bz b =? 13))) s).

(** The class [[A-Za-z0-9+/]]. *)
Definition b64_class : list (Z * Z) :=
  [r_ "A" "Z"; r_ "a" "z"; r_ "0" "9"; c_ "+"; c_ "/"].

(** [[A-Za-z0-9+/]{40,}[=]{0,2}] *)
Definition base64Pattern : re :=
  seqs [Rep (cls b64_class) 40 None; Rep (cls [c_ "="]) 0 (Some 2%nat)].

(** ** Offset and context resolver *)

Definition findStringOffset (data str : list byte) : Z := Index data str.

Definition unlocatable : list byte := s2b "无法定位".

Definition getStringContext (data : list byte) (offset contextLen : Z)
  : option (list byte) :=
  if offset =? -1 then Some unlocatable
  else
    let start := Z.max 0 (wrap64 (offset - contextLen)) in
    let end_ := Z.min (len data) (wrap64 (offset + contextLen)) in
    contextBytes ← slice data start end_;
    Some (map (fun b => if printable b then b else "."%byte) contextBytes).

Definition truncateForContext (s : list byte) (maxLen : Z)
  : option (list byte) :=
  if len s <=? maxLen then Some s
  else
    let half := Z.quot maxLen 2 in
    hd_ ← slice_to s half;
    tl_ ← slice_from s (len s - half);
    Some (hd_ ++ s2b "..." ++ tl_).

(** ** Rule matcher *)

Record BinaryMatchResult : Type := {
  RuleName : list byte;
  RuleDesc : list byte;
  ResRiskLevel : list byte;
  MatchedValue : list byte;
  Offset : Z;
  Context : list byte
}.

Fixpoint concatMapM {A B} (f : A -> option (list B)) (l : list A)
  : option (list B) :=
  match l with
  | [] => Some []
  | x :: l' =>
      ys ← f x;
      zs ← concatMapM f l';
      Some (ys ++ zs)
  end.

Fixpoint foldM {A S} (f : S -> A -> option S) (s : S) (l : list A)
  : option S :=
  match l with
  | [] => Some s
  | x :: l' => s' ← f s x; foldM f s' l'
  end.

(** [match[i]] of a submatch slice. *)
Definition sm (m : list (list byte)) (i : nat) : list byte := nth i m [].

(** The body of the inner loop of [checkStringWithRulesEx], for one match
    of one rule. *)
Definition checkMatchEx (rule : DetectionRule) (str data : list byte)
  (contextLen : Z) (m : list (list byte)) : option (list BinaryMatchResult) :=
  if 1 <? len m then
    let matchedValue := if 2 <? len m then sm m 2 else sm m 1 in
    if isValidCredential matchedValue then
      let offset := findStringOffset data (sm m 0) in
      let offset :=
        if offset =? -1 then findStringOffset data matchedValue else offset in
      let offset :=
        if offset =? -1 then findStringOffset data str else offset in
      offset ←
        (if (offset =? -1) && (10 <? len matchedValue)
         then pre ← slice_to matchedValue 10; Some (findStringOffset data pre)
         else Some offset);
      context ← getStringContext data offset contextLen;
      context ←
        (if (offset =? -1) && bytes_eqb context unlocatable
         then truncateForContext str contextLen
         else Some context);
      Some [ {| RuleName := Name rule;
                RuleDesc := Description rule;
                ResRiskLevel := RiskLevel rule;
                MatchedValue := matchedValue;
                Offset := offset;
                Context := context |} ]
    else Some []
  else Some [].

Definition checkStringWithRulesEx (rules : list DetectionRule)
  (str data : list byte) (contextLen : Z) : option (list BinaryMatchResult) :=
  concatMapM
    (fun rule =>
       concatMapM (checkMatchEx rule str data contextLen)
                  (FindAllStringSubmatch (Pattern rule) str))
    rules.

(** The body of the innermost loop of [checkBase64EncodedEx]. *)
Definition checkBase64MatchEx (rule : DetectionRule)
  (data base64Str decodedStr : list byte) (start contextLen : Z)
  (ruleMatch : list (list byte)) : option (list BinaryMatchResult) :=
  if len ruleMatch <? 2 then Some []
  else
    let matchedValue :=
      if 2 <? len ruleMatch then sm ruleMatch 2 else sm ruleMatch 1 in
    if negb (isValidCredential matchedValue) then Some []
    else
      context ← getStringContext data start contextLen;
      context ←
        (if bytes_eqb context unlocatable then
           e ← truncateForContext base64Str (Z.quot contextLen 2);
           d ← truncateForContext decodedStr (Z.quot contextLen 2);
           Some (s2b "Base64: " ++ e ++ s2b " -> " ++ d)
         else Some context);
      Some [ {| RuleName := Name rule ++ s2b " (Base64编码)";
                RuleDesc := Description rule ++ s2b " - Base64编码版本";
                ResRiskLevel := RiskLevel rule;
                MatchedValue := matchedValue;
                Offset := start;
                Context := context |} ].

(** The suffix a base64 finding adds to the rule name. *)
Definition base64_suffix : list byte := s2b " (Base64编码)".

(** The body of the loop over the base64 runs. *)
Definition checkBase64RunEx (rules : list DetectionRule) (data : list byte)
  (contextLen : Z) (m : nat * nat) : option (list BinaryMatchResult) :=
  let '(start, end_) := m in
  let base64Str := sub data start end_ in
  match DecodeString base64Str with
  | None => Some []
  | Some decoded =>
      if negb (isText decoded) then Some []
      else
        concatMapM
          (fun rule =>
             concatMapM
               (checkBase64MatchEx rule data base64Str decoded
                                   (Z.of_nat start) contextLen)
               (FindAllStringSubmatch (Pattern rule) decoded))
          rules
  end.

Definition checkBase64EncodedEx (rules : list DetectionRule)
  (data : list byte) (contextLen : Z) : option (list BinaryMatchResult) :=
  concatMapM (checkBase64RunEx rules data contextLen)
             (FindAllIndex base64Pattern data).

(** ** Result formatting *)

Definition hex_digit (d : Z) : byte :=
  if d <? 10 then of_Z (0x30 + d) else of_Z (0x41 + d - 10).

Fixpoint hex_pos (fuel : nat) (z : Z) (acc : list byte) : list byte :=
  match fuel with
  | O => acc
  | S f =>
      let acc := hex_digit (z mod 16) :: acc in
      if z / 16 =? 0 then acc else hex_pos f (z / 16) acc
  end.

(** The verb [%X] on an [int]: upper-case digits, a minus sign before the
    digits of a negative value. *)
Definition fmtX (z : Z) : list byte :=
  if z <? 0 then "-"%byte :: hex_pos 64 (- z) [] else hex_pos 64 z [].

Definition formatBinaryResult (result : BinaryMatchResult)
  (matchType : list byte) (contextLen : Z) : option (list byte) :=
  contextDisplay ←
    (if contextLen <? len (Context result)
     then pre ← slice_to (Context result) contextLen; Some (pre ++ s2b "...")
     else Some (Context result));
  Some (s2b "BINARY|" ++ matchType ++ s2b "|" ++ RuleName result ++ s2b "|"
        ++ ResRiskLevel result ++ s2b "|" ++ MatchedValue result
        ++ s2b "|0x" ++ fmtX (Offset result) ++ s2b "|" ++ contextDisplay).

(** ** The engine: [ParseWithKeywords] *)

(** One appended output line, together with the result record it was
    formatted from and the pass that produced it. *)
Record Emitted : Type := {
  matchType : list byte;
  result : BinaryMatchResult;
  lineOutput : list byte
}.

(** The two variables the three passes update: [seenOffsets] and
    [matchingLines]. *)
Definition PState : Type := gset Z * list Emitted.

Definition mt_rule : list byte := s2b "规则匹配".
Definition mt_keyword : list byte := s2b "关键字".
Definition mt_base64 : list byte := s2b "Base64编码".

(** The dedup-and-append loop body shared by the rule and base64 passes. *)
Definition emitResult (mt : list byte) (contextLen : Z) (st : PState)
  (res : BinaryMatchResult) : option PState :=
  let '(seenOffsets, matchingLines) := st in
  if bool_decide (Offset res ∈ seenOffsets) then Some st
  else
    line ← formatBinaryResult res mt contextLen;
    Some ({[ Offset res ]} ∪ seenOffsets,
          matchingLines ++ [ {| matchType := mt; result := res;
                                lineOutput := line |} ]).

Definition rulePass (rules : list DetectionRule) (data : list byte)
  (contextLen : Z) (allStrings : list (list byte)) (st : PState)
  : option PState :=
  foldM (fun st str =>
           results ← checkStringWithRulesEx rules str data contextLen;
           foldM (emitResult mt_rule contextLen) st results)
        st allStrings.

(** The loop over the keywords for one string: [continue] on an offset
    already seen, [break] after the first appended finding. *)
Fixpoint keywordLoop (data str : list byte) (contextLen : Z)
  (keywords : list (list byte)) (st : PState) : option PState :=
  match keywords with
  | [] => Some st
  | keyword :: keywords' =>
      if Contains str keyword then
        let offset := findStringOffset data str in
        if bool_decide (offset ∈ st.1)
        then keywordLoop data str contextLen keywords' st
        else
          context ← getStringContext data offset contextLen;
          let res := {| RuleName := s2b "关键字匹配";
                        RuleDesc := s2b "匹配关键字: " ++ keyword;
                        ResRiskLevel := s2b "medium";
                        MatchedValue := str;
                        Offset := offset;
                        Context := context |} in
          line ← formatBinaryResult res mt_keyword contextLen;
          Some ({[ offset ]} ∪ st.1,
                st.2 ++ [ {| matchType := mt_keyword; result := res;
                             lineOutput := line |} ])
      else keywordLoop data str contextLen keywords' st
  end.

Definition keywordPass (data : list byte) (contextLen : Z)
  (keywords allStrings : list (list byte)) (st : PState) : option PState :=
  if 0 <? len keywords then
    foldM (fun st str => keywordLoop data str contextLen keywords st)
          st allStrings
  else Some st.

Definition base64Pass (rules : list DetectionRule) (data : list byte)
  (contextLen : Z) (st : PState) : option PState :=
  base64Results ← checkBase64EncodedEx rules data contextLen;
  foldM (emitResult mt_base64 contextLen) st base64Results.

(** [ParseWithKeywords] with every appended line still attached to its
    result record. [filePath] and [verbose] only drive console printing
    and are left out. *)
Definition ParseWithKeywords_trace (rules : list DetectionRule)
  (data : list byte) (keywords : list (list byte)) (contextLen : Z)
  : option (list Emitted) :=
  valid ← (if len data <? 64 then Some false else isValidPEFile data);
  if negb valid then Some []
  else
    let allStrings := extractMeaningfulStrings data in
    st ← rulePass rules data contextLen allStrings (∅, []);
    st ← keywordPass data contextLen keywords allStrings st;
    st ← base64Pass rules data contextLen st;
    Some st.2.

(** [BinaryParser.ParseWithKeywords] of a parser built by
    [NewBinaryParser]: the list of output lines. *)
Definition ParseWithKeywords (data : list byte) (keywords : list (list byte))
  (contextLen : Z) : option (list (list byte)) :=
  map lineOutput <$>
    ParseWithKeywords_trace initDetectionRules data keywords contextLen.

(** ** Scan orchestrator: [FileParser.Parse] and [Scanner.scanFiles] *)

#[global] Instance byte_eq_dec : EqDecision byte.
Proof.
  intros a b. destruct (Byte.eqb a b) eqn:E.
  - left. apply byte_dec_bl. exact E.
  - right. intros Hab. rewrite (byte_dec_lb Hab) in E. discriminate E.
Defined.

#[global] Instance byte_countable : Countable byte :=
  inj_countable Byte.to_N Byte.of_N Byte.of_to_N.

Definition commit (path : list byte) (rawResults : list (list byte))
  (fileResults : gmap (list byte) (list (list byte)))
  : gmap (list byte) (list (list byte)) :=
  if 0 <? len rawResults then <[path := rawResults]> fileResults
  else fileResults.

(** What [commit] leaves under a path. *)
Definition stored (rawResults : list (list byte))
  : option (list (list byte)) :=
  if 0 <? len rawResults then Some rawResults else None.

(** A configuration of a run of [scanFiles]: the goroutines that have not
    yet entered the semaphore, those that hold one of its slots, and the
    shared map [s.fileResults]; or the process has died from a panic. *)
Inductive Config : Type :=
| Run (pending running : list (list byte))
      (fileResults : gmap (list byte) (list (list byte)))
| Crashed.

Section Orchestrator.

(** The collaborators outside the engine: the file system read by
    [os.ReadFile] ([None] is a read error), the file-type dispatcher
    [isBinaryFile], and the text, word, spreadsheet and CSV parsers
    ([None] is a panic inside one of them). *)
Variable ReadFile : list byte -> option (list byte).
Variable isBinaryFile : list byte -> bool.
Variable otherParsers :
  list byte -> list (list byte) -> option (list (list byte)).

(** [s.config.Keywords] and [fp.contextLength]. *)
Variable Keywords : list (list byte).
Variable contextLength : Z.

(** [FileParser.parseBinaryFile]: a read error yields no result. *)
Definition parseBinaryFile (filePath : list byte)
  : option (list (list byte)) :=
  match ReadFile filePath with
  | None => Some []
  | Some data => ParseWithKeywords data Keywords contextLength
  end.

(** [FileParser.Parse] *)
Definition Parse (filePath : list byte) : option (list (list byte)) :=
  if isBinaryFile filePath then parseBinaryFile filePath
  else otherParsers filePath Keywords.

(** One scheduling step with [ThreadCount] semaphore slots. Any waiting
    goroutine may take a free slot; any goroutine holding a slot may
    finish, which stores its non-empty result under the lock and releases
    the slot; a panic in a goroutine ends the process. *)
Inductive step (ThreadCount : nat) : Config -> Config -> Prop :=
| step_acquire path l1 l2 running fileResults :
    (List.length running < ThreadCount)%nat ->
    step ThreadCount (Run (l1 ++ path :: l2) running fileResults)
                     (Run (l1 ++ l2) (path :: running) fileResults)
| step_finish path rawResults pending r1 r2 fileResults :
    Parse path = Some rawResults ->
    step ThreadCount (Run pending (r1 ++ path :: r2) fileResults)
                     (Run pending (r1 ++ r2)
                          (commit path rawResults fileResults))
| step_panic path pending r1 r2 fileResults :
    Parse path = None ->
    step ThreadCount (Run pending (r1 ++ path :: r2) fileResults) Crashed.

Inductive steps (ThreadCount : nat) : Config -> Config -> Prop :=
| steps_refl c : steps ThreadCount c c
| steps_cons c1 c2 c3 :
    step ThreadCount c1 c2 -> steps ThreadCount c2 c3 ->
    steps ThreadCount c1 c3.

(** [wg.Wait()] has returned, or the process is dead. *)
Definition finished (c : Config) : Prop :=
  match c with
  | Run pending running _ => pending = [] /\ running = []
  | Crashed => True
  end.

(** A complete run of [scanFiles] over [files]. *)
Definition scanFiles (ThreadCount : nat) (files : list (list byte))
  (c : Config) : Prop :=
  steps ThreadCount (Run files [] ∅) c /\ finished c.

(** The per-file results a run must end with: what [Parse] returns for
    every file of the list, when that is not empty. *)
Fixpoint expectedResults (files : list (list byte))
  : gmap (list byte) (list (list byte)) :=
  match files with
  | [] => ∅
  | path :: files' =>
      match Parse path with
      | Some rawResults => commit path rawResults (expectedResults files')
      | None => expectedResults files'
      end
  end.

(** The invariant of a run over [files]: goroutines in flight belong to
    the file list; every file is waiting, running, or has its result
    stored; the map holds nothing else. A crash needs a panicking file. *)
Definition run_inv (files : list (list byte)) (c : Config) : Prop :=
  match c with
  | Crashed => exists path, In path files /\ Parse path = None
  | Run pending running fileResults =>
      (forall path, In path pending \/ In path running -> In path files)
      /\ (forall path, In path files ->
            In path pending \/ In path running
            \/ exists rawResults,
                 Parse path = Some rawResults
                 /\ fileResults !! path = stored rawResults)
      /\ (forall path rawResults,
            fileResults !! path = Some rawResults ->
            In path files /\ Parse path = Some rawResults
            /\ 0 < len rawResults)
  end.

(** The outcome of a complete run, whatever the schedule. *)
Definition outcome (files : list (list byte)) (c : Config) : Prop :=
  match c with
  | Crashed => exists path, In path files /\ Parse path = None
  | Run pending running fileResults =>
      pending = [] /\ running = []
      /\ fileResults = expectedResults files
      /\ forall path, In path files -> Parse path <> None
  end.

End Orchestrator.

(** [strings.HasSuffix] *)
Definition HasSuffix (s suffix : list byte) : bool :=
  has_prefix (rev s) (rev suffix).

(** ** The specification's wording of three predicates *)

Definition byte_at (data : list byte) (i : Z) : Z :=
  bz (nth (Z.to_nat i) data "000"%byte).

Definition le16 (data : list byte) (i : Z) : Z :=
  byte_at data i + 2 ^ 8 * byte_at data (i + 1).

Definition le32 (data : list byte) (i : Z) : Z :=
  byte_at data i + 2 ^ 8 * byte_at data (i + 1)
  + 2 ^ 16 * byte_at data (i + 2) + 2 ^ 24 * byte_at data (i + 3).

(** A buffer fails format validation: it is shorter than 64 bytes, or does
    not begin with the little-endian signature 0x5A4D, or the little-endian
    pointer [p] at offset 0x3C violates [p + 4 <= len] or does not point at
    the little-endian signature 0x00004550. *)
Definition fails_validation (data : list byte) : Prop :=
  len data < 64
  \/ le16 data 0 <> 0x5A4D
  \/ (let p := le32 data 0x3C in
      ~ (p + 4 <= len data) \/ le32 data p <> 0x00004550).

(** The generic token charset as the specification writes it,
    [[A-Za-z0-9!@#$%^&*()_+=-]{4,50}] over the whole string, and the
    validity check that uses it in place of the first shape pattern. *)
Definition spec_token_pattern : re :=
  seqs [Bol;
        Rep (cls (alnum ++ [c_ "!"; c_ "@"; c_ "#"; c_ "$"; c_ "%"; c_ "^";
                            c_ "&"; c_ "*"; c_ "("; c_ ")"; c_ "_"; c_ "+";
                            c_ "="; c_ "-"]))
            4 (Some 50%nat);
        Eol].

Definition spec_isValidCredential (str : list byte) : bool :=
  if len str <? 3 then false
  else if existsb (fun exclude => Contains str exclude) excluded then false
  else existsb (fun pattern => MatchString pattern str)
               (spec_token_pattern :: tail validPatterns).

(** "Likely garbage" as the specification words it: length at least 10 and
    either more than 0.3 of the characters outside [32,126] + tab, LF, CR,
    or four identical consecutive characters somewhere past position 10. *)
Definition spec_outside (ch : Z) : bool :=
  negb (between 32 ch 126 || (ch =? 9) || (ch =? 10) || (ch =? 13)).

Definition run4_at (str : list byte) (i : nat) : Prop :=
  (i + 3 < List.length str)%nat
  /\ at_ str i = at_ str (i + 1) /\ at_ str i = at_ str (i + 2)
  /\ at_ str i = at_ str (i + 3).

Definition spec_isLikelyGarbage (str : list byte) : Prop :=
  10 <= len str
  /\ (3 * len str < 10 * len (List.filter spec_outside (runes str))
      \/ exists i, (10 <= i)%nat /\ run4_at str i).

(** ** Sample buffers *)

Definition zero : byte := "000"%byte.

(** A minimal MZ/PE header: [MZ], zeros up to 0x3C, the pointer 0x40, and
    [PE\0\0] at 0x40; 68 bytes. *)
Definition minimal_header : list byte :=
  s2b "MZ" ++ repeat zero 58 ++ [of_Z 0x40; zero; zero; zero]
  ++ s2b "PE" ++ [zero; zero].

Fixpoint utf16le (s : list byte) : list byte :=
  match s with
  | [] => []
  | b :: t => b :: zero :: utf16le t
  end.

(** The header followed by an ASCII string. *)
Definition buffer_ascii (s : string) : list byte :=
  minimal_header ++ s2b s ++ [zero].

(** The header followed by a UTF-16LE string. *)
Definition buffer_utf16 (s : string) : list byte :=
  minimal_header ++ utf16le (s2b s).

(** The header followed by [password=Secr3t!123]; the string starts at
    offset 68. *)
Definition password_sample : list byte := buffer_ascii "password=Secr3t!123".

(** The minimal header, [n] zero bytes, the string [password=Secr3t!123]
    and a zero byte; the string starts at offset [68 + n]. *)
Definition padded_sample (n : nat) : list byte :=
  minimal_header ++ repeat zero n ++ s2b "password=Secr3t!123" ++ [zero].

(** The header followed by the base64 text of
    [password=Secr3t!123 and some more text]. *)
Definition base64_sample : list byte :=
  buffer_ascii "cGFzc3dvcmQ9U2VjcjN0ITEyMyBhbmQgc29tZSBtb3JlIHRleHQ=".

(** A file system with one executable, for runs of the orchestrator. *)
Definition sample_ReadFile (path : list byte) : option (list byte) :=
  if bytes_eqb path (s2b "a.exe")
  then Some (buffer_ascii "password=Secr3t!123")
  else None.

Definition sample_isBinaryFile (path : list byte) : bool :=
  HasSuffix path (s2b ".exe").

Definition sample_otherParsers (path : list byte)
  (keywords : list (list byte)) : option (list (list byte)) :=
  Some [].

Definition sample_files : list (list byte) :=
  [s2b "a.exe"; s2b "b.txt"; s2b "c.exe"].

(** ** Predicates used in the proofs *)

(** [k] is reached after consuming at least [n] bytes of [rest]. *)
Definition reaches (pos : nat) (rest : list byte) (n : nat) (k : K)
  (x : nat * caps) : Prop :=
  exists w rest' c',
    rest = w ++ rest' /\ (n <= List.length w)%nat
    /\ k (pos + List.length w)%nat rest' c' = Some x.

(** Every success of [body] reaches its continuation after at least [m]
    bytes. *)
Definition bounded_body
  (body : nat -> list byte -> caps -> K -> option (nat * caps)) (m : nat)
  : Prop :=
  forall pos rest c k x, body pos rest c k = Some x -> reaches pos rest m k x.

(** The next byte exists and is an ASCII byte outside the alphabet, or the
    text ends, within the first [lo] bytes. *)
Fixpoint run_breaks (lo : nat) (rest : list byte) : bool :=
  match lo with
  | O => false
  | S lo' =>
      match rest with
      | [] => true
      | b :: t =>
          if bz b <? 0x80 then
            if in_ranges (bz b) b64_class then run_breaks lo' t else true
          else false
      end
  end.

(** Every suffix of [rest] breaks a base64 run early, and all bytes are
    ASCII. *)
Fixpoint no_base64 (rest : list byte) : bool :=
  match rest with
  | [] => true
  | b :: t => (bz b <? 0x80) && run_breaks 40 rest && no_base64 t
  end.

(** Context lengths and buffer sizes for which [offset + contextLen] and
    [offset - contextLen] stay inside the 64-bit range. *)
Definition admissible (data : list byte) (contextLen : Z) : Prop :=
  0 <= contextLen < 2 ^ 62 /\ len data < 2 ^ 62.

(** A string of bytes in [32, 126]. *)
Definition printable_string (s : list byte) : Prop :=
  Forall (fun b => printable b = true) s.

(** A context made of bytes in [32, 126] and at most [2 * contextLen + 3]
    bytes long. *)
Definition context_ok (contextLen : Z) (r : BinaryMatchResult) : Prop :=
  printable_string (Context r) /\ len (Context r) <= 2 * contextLen + 3.

(** A resolved offset is an index into the buffer. *)
Definition offset_ok (data : list byte) (o : Z) : Prop :=
  o = -1 \/ 0 <= o < len data.

(** The offset of a line. *)
Definition off (e : Emitted) : Z := Offset (result e).

(** Every offset of an appended line is in [seenOffsets], and no offset
    occurs twice among the lines. *)
Definition wf (st : PState) : Prop :=
  NoDup (map off st.2) /\ forall e, In e st.2 -> off e ∈ st.1.

(** [st'] is [st] after appending lines that satisfy [Q], keeping [wf]. *)
Definition grows (Q : Emitted -> Prop) (st st' : PState) : Prop :=
  (wf st -> wf st') /\ exists l, st'.2 = st.2 ++ l /\ Forall Q l.

(** The output line of an entry is its result record, formatted. *)
Definition formatted (contextLen : Z) (e : Emitted) : Prop :=
  formatBinaryResult (result e) (matchType e) contextLen
  = Some (lineOutput e).

(** Lines of the rule pass come from [checkStringWithRulesEx] on a
    candidate string. *)
Definition from_rules (rules : list DetectionRule) (data : list byte)
  (contextLen : Z) (allStrings : list (list byte)) (e : Emitted) : Prop :=
  matchType e = mt_rule /\ formatted contextLen e
  /\ exists str results,
       In str allStrings
       /\ checkStringWithRulesEx rules str data contextLen = Some results
       /\ In (result e) results.

(** Lines of the keyword pass carry the offset of the candidate string and
    the context computed for that offset. *)
Definition from_keywords (data : list byte) (contextLen : Z)
  (keywords allStrings : list (list byte)) (e : Emitted) : Prop :=
  matchType e = mt_keyword /\ formatted contextLen e
  /\ exists str keyword,
       In str allStrings /\ In keyword keywords
       /\ Contains str keyword = true
       /\ MatchedValue (result e) = str
       /\ Offset (result e) = findStringOffset data str
       /\ getStringContext data (findStringOffset data str) contextLen
          = Some (Context (result e)).

(** Lines of the base64 pass come from [checkBase64EncodedEx]. *)
Definition from_base64 (rules : list DetectionRule) (data : list byte)
  (contextLen : Z) (e : Emitted) : Prop :=
  matchType e = mt_base64 /\ formatted contextLen e
  /\ exists results,
       checkBase64EncodedEx rules data contextLen = Some results
       /\ In (result e) results.

(** What [checkBase64EncodedEx] records for a finding: the rule whose
    pattern matched the decoded text and the run it was decoded from. *)
Definition base64_finding (rules : list DetectionRule) (data : list byte)
  (r : BinaryMatchResult) : Prop :=
  exists rule start end_ decoded,
    In rule rules
    /\ In (start, end_) (FindAllIndex base64Pattern data)
    /\ DecodeString (sub data start end_) = Some decoded
    /\ isText decoded = true
    /\ RuleName r = Name rule ++ base64_suffix
    /\ ResRiskLevel r = RiskLevel rule
    /\ Offset r = Z.of_nat start
    /\ isValidCredential (MatchedValue r) = true
    /\ exists m, In m (FindAllStringSubmatch (Pattern rule) decoded)
                 /\ In (MatchedValue r) m.

(** ** Predicates of the further properties *)

(** [s] occurs in [data] at position [i]. *)
Definition occurs_at (data s : list byte) (i : Z) : Prop :=
  exists pre post, data = pre ++ s ++ post /\ len pre = i.

(** [s] occurs in [data] at position [i] and at no earlier position. *)
Definition first_occurrence (data s : list byte) (i : Z) : Prop :=
  occurs_at data s i /\ forall j, occurs_at data s j -> i <= j.

(** A string kept by the single-byte pass of the extractor, and one kept
    by its UTF-16 pass: meaningful, and present in the buffer [full] byte
    for byte, respectively in UTF-16LE form. *)
Definition kept8 (full s : list byte) : Prop :=
  isMeaningfulString s = true /\ exists i, occurs_at full s i.

Definition kept16 (full s : list byte) : Prop :=
  isMeaningfulString s = true /\ exists i, occurs_at full (utf16le s) i.

(** The names of the rules whose pattern has a capture group. *)
Definition capture_rule_names : list (list byte) := map s2b [
  "数据库连接字符串"; "密码字段"; "用户名字段"; "API密钥"; "中文凭据"
]%string.

(** ** The parser without keywords: [BinaryParser.Parse] *)

(** [utils.TruncateString]: the length test is made on the string without
    its spaces ([strings.ReplaceAll] of the space by the empty string), the
    cut on the string itself. *)
Definition TruncateString (str : list byte) (maxLength : Z)
  : option (list byte) :=
  let trimmedStr := List.filter (fun b => negb (bz b =? 32)) str in
  if maxLength <? len trimmedStr
  then pre ← slice_to str maxLength; Some (pre ++ s2b "...")
  else Some str.

(** The body of the inner loop of [checkStringWithRules], for one match of
    one rule: two offset lookups and a context of 50 bytes either side. *)
Definition checkMatch (rule : DetectionRule) (data : list byte)
  (m : list (list byte)) : option (list BinaryMatchResult) :=
  if 1 <? len m then
    let matchedValue := if 2 <? len m then sm m 2 else sm m 1 in
    if isValidCredential matchedValue then
      let offset := findStringOffset data (sm m 0) in
      let offset :=
        if offset =? -1 then findStringOffset data matchedValue else offset in
      context ← getStringContext data offset 50;
      Some [ {| RuleName := Name rule;
                RuleDesc := Description rule;
                ResRiskLevel := RiskLevel rule;
                MatchedValue := matchedValue;
                Offset := offset;
                Context := context |} ]
    else Some []
  else Some [].

Definition checkStringWithRules (rules : list DetectionRule)
  (str data : list byte) : option (list BinaryMatchResult) :=
  concatMapM
    (fun rule =>
       concatMapM (checkMatch rule data)
                  (FindAllStringSubmatch (Pattern rule) str))
    rules.

(** The body of the innermost loop of [checkBase64Encoded]. *)
Definition checkBase64Match (rule : DetectionRule) (data : list byte)
  (start : Z) (ruleMatch : list (list byte))
  : option (list BinaryMatchResult) :=
  if len ruleMatch <? 2 then Some []
  else
    let matchedValue :=
      if 2 <? len ruleMatch then sm ruleMatch 2 else sm ruleMatch 1 in
    if negb (isValidCredential matchedValue) then Some []
    else
      context ← getStringContext data start 50;
      Some [ {| RuleName := Name rule ++ s2b " (Base64编码)";
                RuleDesc := Description rule ++ s2b " - Base64编码版本";
                ResRiskLevel := RiskLevel rule;
                MatchedValue := matchedValue;
                Offset := start;
                Context := context |} ].

Definition checkBase64Run (rules : list DetectionRule) (data : list byte)
  (m : nat * nat) : option (list BinaryMatchResult) :=
  let '(start, end_) := m in
  let base64Str := sub data start end_ in
  match DecodeString base64Str with
  | None => Some []
  | Some decoded =>
      if negb (isText decoded) then Some []
      else
        concatMapM
          (fun rule =>
             concatMapM (checkBase64Match rule data (Z.of_nat start))
                        (FindAllStringSubmatch (Pattern rule) decoded))
          rules
  end.

Definition checkBase64Encoded (rules : list DetectionRule)
  (data : list byte) : option (list BinaryMatchResult) :=
  concatMapM (checkBase64Run rules data) (FindAllIndex base64Pattern data).

(** The line [[+] name: value] of a finding, resp. [[+] name (Base64): value]
    with [infix] the text between the name and the colon. *)
Definition legacyLine (infix : list byte) (result : BinaryMatchResult)
  : option (list (list byte)) :=
  value ← TruncateString (MatchedValue result) 100;
  Some [s2b "[+] " ++ RuleName result ++ infix ++ s2b ": " ++ value].

(** [BinaryParser.Parse]: no keywords, no deduplication, one line per
    finding. [filePath] and [verbose] only drive console printing. *)
Definition BinaryParser_Parse (rules : list DetectionRule)
  (data : list byte) : option (list (list byte)) :=
  valid ← (if len data <? 64 then Some false else isValidPEFile data);
  if negb valid then Some []
  else
    let allStrings := extractMeaningfulStrings data in
    lines ←
      concatMapM (fun str =>
                    results ← checkStringWithRules rules str data;
                    concatMapM (legacyLine []) results)
                 allStrings;
    base64Results ← checkBase64Encoded rules data;
    lines64 ← concatMapM (legacyLine (s2b " (Base64)")) base64Results;
    Some (lines ++ lines64).

(** ** The HTML report: [parseRawResult] and [BuildHTMLReport] *)

(** [strings.Split(s, sep)] for a separator of one byte; the separators of
    the source are the vertical bar and the comma. The result has one more
    element than [s] has separators. *)
Fixpoint Split (s : list byte) (sep : byte) : list (list byte) :=
  match s with
  | [] => [[]]
  | b :: s' =>
      if byte_eqb b sep then [] :: Split s' sep
      else match Split s' sep with
           | part :: parts => (b :: part) :: parts
           | [] => [[b]]
           end
  end.

Definition pipe : byte := "|"%byte.

Module HTMLResult.

Record t : Type := mk {
  Icon : list byte;
  RuleName : list byte;
  Type_ : list byte;
  RiskLevel : list byte;
  RiskLevelText : list byte;
  MatchedValue : list byte;
  LineNumber : list byte;
  Offset : list byte;
  Context : list byte
}.

(** [&HTMLResult{}] *)
Definition empty : t := mk [] [] [] [] [] [] [] [] [].

End HTMLResult.

Record HTMLFileSection : Type := {
  Path : list byte;
  Count : Z;
  Results : list HTMLResult.t
}.

(** [HTMLReport] without [Duration], [ScanTime] and [GenerateTime], which
    are read off the clock. *)
Record HTMLReport : Type := {
  TotalFiles : Z;
  TotalFindings : Z;
  ScanDirectory : list byte;
  CriticalCount : Z;
  HighCount : Z;
  MediumCount : Z;
  LowCount : Z;
  Files : list HTMLFileSection
}.

Section Unicode.

(** [strings.ToLower] lowers an all-ASCII string byte by byte, and hands
    any other string to [strings.Map(unicode.ToLower, s)], which follows
    the case tables of the [unicode] package: a parameter here. *)
Variable Map_ToLower : list byte -> list byte.

Definition strings_ToLower (s : list byte) : list byte :=
  if forallb (fun b => bz b <? 0x80) s then ToLower s else Map_ToLower s.

(** [getRiskIconText] *)
Definition getRiskIconText (riskLevel : list byte) : list byte :=
  let l := strings_ToLower riskLevel in
  if bytes_eqb l (s2b "critical") then s2b "🔴"
  else if bytes_eqb l (s2b "high") then s2b "🟠"
  else if bytes_eqb l (s2b "medium") then s2b "🟡"
  else if bytes_eqb l (s2b "low") then s2b "🟢"
  else s2b "⚪".

(** [getRiskLevelText] *)
Definition getRiskLevelText (riskLevel : list byte) : list byte :=
  let l := strings_ToLower riskLevel in
  if bytes_eqb l (s2b "critical") then s2b "严重"
  else if bytes_eqb l (s2b "high") then s2b "高危"
  else if bytes_eqb l (s2b "medium") then s2b "中危"
  else if bytes_eqb l (s2b "low") then s2b "低危"
  else s2b "未知".

(** [parseRawResult]; [None] is the [nil] pointer. A line whose first
    field is none of the five kinds, or that has too few fields for its
    kind, gives the empty result. *)
Definition parseRawResult (raw : list byte) : option HTMLResult.t :=
  let parts := Split raw pipe in
  if len parts <? 2 then None
  else
    let kind := sm parts 0 in
    Some
      (if bytes_eqb kind (s2b "TEXT") then
         if 4 <=? len parts then
           {| HTMLResult.Icon := s2b "🔑";
              HTMLResult.RuleName := s2b "关键字匹配: " ++ sm parts 1;
              HTMLResult.Type_ := s2b "文本文件";
              HTMLResult.RiskLevel := s2b "medium";
              HTMLResult.RiskLevelText := s2b "中危";
              HTMLResult.MatchedValue := sm parts 1;
              HTMLResult.LineNumber := sm parts 2;
              HTMLResult.Offset := [];
              HTMLResult.Context := sm parts 3 |}
         else HTMLResult.empty
       else if bytes_eqb kind (s2b "WORD") then
         if 4 <=? len parts then
           {| HTMLResult.Icon := s2b "📄";
              HTMLResult.RuleName := s2b "关键字匹配: " ++ sm parts 2;
              HTMLResult.Type_ := s2b "Word文档 - " ++ sm parts 1;
              HTMLResult.RiskLevel := s2b "medium";
              HTMLResult.RiskLevelText := s2b "中危";
              HTMLResult.MatchedValue := sm parts 2;
              HTMLResult.LineNumber := [];
              HTMLResult.Offset := [];
              HTMLResult.Context := sm parts 3 |}
         else HTMLResult.empty
       else if bytes_eqb kind (s2b "EXCEL") then
         if 4 <=? len parts then
           {| HTMLResult.Icon := s2b "📊";
              HTMLResult.RuleName := s2b "关键字匹配: " ++ sm parts 2;
              HTMLResult.Type_ := s2b "Excel文档 (" ++ sm parts 1 ++ s2b ")";
              HTMLResult.RiskLevel := s2b "medium";
              HTMLResult.RiskLevelText := s2b "中危";
              HTMLResult.MatchedValue := sm parts 2;
              HTMLResult.LineNumber := [];
              HTMLResult.Offset := [];
              HTMLResult.Context := sm parts 3 |}
         else HTMLResult.empty
       else if bytes_eqb kind (s2b "CSV") then
         if 3 <=? len parts then
           {| HTMLResult.Icon := s2b "📋";
              HTMLResult.RuleName := s2b "关键字匹配: " ++ sm parts 1;
              HTMLResult.Type_ := s2b "CSV文件";
              HTMLResult.RiskLevel := s2b "medium";
              HTMLResult.RiskLevelText := s2b "中危";
              HTMLResult.MatchedValue := sm parts 1;
              HTMLResult.LineNumber := [];
              HTMLResult.Offset := [];
              HTMLResult.Context := sm parts 2 |}
         else HTMLResult.empty
       else if bytes_eqb kind (s2b "BINARY") then
         if 7 <=? len parts then
           {| HTMLResult.Icon := getRiskIconText (sm parts 3);
              HTMLResult.RuleName := sm parts 2;
              HTMLResult.Type_ := sm parts 1;
              HTMLResult.RiskLevel := strings_ToLower (sm parts 3);
              HTMLResult.RiskLevelText := getRiskLevelText (sm parts 3);
              HTMLResult.MatchedValue := sm parts 4;
              HTMLResult.LineNumber := [];
              HTMLResult.Offset := sm parts 5;
              HTMLResult.Context := sm parts 6 |}
         else HTMLResult.empty
       else HTMLResult.empty).

(** The [switch] that counts a parsed result under its risk level. *)
Definition countRisk (report : HTMLReport) (riskLevel : list byte)
  : HTMLReport :=
  let l := strings_ToLower riskLevel in
  let bump (c h m w : Z) :=
    {| TotalFiles := TotalFiles report;
       TotalFindings := TotalFindings report;
       ScanDirectory := ScanDirectory report;
       CriticalCount := CriticalCount report + c;
       HighCount := HighCount report + h;
       MediumCount := MediumCount report + m;
       LowCount := LowCount report + w;
       Files := Files report |} in
  if bytes_eqb l (s2b "critical") then bump 1 0 0 0
  else if bytes_eqb l (s2b "high") then bump 0 1 0 0
  else if bytes_eqb l (s2b "medium") then bump 0 0 1 0
  else if bytes_eqb l (s2b "low") then bump 0 0 0 1
  else report.

(** The inner loop of [BuildHTMLReport] over the raw lines of one file. *)
Definition addRaw (st : list HTMLResult.t * HTMLReport) (raw : list byte)
  : list HTMLResult.t * HTMLReport :=
  match parseRawResult raw with
  | Some htmlResult =>
      (st.1 ++ [htmlResult],
       countRisk st.2 (HTMLResult.RiskLevel htmlResult))
  | None => st
  end.

(** The body of the outer loop, for one entry of the map. *)
Definition addFile (report : HTMLReport)
  (entry : list byte * list (list byte)) : HTMLReport :=
  let '(filePath, results) := entry in
  if len results =? 0 then report
  else
    let '(sectionResults, report) := fold_left addRaw results ([], report) in
    {| TotalFiles := TotalFiles report + 1;
       TotalFindings := TotalFindings report + len sectionResults;
       ScanDirectory := ScanDirectory report;
       CriticalCount := CriticalCount report;
       HighCount := HighCount report;
       MediumCount := MediumCount report;
       LowCount := LowCount report;
       Files := Files report
                ++ [ {| Path := filePath; Count := len results;
                        Results := sectionResults |} ] |}.

(** [BuildHTMLReport] over [entries], the entries of [fileResults] in the
    order in which [range] yields them, which the language leaves open. *)
Definition BuildHTMLReport (scanDir : list byte)
  (entries : list (list byte * list (list byte))) : HTMLReport :=
  fold_left addFile entries
    {| TotalFiles := 0; TotalFindings := 0; ScanDirectory := scanDir;
       CriticalCount := 0; HighCount := 0; MediumCount := 0; LowCount := 0;
       Files := [] |}.

End Unicode.

(** An order in which [range fileResults] can yield the entries. *)
Definition iteration_of (fileResults : gmap (list byte) (list (list byte)))
  (entries : list (list byte * list (list byte))) : Prop :=
  entries ≡ₚ map_to_list fileResults.

(** The part of [s] before its first separator, and the test that [s] has
    none. *)
Fixpoint until (sep : byte) (s : list byte) : list byte :=
  match s with
  | [] => []
  | b :: s' => if byte_eqb b sep then [] else b :: until sep s'
  end.

Definition free_of (sep : byte) (s : list byte) : bool :=
  forallb (fun b => negb (byte_eqb b sep)) s.

(** The four risk levels of the rule corpus. *)
Definition risk_levels : list (list byte) :=
  map s2b ["critical"; "high"; "medium"; "low"]%string.

(** What [formatBinaryResult] shows of a context. *)
Definition contextDisplay (context : list byte) (contextLen : Z) : list byte :=
  if contextLen <? len context
  then firstn (Z.to_nat contextLen) context ++ s2b "..."
  else context.

(** The fields the keyword pass gives its findings. *)
Definition keyword_fields (e : Emitted) : Prop :=
  matchType e = mt_keyword ->
  RuleName (result e) = s2b "关键字匹配"
  /\ ResRiskLevel (result e) = s2b "medium"
  /\ exists keyword,
       RuleDesc (result e) = s2b "匹配关键字: " ++ keyword
       /\ Contains (MatchedValue (result e)) keyword = true.

(** The rules of the corpus have names and risk levels without a vertical
    bar, and one of the four risk levels. *)
Definition rule_fields_ok (rule : DetectionRule) : bool :=
  free_of pipe (Name rule) && free_of pipe (Name rule ++ base64_suffix)
  && free_of pipe (RiskLevel rule)
  && existsb (bytes_eqb (RiskLevel rule)) risk_levels.

(** The section [BuildHTMLReport] makes of one entry, and the number of
    results of a list that the [switch] counts under a risk level. *)
Definition sectionOf (Map_ToLower : list byte -> list byte)
  (entry : list byte * list (list byte)) : HTMLFileSection :=
  {| Path := entry.1; Count := len entry.2;
     Results := omap (parseRawResult Map_ToLower) entry.2 |}.

Definition risk_count (Map_ToLower : list byte -> list byte)
  (level : string) (results : list HTMLResult.t) : Z :=
  len (List.filter
         (fun h => bytes_eqb
                     (strings_ToLower Map_ToLower (HTMLResult.RiskLevel h))
                     (s2b level))
         results).

(** The entries [BuildHTMLReport] does not skip. *)
Definition with_results (entry : list byte * list (list byte)) : bool :=
  negb (len entry.2 =? 0).

(** The sum of [f] over a list. *)
Definition sumZ {A} (f : A -> Z) (l : list A) : Z :=
  fold_right (fun x acc => f x + acc) 0 l.

(** What a loop of [BuildHTMLReport] has added to the report when it has
    appended the sections [secs] and counted the results [new]. *)
Definition report_step (Map_ToLower : list byte -> list byte)
  (rep rep' : HTMLReport) (secs : list HTMLFileSection)
  (new : list HTMLResult.t) : Prop :=
  Files rep' = Files rep ++ secs
  /\ TotalFiles rep' = TotalFiles rep + len secs
  /\ TotalFindings rep' = TotalFindings rep + sumZ (fun s => len (Results s)) secs
  /\ ScanDirectory rep' = ScanDirectory rep
  /\ CriticalCount rep'
     = CriticalCount rep + risk_count Map_ToLower "critical" new
  /\ HighCount rep' = HighCount rep + risk_count Map_ToLower "high" new
  /\ MediumCount rep' = MediumCount rep + risk_count Map_ToLower "medium" new
  /\ LowCount rep' = LowCount rep + risk_count Map_ToLower "low" new.

(** A line that a run of the engine has put out. *)
Definition engine_line (raw : list byte) : Prop :=
  exists data keywords contextLen t e,
    ParseWithKeywords_trace initDetectionRules data keywords contextLen
      = Some t
    /\ In e t /\ raw = lineOutput e.

(** ** The text formatter: [truncatePath], [splitByWidth], [wrapText] *)

(** [strings.Repeat(s, count)] panics for a negative count and for a
    result too long for an [int]. *)
Definition Repeat (s : list byte) (count : Z) : option (list byte) :=
  if (count <? 0) || (2 ^ 63 - 1 <? len s * count) then None
  else Some (concat (repeat s (Z.to_nat count))).

(** [truncatePath] of the formatter; [truncateForBox] of the scanner has
    the same body. *)
Definition truncatePath (path : list byte) (maxLen : Z)
  : option (list byte) :=
  if len path <=? maxLen then Some path
  else
    tl_ ← slice_from path (wrap64 (wrap64 (len path - maxLen) + 3));
    Some (s2b "..." ++ tl_).

Definition truncateForBox (s : list byte) (maxLen : Z)
  : option (list byte) :=
  if len s <=? maxLen then Some s
  else
    tl_ ← slice_from s (wrap64 (wrap64 (len s - maxLen) + 3));
    Some (s2b "..." ++ tl_).

(** [utf8.AppendRune], which [strings.Builder.WriteRune] calls: a rune
    outside the Unicode range and a surrogate are written as U+FFFD. *)
Definition EncodeRune (r : Z) : list byte :=
  if (0 <=? r) && (r <=? 0x7F) then [of_Z r]
  else if (0 <=? r) && (r <=? 0x7FF) then
    [of_Z (Z.lor 0xC0 (Z.shiftr r 6)); of_Z (Z.lor 0x80 (Z.land r 0x3F))]
  else if (r <? 0) || (0x10FFFF <? r) || ((0xD800 <=? r) && (r <=? 0xDFFF))
  then [of_Z 0xEF; of_Z 0xBF; of_Z 0xBD]
  else if r <=? 0xFFFF then
    [of_Z (Z.lor 0xE0 (Z.shiftr r 12));
     of_Z (Z.lor 0x80 (Z.land (Z.shiftr r 6) 0x3F));
     of_Z (Z.lor 0x80 (Z.land r 0x3F))]
  else
    [of_Z (Z.lor 0xF0 (Z.shiftr r 18));
     of_Z (Z.lor 0x80 (Z.land (Z.shiftr r 12) 0x3F));
     of_Z (Z.lor 0x80 (Z.land (Z.shiftr r 6) 0x3F));
     of_Z (Z.lor 0x80 (Z.land r 0x3F))].

(** The width the formatter gives a rune: 2 above 127, else 1. *)
Definition charWidth (r : Z) : Z := if 127 <? r then 2 else 1.

(** [displayWidth] *)
Definition displayWidth (s : list byte) : Z :=
  fold_left (fun width r => width + charWidth r) (runes s) 0.

(** The body of the loop of [splitByWidth]; the state is [lines],
    [currentLine] and [currentWidth]. *)
Definition splitStep (maxWidth : Z)
  (st : list (list byte) * list byte * Z) (r : Z)
  : list (list byte) * list byte * Z :=
  let '(lines, currentLine, currentWidth) := st in
  let '(lines, currentLine, currentWidth) :=
    if (maxWidth <? currentWidth + charWidth r) && (0 <? len currentLine)
    then (lines ++ [currentLine], [], 0)
    else (lines, currentLine, currentWidth) in
  (lines, currentLine ++ EncodeRune r, currentWidth + charWidth r).

(** [splitByWidth] *)
Definition splitByWidth (text : list byte) (maxWidth : Z)
  : list (list byte) :=
  let '(lines, currentLine, _) :=
    fold_left (splitStep maxWidth) (runes text) ([], [], 0) in
  if 0 <? len currentLine then lines ++ [currentLine] else lines.

Record ResultFormatter : Type := { width : Z }.

(** [NewResultFormatter] *)
Definition NewResultFormatter : ResultFormatter := {| width := 100 |}.

Definition newline : list byte := ["010"%byte].

(** [ResultFormatter.wrapText] *)
Definition wrapText (f : ResultFormatter) (text prefix : list byte)
  : list byte :=
  let maxWidth := width f - len prefix - 2 in
  if len text <=? maxWidth then prefix ++ text ++ newline
  else
    concat (map (fun line => prefix ++ line ++ newline)
                (splitByWidth text maxWidth)).

(** [ResultFormatter.line] *)
Definition line (f : ResultFormatter) (char : list byte)
  : option (list byte) :=
  l ← Repeat char (width f); Some (l ++ newline).

(** [ResultFormatter.centerLine]; the division of two [int]s truncates. *)
Definition centerLine (f : ResultFormatter) (text : list byte)
  : option (list byte) :=
  let textWidth := displayWidth text in
  if width f <=? textWidth then Some (text ++ newline)
  else
    let padding := Z.quot (width f - textWidth) 2 in
    spaces ← Repeat (s2b " ") padding;
    Some (spaces ++ text ++ newline).

(** ** Scan results: [maskSensitiveValue] and [ResultCollection] *)

(** [maskSensitiveValue] *)
Definition maskSensitiveValue (value : list byte) : option (list byte) :=
  if len value <=? 6 then Repeat (s2b "*") (len value)
  else
    prefix ← slice_to value 2;
    suffix ← slice_from value (len value - 2);
    middle ← Repeat (s2b "*") (len value - 4);
    Some (prefix ++ middle ++ suffix).

Module ScanResult.

Record t : Type := mk {
  Index : Z;
  RuleName : list byte;
  RiskLevel : list byte;
  Confidence : list byte;
  Description : list byte;
  MatchedValue : list byte;
  FilePath : list byte;
  LineNumber : Z;
  Offset : Z;
  Context : list byte;
  FileType : list byte
}.

(** [result.Index = index] *)
Definition with_Index (result : t) (index : Z) : t :=
  mk index (RuleName result) (RiskLevel result) (Confidence result)
     (Description result) (MatchedValue result) (FilePath result)
     (LineNumber result) (Offset result) (Context result) (FileType result).

End ScanResult.

Module ResultCollection.

Record t : Type := mk {
  Results : list ScanResult.t;
  counter : Z
}.

(** [NewResultCollection] *)
Definition New : t := {| Results := []; counter := 0 |}.

(** [ResultCollection.Add]; the counter is an [int]. *)
Definition Add (rc : t) (result : ScanResult.t) : t :=
  let counter' := wrap64 (counter rc + 1) in
  {| Results := Results rc ++ [ScanResult.with_Index result counter'];
     counter := counter' |}.

(** [ResultCollection.Count] *)
Definition Count (rc : t) : Z := len (Results rc).

(** The [switch] of [GetStatistics] for one result; [stats[key]++] reads a
    missing key as 0. *)
Definition countResult (Map_ToLower : list byte -> list byte)
  (stats : gmap string Z) (result : ScanResult.t) : gmap string Z :=
  let l := strings_ToLower Map_ToLower (ScanResult.RiskLevel result) in
  let bump (key : string) := <[key := default 0 (stats !! key) + 1]> stats in
  if bytes_eqb l (s2b "critical") then bump "critical"%string
  else if bytes_eqb l (s2b "high") then bump "high"%string
  else if bytes_eqb l (s2b "medium") then bump "medium"%string
  else if bytes_eqb l (s2b "low") then bump "low"%string
  else stats.

(** [ResultCollection.GetStatistics] *)
Definition GetStatistics (Map_ToLower : list byte -> list byte) (rc : t)
  : gmap string Z :=
  let stats : gmap string Z :=
    <["low"%string := 0]> (<["medium"%string := 0]> (<["high"%string := 0]>
      (<["critical"%string := 0]>
         (<["total"%string := len (Results rc)]> ∅)))) in
  fold_left (countResult Map_ToLower) (Results rc) stats.

End ResultCollection.

(** The rune lists behind the lines of [splitByWidth]: their encoding and
    their display width. *)
Definition encodeRunes (rs : list Z) : list byte :=
  concat (map EncodeRune rs).

Definition runesWidth (rs : list Z) : Z := sumZ charWidth rs.

(** A string of ASCII bytes. *)
Definition ascii_string (s : list byte) : Prop :=
  Forall (fun b => bz b < 0x80) s.

(** The counter of a collection is the number of its results. *)
Definition counter_ok (rc : ResultCollection.t) : Prop :=
  ResultCollection.counter rc = len (ResultCollection.Results rc).

(** The number of results of a collection that [GetStatistics] counts
    under a risk level, and the five entries of its map. *)
Definition level_count (Map_ToLower : list byte -> list byte)
  (level : string) (results : list ScanResult.t) : Z :=
  len (List.filter
         (fun r => bytes_eqb
                     (strings_ToLower Map_ToLower (ScanResult.RiskLevel r))
                     (s2b level))
         results).

Definition stats_are (stats : gmap string Z) (total critical high medium low : Z)
  : Prop :=
  stats !! "total"%string = Some total
  /\ stats !! "critical"%string = Some critical
  /\ stats !! "high"%string = Some high
  /\ stats !! "medium"%string = Some medium
  /\ stats !! "low"%string = Some low.

(** * Lemmas *)

(** ** Format validator *)

Ltac pow2 :=
  change (2 ^ 8) with 256 in *; change (2 ^ 16) with 65536 in *;
  change (2 ^ 24) with 16777216 in *; change (2 ^ 32) with 4294967296 in *.

Lemma bz_range (b : byte) : 0 <= bz b < 256.
Proof.
  unfold bz. pose proof (Byte.to_N_bounded b) as H. lia.
Qed.

Lemma len_nonneg {A} (l : list A) : 0 <= len l.
Proof. unfold len. lia. Qed.

Lemma lor_shiftl_add (a b k : Z) :
  0 <= k -> 0 <= a < 2 ^ k -> Z.lor a (Z.shiftl b k) = a + 2 ^ k * b.
Proof.
  intros Hk Ha.
  rewrite Z.shiftl_mul_pow2 by lia.
  rewrite <- Z.lxor_lor, <- Z.add_nocarry_lxor; try lia.
  all: apply Z.bits_inj'; intros n Hn; rewrite Z.land_spec, Z.bits_0.
  all: destruct (Z.lt_ge_cases n k) as [Hlt|Hge].
  all: try (rewrite Z.mul_pow2_bits_low by lia; apply andb_false_r).
  all: destruct (Z.eq_dec a 0) as [->|Hne];
       [ rewrite Z.bits_0; reflexivity | ].
  all: rewrite (Z.bits_above_log2 a n); [ reflexivity | lia | ].
  all: apply Z.log2_lt_pow2; [ lia | ].
  all: apply Z.lt_le_trans with (2 ^ k); [ lia | apply Z.pow_le_mono_r; lia ].
Qed.

Lemma slice_in_range {A} (s : list A) (lo hi : Z) :
  0 <= lo -> lo <= hi -> hi <= len s ->
  slice s lo hi = Some (firstn (Z.to_nat (hi - lo)) (skipn (Z.to_nat lo) s)).
Proof.
  intros H1 H2 H3. unfold slice.
  destruct (0 <=? lo) eqn:E1; [ | lia ].
  destruct (lo <=? hi) eqn:E2; [ | lia ].
  destruct (hi <=? len s) eqn:E3; [ reflexivity | lia ].
Qed.

Lemma skipn_nth_cons {A} (d : A) (n : nat) (s : list A) :
  (n < List.length s)%nat -> skipn n s = nth n s d :: skipn (S n) s.
Proof.
  revert s. induction n as [|n IH]; intros [|x s] H; simpl in *; try lia.
  - reflexivity.
  - apply IH. lia.
Qed.

Lemma Uint16_at (data : list byte) (i : Z) :
  0 <= i -> i + 2 <= len data ->
  Uint16 (firstn 2 (skipn (Z.to_nat i) data)) = Some (le16 data i).
Proof.
  intros Hi Hl. unfold len in Hl.
  rewrite (skipn_nth_cons "000"%byte (Z.to_nat i)) by lia.
  rewrite (skipn_nth_cons "000"%byte (S (Z.to_nat i))) by lia.
  simpl. unfold le16, byte_at. f_equal.
  replace (Z.to_nat (i + 1)) with (S (Z.to_nat i)) by lia.
  apply lor_shiftl_add; [ lia | ]. apply bz_range.
Qed.

Lemma Uint32_at (data : list byte) (i : Z) :
  0 <= i -> i + 4 <= len data ->
  Uint32 (firstn 4 (skipn (Z.to_nat i) data)) = Some (le32 data i).
Proof.
  intros Hi Hl. unfold len in Hl.
  rewrite (skipn_nth_cons "000"%byte (Z.to_nat i)) by lia.
  rewrite (skipn_nth_cons "000"%byte (S (Z.to_nat i))) by lia.
  rewrite (skipn_nth_cons "000"%byte (S (S (Z.to_nat i)))) by lia.
  rewrite (skipn_nth_cons "000"%byte (S (S (S (Z.to_nat i))))) by lia.
  simpl. unfold le32, byte_at. f_equal.
  replace (Z.to_nat (i + 1)) with (S (Z.to_nat i)) by lia.
  replace (Z.to_nat (i + 2)) with (S (S (Z.to_nat i))) by lia.
  replace (Z.to_nat (i + 3)) with (S (S (S (Z.to_nat i)))) by lia.
  set (b0 := nth (Z.to_nat i) data "000"%byte).
  set (b1 := nth (S (Z.to_nat i)) data "000"%byte).
  set (b2 := nth (S (S (Z.to_nat i))) data "000"%byte).
  set (b3 := nth (S (S (S (Z.to_nat i)))) data "000"%byte).
  pose proof (bz_range b0). pose proof (bz_range b1).
  pose proof (bz_range b2). pose proof (bz_range b3).
  pow2.
  rewrite (lor_shiftl_add (bz b0) (bz b1) 8) by lia.
  rewrite (lor_shiftl_add _ (bz b2) 16) by lia.
  rewrite (lor_shiftl_add _ (bz b3) 24) by lia.
  reflexivity.
Qed.

Lemma le32_range (data : list byte) (i : Z) : 0 <= le32 data i < 2 ^ 32.
Proof.
  unfold le32, byte_at.
  pose proof (bz_range (nth (Z.to_nat i) data "000"%byte)).
  pose proof (bz_range (nth (Z.to_nat (i + 1)) data "000"%byte)).
  pose proof (bz_range (nth (Z.to_nat (i + 2)) data "000"%byte)).
  pose proof (bz_range (nth (Z.to_nat (i + 3)) data "000"%byte)).
  pow2. lia.
Qed.

(** [isValidPEFile] never panics, and answers what the format demands. *)
Lemma isValidPEFile_spec (data : list byte) :
  64 <= len data ->
  isValidPEFile data =
    Some (if Z.eq_dec (le16 data 0) 0x5A4D
          then if Z_le_dec (le32 data 0x3C + 4) (len data)
               then le32 data (le32 data 0x3C) =? 0x00004550
               else false
          else false).
Proof.
  intros Hlen. unfold isValidPEFile.
  destruct (len data <? 2) eqn:E; [ lia | clear E ].
  rewrite (slice_in_range data 0 2) by lia.
  change (Z.to_nat (2 - 0)) with 2%nat.
  cbn [mbind option_bind].
  rewrite (Uint16_at data 0) by lia.
  cbn [mbind option_bind].
  unfold DOS_SIGNATURE, PE_SIGNATURE.
  destruct (Z.eq_dec (le16 data 0) 23117) as [Heq|Hne].
  2:{ destruct (le16 data 0 =? 23117) eqn:E; [ lia | reflexivity ]. }
  rewrite Heq. cbn [negb Z.eqb Pos.eqb].
  destruct (len data <? 64) eqn:E; [ lia | clear E ].
  rewrite (slice_in_range data 60 64) by lia.
  change (Z.to_nat (64 - 60)) with 4%nat.
  cbn [mbind option_bind].
  rewrite (Uint32_at data 60) by lia.
  cbn [mbind option_bind].
  pose proof (le32_range data 60) as Hp. pow2.
  destruct (Z_le_dec (le32 data 60 + 4) (len data)) as [Hle|Hgt].
  - destruct (le32 data 60 + 4 <=? len data) eqn:E; [ clear E | lia ].
    rewrite (slice_in_range data (le32 data 60)) by lia.
    replace (Z.to_nat (le32 data 60 + 4 - le32 data 60)) with 4%nat by lia.
    cbn [mbind option_bind].
    rewrite (Uint32_at data (le32 data 60)) by lia. reflexivity.
  - destruct (le32 data 60 + 4 <=? len data) eqn:E; [ lia | reflexivity ].
Qed.

Lemma trace_invalid (rules : list DetectionRule) (data : list byte)
  (keywords : list (list byte)) (contextLen : Z) :
  fails_validation data ->
  ParseWithKeywords_trace rules data keywords contextLen = Some [].
Proof.
  intros Hf. unfold ParseWithKeywords_trace.
  destruct (len data <? 64) eqn:E; [ reflexivity | ].
  rewrite isValidPEFile_spec by lia.
  destruct Hf as [H|[H|H]]; [ lia | | ].
  - destruct (Z.eq_dec (le16 data 0) 23117); [ contradiction | reflexivity ].
  - cbv zeta in H.
    destruct (Z.eq_dec (le16 data 0) 23117); [ | reflexivity ].
    destruct (Z_le_dec (le32 data 60 + 4) (len data)) as [Hle|Hgt];
      [ | reflexivity ].
    destruct H as [H|H]; [ contradiction | ].
    destruct (le32 data (le32 data 60) =? 17744) eqn:E2; [ lia | reflexivity ].
Qed.


(** ** The matcher stays inside the text *)

Lemma DecodeRune_width (s : list byte) :
  s <> [] -> (1 <= snd (DecodeRune s) <= List.length s)%nat.
Proof.
  destruct s as [|b0 [|b1 [|b2 [|b3 t]]]]; [ congruence | | | | ]; intros _;
    unfold DecodeRune;
    repeat match goal with
           | |- context [if ?b then _ else _] => destruct b
           end; simpl; lia.
Qed.

Lemma reaches_here pos rest c (k : K) x :
  k pos rest c = Some x -> reaches pos rest 0 k x.
Proof.
  intros H. exists [], rest, c. simpl. rewrite Nat.add_0_r. auto with lia.
Qed.

Lemma reaches_weaken pos rest n m k x :
  (m <= n)%nat -> reaches pos rest n k x -> reaches pos rest m k x.
Proof.
  intros Hle (w & rest' & c' & -> & Hn & Hk). exists w, rest', c'.
  auto with lia.
Qed.

Lemma reaches_seq pos rest n m (k1 k : K) x :
  reaches pos rest n k1 x ->
  (forall p' r' c', k1 p' r' c' = Some x -> reaches p' r' m k x) ->
  reaches pos rest (n + m) k x.
Proof.
  intros (w & rest' & c' & -> & Hn & Hk) Hnext.
  destruct (Hnext _ _ _ Hk) as (w2 & rest2 & c2 & -> & Hm & Hk2).
  exists (w ++ w2), rest2, c2. rewrite length_app, <- app_assoc.
  split; [ reflexivity | ]. split; [ lia | ].
  rewrite Nat.add_assoc. exact Hk2.
Qed.

Lemma rep_loop_bounds body m (k : K) :
  bounded_body body m ->
  forall n lo pos rest c x,
    rep_loop body k n lo pos rest c = Some x ->
    reaches pos rest (lo * m) k x.
Proof.
  intros Hbody n. induction n as [|n IH]; intros lo pos rest c x H.
  - destruct lo as [|lo]; simpl in H; [ | discriminate ].
    eapply reaches_here; exact H.
  - destruct lo as [|lo]; simpl in H.
    + destruct (body pos rest c _) as [y|] eqn:E.
      * inversion H; subst y. apply Hbody in E.
        apply (reaches_weaken _ _ (m + 0 * m)); [ lia | ].
        eapply reaches_seq; [ exact E | ].
        intros p' r' c' Hk. apply IH in Hk. exact Hk.
      * eapply reaches_here; exact H.
    + apply Hbody in H.
      apply (reaches_weaken _ _ (m + lo * m)); [ simpl; lia | ].
      eapply reaches_seq; [ exact H | ].
      intros p' r' c' Hk. apply IH in Hk. exact Hk.
Qed.

Lemma run_bounds text r :
  forall pos rest c k x,
    run text r pos rest c k = Some x -> reaches pos rest (min_width r) k x.
Proof.
  induction r as [ | neg rs | a IHa b IHb | a IHa b IHb | a IHa lo hi
                 | g a IHa | | | ]; intros pos rest c k x H; simpl in H.
  - eapply reaches_here; exact H.
  - destruct rest as [|b0 t]; [ discriminate | ].
    pose proof (DecodeRune_width (b0 :: t) ltac:(congruence)) as Hw.
    destruct (DecodeRune (b0 :: t)) as [y w]. simpl snd in Hw.
    destruct (xorb neg (in_ranges y rs)); [ | discriminate ].
    exists (firstn w (b0 :: t)), (skipn w (b0 :: t)), c.
    rewrite firstn_skipn, length_firstn.
    replace (Nat.min w (List.length (b0 :: t))) with w by lia.
    simpl min_width. auto with lia.
  - simpl min_width. eapply reaches_seq.
    + eapply IHa; exact H.
    + intros p' r' c' Hk. eapply IHb; exact Hk.
  - simpl min_width. destruct (run text a pos rest c k) as [y|] eqn:E.
    + inversion H; subst y. apply IHa in E.
      eapply reaches_weaken; [ | exact E ]. lia.
    + apply IHb in H. eapply reaches_weaken; [ | exact H ]. lia.
  - simpl min_width. eapply rep_loop_bounds; [ | exact H ].
    intros p' r' c' k' y Hy. eapply IHa; exact Hy.
  - simpl min_width. apply IHa in H.
    destruct H as (w & rest' & c' & -> & Hn & Hk).
    exists w, rest', ((g, (pos, pos + List.length w)%nat) :: c'). auto.
  - destruct (Nat.eqb pos 0); [ | discriminate ].
    eapply reaches_here; exact H.
  - destruct rest; [ | discriminate ]. eapply reaches_here; exact H.
  - destruct (xorb _ _); [ | discriminate ]. eapply reaches_here; exact H.
Qed.

(** A match found by [search] lies inside the text left and spans at least
    [min_width r] bytes. *)
Lemma search_bounds text r fuel :
  forall pos rest st e c,
    search text fuel r pos rest = Some (st, e, c) ->
    (pos <= st /\ st + min_width r <= e /\ e <= pos + List.length rest)%nat
    /\ exists w1 w2 rest', rest = w1 ++ w2 ++ rest'
         /\ st = (pos + List.length w1)%nat /\ e = (st + List.length w2)%nat.
Proof.
  induction fuel as [|fuel IH]; intros pos rest st e c H; simpl in H.
  all: destruct (run text r pos rest [] accept) as [[e' c']|] eqn:E.
  all: try (inversion H; subst; clear H; apply run_bounds in E;
            destruct E as (w & rest' & c2 & -> & Hn & Hk);
            unfold accept in Hk; inversion Hk; subst;
            rewrite length_app; split; [ lia | ];
            exists [], w, rest'; simpl; auto with lia).
  - discriminate.
  - destruct rest as [|b0 t]; [ discriminate | ].
    pose proof (DecodeRune_width (b0 :: t) ltac:(congruence)) as Hw.
    apply IH in H. destruct H as [Hb (w1 & w2 & rest' & Hsplit & Hst & He)].
    set (w := snd (DecodeRune (b0 :: t))) in *.
    assert (Hlen : List.length (skipn w (b0 :: t))
                   = (List.length (b0 :: t) - w)%nat) by apply length_skipn.
    split; [ lia | ].
    exists (firstn w (b0 :: t) ++ w1), w2, rest'.
    rewrite <- app_assoc, <- Hsplit, firstn_skipn, length_app, length_firstn.
    split; [ reflexivity | ]. lia.
Qed.

Lemma allMatches_bounds text r fuel :
  forall pos rest prev N,
    (pos + List.length rest = N)%nat ->
    Forall (fun m => (fst (fst m) + min_width r <= snd (fst m)
                      /\ snd (fst m) <= N)%nat)
           (allMatches text fuel r pos rest prev).
Proof.
  induction fuel as [|fuel IH]; intros pos rest prev N HN; simpl.
  - constructor.
  - destruct (search text (List.length rest) r pos rest) as [[[st e] c]|] eqn:E;
      [ | constructor ].
    apply search_bounds in E. destruct E as [Hb _].
    assert (Hhere : (fst (fst (st, e, c)) + min_width r <= snd (fst (st, e, c))
                     /\ snd (fst (st, e, c)) <= N)%nat) by (simpl; lia).
    destruct (Nat.eqb e pos) eqn:Ee.
    + assert (Htl : Forall (fun m => (fst (fst m) + min_width r <= snd (fst m)
                                      /\ snd (fst m) <= N)%nat)
                      match rest with
                      | [] => []
                      | _ :: _ =>
                          allMatches text fuel r
                            (pos + snd (DecodeRune rest))%nat
                            (skipn (snd (DecodeRune rest)) rest) (Some e)
                      end).
      { destruct rest as [|b0 t]; [ constructor | ].
        pose proof (DecodeRune_width (b0 :: t) ltac:(congruence)) as Hw.
        apply IH. rewrite length_skipn. lia. }
      destruct prev as [pe|]; [ destruct (negb (Nat.eqb st pe)) | ];
        try (constructor; assumption); assumption.
    + constructor; [ exact Hhere | ].
      apply IH. rewrite length_skipn. lia.
Qed.

Lemma FindAllIndex_bounds (r : re) (s : list byte) :
  Forall (fun m => (fst m + min_width r <= snd m
                    /\ snd m <= List.length s)%nat)
         (FindAllIndex r s).
Proof.
  unfold FindAllIndex. apply List.Forall_map.
  pose proof (allMatches_bounds s r (S (List.length s)) 0%nat s None
                (List.length s) eq_refl) as H.
  revert H. apply List.Forall_impl. intros [[st e] c]. simpl. tauto.
Qed.

(** ** [strings.Index] *)

Lemma has_prefix_length (s p : list byte) :
  has_prefix s p = true -> (List.length p <= List.length s)%nat.
Proof.
  revert s. induction p as [|y p IH]; intros [|x s] H; simpl in *;
    try lia; try discriminate.
  apply andb_true_iff in H. destruct H as [_ H]. apply IH in H. lia.
Qed.

Lemma Index_from_nil (i : Z) (substr : list byte) :
  Index_from i [] substr = if has_prefix [] substr then i else -1.
Proof. reflexivity. Qed.

Lemma Index_from_cons (i : Z) (x : byte) (s substr : list byte) :
  Index_from i (x :: s) substr =
    if has_prefix (x :: s) substr then i else Index_from (i + 1) s substr.
Proof. reflexivity. Qed.

Lemma Index_from_bounds (s substr : list byte) :
  forall i,
    Index_from i s substr = -1
    \/ (i <= Index_from i s substr
        /\ Index_from i s substr - i + len substr <= len s).
Proof.
  induction s as [|x s IH]; intros i.
  - rewrite Index_from_nil.
    destruct (has_prefix [] substr) eqn:E; [ right | left; reflexivity ].
    apply has_prefix_length in E. unfold len. simpl in *. lia.
  - rewrite Index_from_cons. destruct (has_prefix (x :: s) substr) eqn:E.
    + right. apply has_prefix_length in E. unfold len. simpl in *. lia.
    + destruct (IH (i + 1)) as [H|H]; [ left; exact H | right ].
      unfold len in *. simpl List.length. lia.
Qed.

Lemma findStringOffset_ok (data str : list byte) :
  0 < len data -> offset_ok data (findStringOffset data str).
Proof.
  intros Hpos. unfold offset_ok, findStringOffset, Index.
  destruct (Index_from_bounds data str 0) as [H|H]; [ left; exact H | ].
  destruct (Z.eq_dec (len str) 0) as [Hz|Hnz].
  - destruct data as [|x data]; [ unfold len in Hpos; simpl in Hpos; lia | ].
    destruct str; [ | unfold len in Hz; simpl in Hz; lia ].
    simpl. right. lia.
  - right. pose proof (len_nonneg str). lia.
Qed.

(** ** The option-monad loops *)

Lemma concatMapM_Forall {A B} (P : B -> Prop) (f : A -> option (list B)) :
  forall l ys,
    (forall x zs, In x l -> f x = Some zs -> Forall P zs) ->
    concatMapM f l = Some ys -> Forall P ys.
Proof.
  induction l as [|x l IH]; intros ys Hf H; simpl in H.
  - inversion H. constructor.
  - destruct (f x) as [zs|] eqn:Ex; [ | discriminate ].
    cbn [mbind option_bind] in H.
    destruct (concatMapM f l) as [ws|] eqn:El; [ | discriminate ].
    cbn [mbind option_bind] in H. inversion H; subst ys.
    apply Forall_app. split.
    + apply (Hf x); [ left; reflexivity | exact Ex ].
    + apply IH; [ | reflexivity ]. intros x' zs' Hin. apply Hf. right. exact Hin.
Qed.

Lemma foldM_inv {A S} (R : S -> S -> Prop) (f : S -> A -> option S) :
  (forall s, R s s) ->
  (forall s1 s2 s3, R s1 s2 -> R s2 s3 -> R s1 s3) ->
  forall l s s',
    (forall x t t', In x l -> f t x = Some t' -> R t t') ->
    foldM f s l = Some s' -> R s s'.
Proof.
  intros Hrefl Htrans. induction l as [|x l IH]; intros s s' Hf H; simpl in H.
  - inversion H. apply Hrefl.
  - destruct (f s x) as [t|] eqn:Ex; [ | discriminate ].
    cbn [mbind option_bind] in H.
    apply Htrans with t.
    + apply (Hf x); [ left; reflexivity | exact Ex ].
    + apply IH; [ | exact H ]. intros x' u u' Hin. apply Hf. right. exact Hin.
Qed.

(** ** The three passes: dedup invariant and provenance of the lines *)

Lemma grows_refl Q st : grows Q st st.
Proof.
  split; [ auto | ]. exists []. rewrite app_nil_r. auto.
Qed.

Lemma grows_trans Q s1 s2 s3 : grows Q s1 s2 -> grows Q s2 s3 -> grows Q s1 s3.
Proof.
  intros [H1 (l1 & E1 & F1)] [H2 (l2 & E2 & F2)].
  split; [ auto | ]. exists (l1 ++ l2).
  rewrite E2, E1, app_assoc. split; [ reflexivity | ].
  apply Forall_app. auto.
Qed.

Lemma grows_impl (Q Q' : Emitted -> Prop) st st' :
  (forall e, Q e -> Q' e) -> grows Q st st' -> grows Q' st st'.
Proof.
  intros HQ [H (l & E & F)]. split; [ exact H | ].
  exists l. split; [ exact E | ]. revert F. apply List.Forall_impl. exact HQ.
Qed.

Lemma wf_append (seen : gset Z) (lines : list Emitted) (e : Emitted) :
  wf (seen, lines) -> off e ∉ seen ->
  wf ({[ off e ]} ∪ seen, lines ++ [e]).
Proof.
  intros [Hnd Hin] Hfresh. split; simpl in *.
  - rewrite map_app. apply NoDup_app. split; [ exact Hnd | ].
    split; [ | apply NoDup_singleton ].
    intros o Ho Ho'. apply list_elem_of_In in Ho.
    apply in_map_iff in Ho. destruct Ho as (e' & <- & He').
    simpl in Ho'. apply list_elem_of_singleton in Ho'.
    apply Hfresh. rewrite <- Ho'. apply Hin. exact He'.
  - intros e' He'. apply in_app_iff in He'. apply elem_of_union.
    destruct He' as [He'|[<-|[]]]; [ right; apply Hin; exact He' | left ].
    apply elem_of_singleton. reflexivity.
Qed.

Lemma emitResult_grows (mt : list byte) (contextLen : Z)
  (st st' : PState) (res : BinaryMatchResult) :
  emitResult mt contextLen st res = Some st' ->
  grows (fun e => matchType e = mt /\ result e = res
                  /\ formatted contextLen e) st st'.
Proof.
  unfold emitResult. destruct st as [seen lines].
  destruct (bool_decide (Offset res ∈ seen)) eqn:E.
  - intros H. inversion H. apply grows_refl.
  - apply bool_decide_eq_false in E.
    destruct (formatBinaryResult res mt contextLen) as [line|] eqn:Ef;
      [ | discriminate ].
    cbn [mbind option_bind]. intros H. inversion H; subst st'. clear H.
    split.
    + intros Hwf.
      apply (wf_append seen lines
               {| matchType := mt; result := res; lineOutput := line |});
        assumption.
    + eexists. split; [ reflexivity | ]. constructor; [ | constructor ].
      simpl. auto.
Qed.

Lemma emitResults_grows (mt : list byte) (contextLen : Z)
  (results : list BinaryMatchResult) (st st' : PState) :
  foldM (emitResult mt contextLen) st results = Some st' ->
  grows (fun e => matchType e = mt /\ In (result e) results
                  /\ formatted contextLen e) st st'.
Proof.
  apply (foldM_inv (grows _)); [ apply grows_refl | apply grows_trans | ].
  intros res t t' Hin H. apply emitResult_grows in H.
  revert H. apply grows_impl. intros e (H1 & H2 & H3). subst. auto.
Qed.

Lemma rulePass_grows rules data contextLen allStrings st st' :
  rulePass rules data contextLen allStrings st = Some st' ->
  grows (from_rules rules data contextLen allStrings) st st'.
Proof.
  unfold rulePass.
  apply (foldM_inv (grows _)); [ apply grows_refl | apply grows_trans | ].
  intros str t t' Hin H.
  destruct (checkStringWithRulesEx rules str data contextLen)
    as [results|] eqn:E; [ | discriminate ].
  cbn [mbind option_bind] in H. apply emitResults_grows in H.
  revert H. apply grows_impl. intros e (H1 & H2 & H3).
  split; [ exact H1 | ]. split; [ exact H3 | ].
  exists str, results. auto.
Qed.

Lemma keywordLoop_grows data contextLen allStrings str all_keywords :
  In str allStrings ->
  forall keywords st st',
    (forall k, In k keywords -> In k all_keywords) ->
    keywordLoop data str contextLen keywords st = Some st' ->
    grows (from_keywords data contextLen all_keywords allStrings) st st'.
Proof.
  intros Hstr. induction keywords as [|keyword keywords IH];
    intros st st' Hsub H; simpl in H.
  - inversion H. apply grows_refl.
  - assert (Hsub' : forall k, In k keywords -> In k all_keywords)
      by (intros k Hk; apply Hsub; right; exact Hk).
    destruct (Contains str keyword) eqn:Ec; [ | apply IH; assumption ].
    destruct (bool_decide (findStringOffset data str ∈ st.1)) eqn:Es;
      [ apply IH; assumption | ].
    apply bool_decide_eq_false in Es.
    destruct (getStringContext data (findStringOffset data str) contextLen)
      as [context|] eqn:Eg; [ | discriminate ].
    cbn [mbind option_bind] in H.
    destruct (formatBinaryResult _ mt_keyword contextLen) as [line|] eqn:Ef;
      [ | discriminate ].
    cbn [mbind option_bind] in H. inversion H; subst st'. clear H.
    destruct st as [seen lines]. split.
    + intros Hwf. simpl in *.
      match goal with
      | |- wf (_, _ ++ [?e]) => apply (wf_append seen lines e)
      end; assumption.
    + eexists. split; [ reflexivity | ]. constructor; [ | constructor ].
      split; [ reflexivity | ]. split; [ exact Ef | ].
      exists str, keyword. simpl.
      repeat split; auto. apply Hsub. left. reflexivity.
Qed.

Lemma keywordPass_grows data contextLen keywords allStrings st st' :
  keywordPass data contextLen keywords allStrings st = Some st' ->
  grows (from_keywords data contextLen keywords allStrings) st st'.
Proof.
  unfold keywordPass. destruct (0 <? len keywords).
  - apply (foldM_inv (grows _)); [ apply grows_refl | apply grows_trans | ].
    intros str t t' Hin H.
    eapply keywordLoop_grows; [ exact Hin | | exact H ]. auto.
  - intros H. inversion H. apply grows_refl.
Qed.

Lemma base64Pass_grows rules data contextLen st st' :
  base64Pass rules data contextLen st = Some st' ->
  grows (from_base64 rules data contextLen) st st'.
Proof.
  unfold base64Pass.
  destruct (checkBase64EncodedEx rules data contextLen) as [results|] eqn:E;
    [ | discriminate ].
  cbn [mbind option_bind]. intros H. apply emitResults_grows in H.
  revert H. apply grows_impl. intros e (H1 & H2 & H3).
  split; [ exact H1 | ]. split; [ exact H3 | ].
  exists results. auto.
Qed.

(** The shape of every trace of the engine. *)
Lemma trace_structure rules data keywords contextLen t :
  ParseWithKeywords_trace rules data keywords contextLen = Some t ->
  NoDup (map off t)
  /\ (t = [] \/ 64 <= len data)
  /\ exists l1 l2 l3,
       t = l1 ++ l2 ++ l3
       /\ Forall (from_rules rules data contextLen
                             (extractMeaningfulStrings data)) l1
       /\ Forall (from_keywords data contextLen keywords
                                (extractMeaningfulStrings data)) l2
       /\ Forall (from_base64 rules data contextLen) l3.
Proof.
  unfold ParseWithKeywords_trace. intros H.
  destruct (len data <? 64) eqn:Elen.
  { cbn [mbind option_bind negb] in H. inversion H.
    split; [ constructor | ]. split; [ left; reflexivity | ].
    exists [], [], []. repeat split; constructor. }
  destruct (isValidPEFile data) as [[|]|]; cbn [mbind option_bind negb] in H;
    [ | | discriminate ].
  2:{ inversion H. split; [ constructor | ]. split; [ left; reflexivity | ].
      exists [], [], []. repeat split; constructor. }
  destruct (rulePass _ _ _ _ _) as [st1|] eqn:E1; [ | discriminate ].
  cbn [mbind option_bind] in H.
  destruct (keywordPass _ _ _ _ _) as [st2|] eqn:E2; [ | discriminate ].
  cbn [mbind option_bind] in H.
  destruct (base64Pass _ _ _ _) as [st3|] eqn:E3; [ | discriminate ].
  cbn [mbind option_bind] in H. inversion H; subst t. clear H.
  apply rulePass_grows in E1. apply keywordPass_grows in E2.
  apply base64Pass_grows in E3.
  destruct E1 as [W1 (l1 & L1 & F1)]. destruct E2 as [W2 (l2 & L2 & F2)].
  destruct E3 as [W3 (l3 & L3 & F3)]. simpl in L1.
  assert (W0 : wf (∅, [])).
  { split; simpl; [ constructor | intros e [] ]. }
  split; [ apply W3, W2, W1, W0 | ].
  split; [ right; lia | ].
  exists l1, l2, l3. rewrite L3, L2, L1, app_assoc. auto.
Qed.

Lemma concatMapM_In {A B} (f : A -> option (list B)) :
  forall l ys y,
    concatMapM f l = Some ys -> In y ys ->
    exists x zs, In x l /\ f x = Some zs /\ In y zs.
Proof.
  induction l as [|x l IH]; intros ys y H Hy; simpl in H.
  - inversion H; subst. destruct Hy.
  - destruct (f x) as [zs|] eqn:Ex; [ | discriminate ].
    cbn [mbind option_bind] in H.
    destruct (concatMapM f l) as [ws|] eqn:El; [ | discriminate ].
    cbn [mbind option_bind] in H. inversion H; subst ys.
    apply in_app_iff in Hy. destruct Hy as [Hy|Hy].
    + exists x, zs. auto with datatypes.
    + destruct (IH ws y eq_refl Hy) as (x' & zs' & Hin & Hf & Hz).
      exists x', zs'. auto with datatypes.
Qed.

(** ** Offsets of the rule pass and findings of the base64 pass *)

Lemma checkMatchEx_offset rule str data contextLen m results :
  0 < len data ->
  checkMatchEx rule str data contextLen m = Some results ->
  Forall (fun r => offset_ok data (Offset r)) results.
Proof.
  intros Hpos. unfold checkMatchEx.
  destruct (1 <? len m); [ | intros H; inversion H; constructor ].
  set (matchedValue := if 2 <? len m then sm m 2 else sm m 1).
  destruct (isValidCredential matchedValue);
    [ | intros H; inversion H; constructor ].
  set (o1 := findStringOffset data (sm m 0)).
  set (o2 := if o1 =? -1 then findStringOffset data matchedValue else o1).
  set (o3 := if o2 =? -1 then findStringOffset data str else o2).
  assert (H3 : offset_ok data o3).
  { subst o3 o2 o1.
    repeat match goal with
           | |- context [if ?b then _ else _] => destruct b
           end; apply findStringOffset_ok; exact Hpos. }
  destruct ((o3 =? -1) && (10 <? len matchedValue)).
  - destruct (slice_to matchedValue 10) as [pre|]; [ | discriminate ].
    cbn [mbind option_bind].
    destruct (getStringContext data _ contextLen) as [context|];
      [ | discriminate ].
    cbn [mbind option_bind].
    match goal with
    | |- context [if ?b then _ else _] => destruct b
    end.
    + destruct (truncateForContext str contextLen); [ | discriminate ].
      cbn [mbind option_bind]. intros H. inversion H.
      constructor; [ | constructor ]. simpl.
      apply findStringOffset_ok. exact Hpos.
    + cbn [mbind option_bind]. intros H. inversion H.
      constructor; [ | constructor ]. simpl.
      apply findStringOffset_ok. exact Hpos.
  - cbn [mbind option_bind].
    destruct (getStringContext data o3 contextLen) as [context|];
      [ | discriminate ].
    cbn [mbind option_bind].
    match goal with
    | |- context [if ?b then _ else _] => destruct b
    end.
    + destruct (truncateForContext str contextLen); [ | discriminate ].
      cbn [mbind option_bind]. intros H. inversion H.
      constructor; [ | constructor ]. exact H3.
    + cbn [mbind option_bind]. intros H. inversion H.
      constructor; [ | constructor ]. exact H3.
Qed.

Lemma checkStringWithRulesEx_offset rules str data contextLen results :
  0 < len data ->
  checkStringWithRulesEx rules str data contextLen = Some results ->
  Forall (fun r => offset_ok data (Offset r)) results.
Proof.
  intros Hpos. unfold checkStringWithRulesEx. apply concatMapM_Forall.
  intros rule zs _. apply concatMapM_Forall.
  intros m ws _. apply checkMatchEx_offset. exact Hpos.
Qed.

Lemma sm_In (m : list (list byte)) (i : nat) :
  Z.of_nat i < len m -> In (sm m i) m.
Proof.
  intros H. unfold sm. apply nth_In. unfold len in H. lia.
Qed.

Lemma checkBase64MatchEx_finding rule data base64Str decoded start contextLen
  m results r :
  checkBase64MatchEx rule data base64Str decoded start contextLen m
    = Some results ->
  In r results ->
  RuleName r = Name rule ++ base64_suffix
  /\ ResRiskLevel r = RiskLevel rule
  /\ Offset r = start
  /\ isValidCredential (MatchedValue r) = true
  /\ In (MatchedValue r) m.
Proof.
  unfold checkBase64MatchEx.
  destruct (len m <? 2) eqn:E2; [ intros H; inversion H; subst; intros [] | ].
  set (matchedValue := if 2 <? len m then sm m 2 else sm m 1).
  assert (Hin : In matchedValue m).
  { subst matchedValue. destruct (2 <? len m) eqn:E3; apply sm_In; simpl; lia. }
  destruct (isValidCredential matchedValue) eqn:Ev;
    [ | intros H; inversion H; subst; intros [] ].
  cbn [negb].
  destruct (getStringContext data start contextLen) as [context|];
    [ | discriminate ].
  cbn [mbind option_bind].
  match goal with
  | |- context [if ?b then _ else _] => destruct b
  end.
  - destruct (truncateForContext base64Str _); [ | discriminate ].
    cbn [mbind option_bind].
    destruct (truncateForContext decoded _); [ | discriminate ].
    cbn [mbind option_bind]. intros H. inversion H; subst.
    intros [<-|[]]. simpl. auto.
  - cbn [mbind option_bind]. intros H. inversion H; subst.
    intros [<-|[]]. simpl. auto.
Qed.

Lemma checkBase64EncodedEx_finding rules data contextLen results r :
  checkBase64EncodedEx rules data contextLen = Some results ->
  In r results -> base64_finding rules data r.
Proof.
  unfold checkBase64EncodedEx. intros H Hr.
  destruct (concatMapM_In _ _ _ _ H Hr) as ([start end_] & zs & Hm & Hf & Hz).
  unfold checkBase64RunEx in Hf.
  destruct (DecodeString (sub data start end_)) as [decoded|] eqn:Ed;
    [ | inversion Hf; subst; destruct Hz ].
  destruct (isText decoded) eqn:Et; cbn [negb] in Hf;
    [ | inversion Hf; subst; destruct Hz ].
  destruct (concatMapM_In _ _ _ _ Hf Hz) as (rule & ws & Hrule & Hg & Hw).
  destruct (concatMapM_In _ _ _ _ Hg Hw) as (m & vs & Hmm & Hc & Hv).
  destruct (checkBase64MatchEx_finding _ _ _ _ _ _ _ _ _ Hc Hv)
    as (N1 & N2 & N3 & N4 & N5).
  exists rule, start, end_, decoded. repeat split; auto.
  exists m. auto.
Qed.

Lemma base64_offset_ok rules data r :
  base64_finding rules data r -> 0 <= Offset r < len data.
Proof.
  intros (rule & start & end_ & decoded & _ & Hm & _ & _ & _ & _ & Ho & _).
  pose proof (FindAllIndex_bounds base64Pattern data) as Hb.
  rewrite List.Forall_forall in Hb. specialize (Hb _ Hm). simpl in Hb.
  change (min_width base64Pattern) with 40%nat in Hb.
  unfold len. lia.
Qed.

(** ** Shape of the trace *)

Lemma mt_rule_not_base64 : mt_rule <> mt_base64.
Proof. vm_compute. discriminate. Qed.

Lemma mt_keyword_not_base64 : mt_keyword <> mt_base64.
Proof. vm_compute. discriminate. Qed.

(** Every line of a trace has a resolved offset inside the buffer or the
    sentinel. *)
Lemma trace_offsets rules data keywords contextLen t :
  ParseWithKeywords_trace rules data keywords contextLen = Some t ->
  Forall (fun e => offset_ok data (off e)) t.
Proof.
  intros H. apply trace_structure in H.
  destruct H as (_ & Hor & l1 & l2 & l3 & Ht & F1 & F2 & F3).
  destruct Hor as [->|Hlen]; [ constructor | subst t ].
  assert (Hpos : 0 < len data) by lia.
  apply Forall_app. split; [ | apply Forall_app; split ].
  - revert F1. apply List.Forall_impl.
    intros e (_ & _ & str & results & _ & Hc & Hin).
    apply checkStringWithRulesEx_offset in Hc; [ | exact Hpos ].
    rewrite List.Forall_forall in Hc. apply Hc. exact Hin.
  - revert F2. apply List.Forall_impl.
    intros e (_ & _ & str & kw & _ & _ & _ & _ & Ho & _).
    unfold off. rewrite Ho. apply findStringOffset_ok. exact Hpos.
  - revert F3. apply List.Forall_impl.
    intros e (_ & _ & results & Hc & Hin). right.
    eapply base64_offset_ok. eapply checkBase64EncodedEx_finding; eassumption.
Qed.

Lemma filter_map_length {A B} (p : B -> bool) (g : A -> B) (l : list A) :
  List.length (List.filter (fun x => p (g x)) l)
  = List.length (List.filter p (map g l)).
Proof.
  induction l as [|x l IH]; [ reflexivity | ]. cbn [List.filter map].
  destruct (p (g x)); cbn [List.length]; rewrite IH; reflexivity.
Qed.

Lemma NoDup_count_le_1 (x : Z) (l : list Z) :
  NoDup l -> (List.length (List.filter (fun y => (y =? x)%Z) l) <= 1)%nat.
Proof.
  induction 1 as [|y l Hy Hnd IH]; cbn [List.filter]; [ simpl; lia | ].
  destruct (Z.eqb_spec y x) as [->|Hne]; [ | exact IH ].
  assert (Hz : List.filter (fun y => y =? x) l = []).
  { clear -Hy. induction l as [|z l IH]; [ reflexivity | cbn [List.filter] ].
    destruct (Z.eqb_spec z x) as [->|Hne].
    - exfalso. apply Hy. constructor.
    - apply IH. intros Hin. apply Hy. constructor. exact Hin. }
  rewrite Hz. simpl. lia.
Qed.

Lemma lookup_map {A B} (f : A -> B) (l : list A) (i : nat) (x : A) :
  l !! i = Some x -> map f l !! i = Some (f x).
Proof.
  revert i. induction l as [|y l IH]; intros [|i] H; simpl in *;
    try discriminate.
  - inversion H. reflexivity.
  - apply IH. exact H.
Qed.

(** ** Likely garbage *)

Lemma byte_eqb_eq (a b : byte) : byte_eqb a b = true <-> a = b.
Proof.
  unfold byte_eqb. split; [ apply byte_dec_bl | apply byte_dec_lb ].
Qed.

Lemma hasRepeatingPattern_spec (str : list byte) :
  hasRepeatingPattern str = true
  <-> 20 <= len str
      /\ exists i, (i + 10 < List.length str)%nat /\ run4_at str i.
Proof.
  unfold hasRepeatingPattern. destruct (len str <? 20) eqn:E.
  - split; [ discriminate | intros [H _]; lia ].
  - rewrite existsb_exists. split.
    + intros (i & Hin & Hb). apply in_seq in Hin.
      apply andb_true_iff in Hb. destruct Hb as [Hb H3].
      apply andb_true_iff in Hb. destruct Hb as [H1 H2].
      apply byte_eqb_eq in H1, H2, H3.
      split; [ lia | ]. exists i. unfold run4_at, len in *.
      repeat split; auto; lia.
    + intros (_ & i & Hi & _ & H1 & H2 & H3). exists i. split.
      * apply in_seq. unfold len. lia.
      * rewrite !andb_true_iff, !byte_eqb_eq. auto.
Qed.

Lemma special_rune_spec_outside (ch : Z) :
  ch <> 13 -> special_rune ch = spec_outside ch.
Proof.
  intros Hne. unfold special_rune, spec_outside, between.
  destruct (Z.ltb_spec ch 32), (Z.ltb_spec 126 ch), (Z.leb_spec 32 ch),
    (Z.leb_spec ch 126), (Z.eqb_spec ch 32), (Z.eqb_spec ch 9),
    (Z.eqb_spec ch 10), (Z.eqb_spec ch 13); simpl; try reflexivity; lia.
Qed.

(** ** No panic for an admissible context length *)

Lemma wrap64_small (z : Z) : - 2 ^ 63 <= z < 2 ^ 63 -> wrap64 z = z.
Proof.
  intros H. unfold wrap64. rewrite Z.mod_small; lia.
Qed.

Lemma getStringContext_total (data : list byte) (offset contextLen : Z) :
  admissible data contextLen -> offset_ok data offset ->
  exists context,
    getStringContext data offset contextLen = Some context
    /\ (offset = -1 -> context = unlocatable)
    /\ (offset <> -1 ->
        Forall (fun b => printable b = true) context
        /\ len context <= 2 * contextLen).
Proof.
  intros [Hc Hd] Ho. unfold getStringContext.
  destruct (Z.eqb_spec offset (-1)) as [->|Hne].
  - exists unlocatable. split; [ reflexivity | ]. split; [ auto | congruence ].
  - destruct Ho as [Ho|Ho]; [ contradiction | ].
    assert (H62 : 2 ^ 62 * 2 = 2 ^ 63) by reflexivity.
    rewrite !wrap64_small by lia.
    rewrite slice_in_range by lia. cbn [mbind option_bind].
    eexists. split; [ reflexivity | ]. split; [ contradiction | ].
    intros _. split.
    + apply List.Forall_map. apply List.Forall_forall. intros b _.
      destruct (printable b) eqn:E; [ exact E | reflexivity ].
    + unfold len. rewrite length_map, length_firstn. lia.
Qed.

Lemma truncateForContext_total (s : list byte) (maxLen : Z) :
  0 <= maxLen ->
  exists r,
    truncateForContext s maxLen = Some r
    /\ len r <= maxLen + 3
    /\ (Forall (fun b => printable b = true) s ->
        Forall (fun b => printable b = true) r).
Proof.
  intros Hm. unfold truncateForContext.
  destruct (Z.leb_spec (len s) maxLen) as [Hle|Hgt].
  - exists s. split; [ reflexivity | ]. split; [ lia | auto ].
  - assert (Hh : 0 <= Z.quot maxLen 2 /\ 2 * Z.quot maxLen 2 <= maxLen).
    { pose proof (Z.quot_pos maxLen 2 Hm ltac:(lia)).
      pose proof (Z.mul_quot_le maxLen 2 Hm ltac:(lia)). lia. }
    unfold slice_to, slice_from.
    rewrite !slice_in_range by lia. cbn [mbind option_bind].
    eexists. split; [ reflexivity | ]. split.
    + unfold len in *. rewrite !length_app, !length_firstn. simpl. lia.
    + intros Hp. apply Forall_app. split; [ apply Forall_take; exact Hp | ].
      apply Forall_app. split.
      * repeat constructor.
      * apply Forall_take. apply Forall_drop. exact Hp.
Qed.

Lemma formatBinaryResult_total (res : BinaryMatchResult)
  (mt : list byte) (contextLen : Z) :
  0 <= contextLen -> is_Some (formatBinaryResult res mt contextLen).
Proof.
  intros Hc. unfold formatBinaryResult.
  destruct (Z.ltb_spec contextLen (len (Context res))) as [Hlt|Hge].
  - unfold slice_to. rewrite slice_in_range by lia.
    cbn [mbind option_bind]. eexists. reflexivity.
  - cbn [mbind option_bind]. eexists. reflexivity.
Qed.

Lemma concatMapM_total {A B} (f : A -> option (list B)) (l : list A) :
  (forall x, In x l -> is_Some (f x)) -> is_Some (concatMapM f l).
Proof.
  induction l as [|x l IH]; intros Hf; simpl; [ eexists; reflexivity | ].
  destruct (Hf x (or_introl eq_refl)) as [ys ->]. cbn [mbind option_bind].
  destruct IH as [zs ->]; [ intros y Hy; apply Hf; right; exact Hy | ].
  cbn [mbind option_bind]. eexists. reflexivity.
Qed.

Lemma foldM_total {A S} (f : S -> A -> option S) (l : list A) :
  (forall s x, In x l -> is_Some (f s x)) ->
  forall s, is_Some (foldM f s l).
Proof.
  induction l as [|x l IH]; intros Hf s; simpl; [ eexists; reflexivity | ].
  destruct (Hf s x (or_introl eq_refl)) as [s' ->]. cbn [mbind option_bind].
  apply IH. intros t y Hy. apply Hf. right. exact Hy.
Qed.

Lemma checkMatchEx_total rule str data contextLen m :
  admissible data contextLen -> 0 < len data ->
  is_Some (checkMatchEx rule str data contextLen m).
Proof.
  intros Ha Hpos. pose proof Ha as [Hc _]. unfold checkMatchEx.
  destruct (1 <? len m); [ | eexists; reflexivity ].
  set (matchedValue := if 2 <? len m then sm m 2 else sm m 1).
  destruct (isValidCredential matchedValue); [ | eexists; reflexivity ].
  set (o1 := findStringOffset data (sm m 0)).
  set (o2 := if o1 =? -1 then findStringOffset data matchedValue else o1).
  set (o3 := if o2 =? -1 then findStringOffset data str else o2).
  assert (H3 : offset_ok data o3).
  { subst o3 o2 o1.
    repeat match goal with
           | |- context [if ?b then _ else _] => destruct b
           end; apply findStringOffset_ok; exact Hpos. }
  assert (Hrest : forall o, offset_ok data o ->
            is_Some (context ← getStringContext data o contextLen;
                     context ← (if (o =? -1) && bytes_eqb context unlocatable
                                then truncateForContext str contextLen
                                else Some context);
                     Some [ {| RuleName := Name rule;
                               RuleDesc := Description rule;
                               ResRiskLevel := RiskLevel rule;
                               MatchedValue := matchedValue;
                               Offset := o;
                               Context := context |} ])).
  { intros o Ho.
    destruct (getStringContext_total data o contextLen Ha Ho) as (cx & -> & _).
    cbn [mbind option_bind].
    destruct ((o =? -1) && bytes_eqb cx unlocatable).
    - destruct (truncateForContext_total str contextLen) as (r & -> & _);
        [ lia | ].
      cbn [mbind option_bind]. eexists. reflexivity.
    - cbn [mbind option_bind]. eexists. reflexivity. }
  destruct ((o3 =? -1) && (10 <? len matchedValue)) eqn:E.
  - apply andb_true_iff in E. destruct E as [_ E].
    apply Z.ltb_lt in E. unfold slice_to.
    rewrite slice_in_range by lia. cbn [mbind option_bind].
    apply Hrest. apply findStringOffset_ok. exact Hpos.
  - cbn [mbind option_bind]. apply Hrest. exact H3.
Qed.

Lemma checkStringWithRulesEx_total rules str data contextLen :
  admissible data contextLen -> 0 < len data ->
  is_Some (checkStringWithRulesEx rules str data contextLen).
Proof.
  intros Ha Hpos. unfold checkStringWithRulesEx.
  apply concatMapM_total. intros rule _.
  apply concatMapM_total. intros m _.
  apply checkMatchEx_total; assumption.
Qed.

Lemma checkBase64MatchEx_total rule data base64Str decoded start contextLen m :
  admissible data contextLen -> 0 <= start < len data ->
  is_Some (checkBase64MatchEx rule data base64Str decoded start contextLen m).
Proof.
  intros Ha Hs. pose proof Ha as [Hc _]. unfold checkBase64MatchEx.
  destruct (len m <? 2); [ eexists; reflexivity | ].
  destruct (negb (isValidCredential _)); [ eexists; reflexivity | ].
  destruct (getStringContext_total data start contextLen Ha) as (cx & -> & _);
    [ right; exact Hs | ].
  cbn [mbind option_bind].
  assert (Hq : 0 <= Z.quot contextLen 2) by (apply Z.quot_pos; lia).
  destruct (bytes_eqb cx unlocatable).
  - destruct (truncateForContext_total base64Str (Z.quot contextLen 2) Hq)
      as (r1 & -> & _).
    destruct (truncateForContext_total decoded (Z.quot contextLen 2) Hq)
      as (r2 & -> & _).
    cbn [mbind option_bind]. eexists. reflexivity.
  - cbn [mbind option_bind]. eexists. reflexivity.
Qed.

Lemma checkBase64EncodedEx_total rules data contextLen :
  admissible data contextLen ->
  is_Some (checkBase64EncodedEx rules data contextLen).
Proof.
  intros Ha. unfold checkBase64EncodedEx.
  apply concatMapM_total. intros [start end_] Hm.
  pose proof (FindAllIndex_bounds base64Pattern data) as Hb.
  rewrite List.Forall_forall in Hb. specialize (Hb _ Hm). simpl in Hb.
  change (min_width base64Pattern) with 40%nat in Hb.
  unfold checkBase64RunEx.
  destruct (DecodeString _) as [decoded|]; [ | eexists; reflexivity ].
  destruct (negb (isText decoded)); [ eexists; reflexivity | ].
  apply concatMapM_total. intros rule _.
  apply concatMapM_total. intros m _.
  apply checkBase64MatchEx_total; [ exact Ha | unfold len; lia ].
Qed.

Lemma emitResult_total mt contextLen st res :
  0 <= contextLen -> is_Some (emitResult mt contextLen st res).
Proof.
  intros Hc. unfold emitResult. destruct st as [seen lines].
  destruct (bool_decide _); [ eexists; reflexivity | ].
  destruct (formatBinaryResult_total res mt contextLen Hc) as [line ->].
  cbn [mbind option_bind]. eexists. reflexivity.
Qed.

Lemma keywordLoop_total data str contextLen keywords :
  admissible data contextLen -> 0 < len data ->
  forall st, is_Some (keywordLoop data str contextLen keywords st).
Proof.
  intros Ha Hpos. pose proof Ha as [Hc _].
  induction keywords as [|keyword keywords IH]; intros st; simpl;
    [ eexists; reflexivity | ].
  destruct (Contains str keyword); [ | apply IH ].
  destruct (bool_decide _); [ apply IH | ].
  destruct (getStringContext_total data (findStringOffset data str)
              contextLen Ha (findStringOffset_ok _ _ Hpos)) as (cx & -> & _).
  cbn [mbind option_bind].
  match goal with
  | |- context [formatBinaryResult ?r ?m ?c] =>
      destruct (formatBinaryResult_total r m c) as [line ->]; [ lia | ]
  end.
  cbn [mbind option_bind]. eexists. reflexivity.
Qed.

(** For a non-negative context length below [2^62] and a buffer shorter
    than [2^62] bytes, the engine returns: no slice expression is out of
    range. *)
Lemma ParseWithKeywords_trace_total rules data keywords contextLen :
  admissible data contextLen ->
  is_Some (ParseWithKeywords_trace rules data keywords contextLen).
Proof.
  intros Ha. pose proof Ha as [Hc _]. unfold ParseWithKeywords_trace.
  destruct (Z.ltb_spec (len data) 64) as [Hlt|Hge].
  { cbn [mbind option_bind negb]. eexists. reflexivity. }
  rewrite isValidPEFile_spec by lia. cbn [mbind option_bind].
  match goal with
  | |- context [negb ?b] => destruct b
  end; cbn [negb]; [ | eexists; reflexivity ].
  assert (Hpos : 0 < len data) by lia.
  destruct (foldM_total
              (fun st str =>
                 results ← checkStringWithRulesEx rules str data contextLen;
                 foldM (emitResult mt_rule contextLen) st results)
              (extractMeaningfulStrings data)) with (s := (∅, []) : PState)
    as [st1 E1].
  { intros s str _.
    destruct (checkStringWithRulesEx_total rules str data contextLen Ha Hpos)
      as [results ->].
    cbn [mbind option_bind]. apply foldM_total.
    intros t res _. apply emitResult_total. lia. }
  unfold rulePass. rewrite E1. cbn [mbind option_bind].
  assert (E2 : is_Some (keywordPass data contextLen keywords
                          (extractMeaningfulStrings data) st1)).
  { unfold keywordPass. destruct (0 <? len keywords);
      [ | eexists; reflexivity ].
    apply foldM_total. intros s str _. apply keywordLoop_total; assumption. }
  destruct E2 as [st2 ->]. cbn [mbind option_bind].
  unfold base64Pass.
  destruct (checkBase64EncodedEx_total rules data contextLen Ha)
    as [results ->].
  cbn [mbind option_bind].
  destruct (foldM_total (emitResult mt_base64 contextLen) results) with (s := st2)
    as [st3 ->].
  { intros t res _. apply emitResult_total. lia. }
  cbn [mbind option_bind]. eexists. reflexivity.
Qed.

(** ** Candidate strings are printable *)

Lemma bz_of_Z (z : Z) : 0 <= z < 256 -> bz (of_Z z) = z.
Proof.
  intros Hz. unfold of_Z, bz.
  destruct (Byte.of_N (Z.to_N z)) as [b|] eqn:E.
  - apply Byte.to_of_N in E. rewrite E. lia.
  - apply Byte.of_N_None_iff in E. lia.
Qed.

Lemma utf16_string_printable (units : list Z) :
  Forall (fun u => 32 <= u <= 126) units ->
  printable_string (utf16_string units).
Proof.
  intros H. unfold utf16_string, printable_string.
  apply List.Forall_map. revert H. apply List.Forall_impl.
  intros u Hu. unfold printable. rewrite bz_of_Z by lia.
  apply andb_true_iff. split; apply Z.leb_le; lia.
Qed.

Lemma extractUTF16_loop_printable (data : list byte) :
  forall n currentString results,
    (List.length data <= n)%nat ->
    Forall (fun u => 32 <= u <= 126) currentString ->
    Forall printable_string results ->
    Forall (fun u => 32 <= u <= 126)
           (fst (extractUTF16_loop data currentString results))
    /\ Forall printable_string
              (snd (extractUTF16_loop data currentString results)).
Proof.
  intros n. revert data.
  induction n as [|n IH]; intros data cur results Hn Hc Hr.
  - destruct data; [ simpl; auto | simpl in Hn; lia ].
  - destruct data as [|b0 [|b1 data']]; [ simpl; auto | simpl; auto | ].
    cbn [extractUTF16_loop].
    set (char := Z.lor (bz b0) (Z.shiftl (bz b1) 8)).
    destruct ((32 <=? char) && (char <=? 126)) eqn:E.
    + apply andb_true_iff in E. destruct E as [E1 E2].
      apply Z.leb_le in E1, E2.
      apply IH; [ simpl in Hn; lia | | exact Hr ].
      apply Forall_app. split; [ exact Hc | ]. constructor; [ lia | constructor ].
    + apply IH; [ simpl in Hn; lia | constructor | ].
      destruct (8 <=? len cur); [ | exact Hr ].
      destruct (isMeaningfulString (utf16_string cur)); [ | exact Hr ].
      apply Forall_app. split; [ exact Hr | ].
      constructor; [ | constructor ]. apply utf16_string_printable. exact Hc.
Qed.

Lemma extractUTF16Strings_printable (data : list byte) :
  Forall printable_string (extractUTF16Strings data).
Proof.
  unfold extractUTF16Strings.
  pose proof (extractUTF16_loop_printable data (List.length data) [] []
                (le_n _) (List.Forall_nil _) (List.Forall_nil _)) as [Hc Hr].
  destruct (extractUTF16_loop data [] []) as [cur results]. simpl in Hc, Hr.
  destruct (8 <=? len cur); [ | exact Hr ].
  destruct (isMeaningfulString (utf16_string cur)); [ | exact Hr ].
  apply Forall_app. split; [ exact Hr | ].
  constructor; [ | constructor ]. apply utf16_string_printable. exact Hc.
Qed.

Lemma extractAscii_loop_printable (data : list byte) :
  forall current stringSet results,
    printable_string current ->
    Forall printable_string results ->
    let '(current', _, results') :=
      extractAscii_loop data current stringSet results in
    printable_string current' /\ Forall printable_string results'.
Proof.
  induction data as [|b data IH]; intros cur set results Hc Hr; simpl.
  - auto.
  - destruct (printable b) eqn:Eb.
    + apply IH; [ | exact Hr ].
      apply Forall_app. split; [ exact Hc | ]. constructor; [ exact Eb | constructor ].
    + destruct ((8 <=? len cur) && negb (in_set cur set)
                && isMeaningfulString cur).
      * apply IH; [ constructor | ].
        apply Forall_app. split; [ exact Hr | ]. constructor; [ exact Hc | constructor ].
      * apply IH; [ constructor | exact Hr ].
Qed.

Lemma extractUTF16_merge_printable (utf16Strings : list (list byte)) :
  forall stringSet results,
    Forall printable_string utf16Strings ->
    Forall printable_string results ->
    Forall printable_string
           (extractUTF16_merge utf16Strings stringSet results).
Proof.
  induction utf16Strings as [|str rest IH]; intros set results Hu Hr; simpl.
  - exact Hr.
  - inversion Hu as [|? ? Hs Hrest]; subst.
    destruct (negb (in_set str set) && isMeaningfulString str).
    + apply IH; [ exact Hrest | ].
      apply Forall_app. split; [ exact Hr | ]. constructor; [ exact Hs | constructor ].
    + apply IH; assumption.
Qed.

(** Every candidate string consists of bytes in [32, 126]. *)
Lemma extractMeaningfulStrings_printable (data : list byte) :
  Forall printable_string (extractMeaningfulStrings data).
Proof.
  unfold extractMeaningfulStrings.
  pose proof (extractAscii_loop_printable data [] [] []
                (List.Forall_nil _) (List.Forall_nil _)) as H.
  destruct (extractAscii_loop data [] [] []) as [[cur set] results].
  destruct H as [Hc Hr].
  apply extractUTF16_merge_printable;
    [ apply extractUTF16Strings_printable | ].
  destruct ((8 <=? len cur) && negb (in_set cur set) && isMeaningfulString cur);
    [ | exact Hr ].
  apply Forall_app. split; [ exact Hr | ]. constructor; [ exact Hc | constructor ].
Qed.

(** ** Contexts *)

Lemma bytes_eqb_eq (a b : list byte) : bytes_eqb a b = true -> a = b.
Proof.
  revert b. induction a as [|x a IH]; intros [|y b] H; simpl in H;
    try discriminate; [ reflexivity | ].
  apply andb_true_iff in H. destruct H as [H1 H2].
  apply byte_dec_bl in H1. apply IH in H2. congruence.
Qed.

Lemma unlocatable_not_printable : ~ printable_string unlocatable.
Proof.
  intros H. inversion H as [|b l Hb _]. vm_compute in Hb. discriminate.
Qed.

Lemma checkMatchEx_context rule str data contextLen m results :
  admissible data contextLen -> 0 < len data -> printable_string str ->
  checkMatchEx rule str data contextLen m = Some results ->
  Forall (context_ok contextLen) results.
Proof.
  intros Ha Hpos Hstr. pose proof Ha as [Hc _]. unfold checkMatchEx.
  destruct (1 <? len m); [ | intros H; inversion H; constructor ].
  set (matchedValue := if 2 <? len m then sm m 2 else sm m 1).
  destruct (isValidCredential matchedValue);
    [ | intros H; inversion H; constructor ].
  set (o1 := findStringOffset data (sm m 0)).
  set (o2 := if o1 =? -1 then findStringOffset data matchedValue else o1).
  set (o3 := if o2 =? -1 then findStringOffset data str else o2).
  assert (H3 : offset_ok data o3).
  { subst o3 o2 o1.
    repeat match goal with
           | |- context [if ?b then _ else _] => destruct b
           end; apply findStringOffset_ok; exact Hpos. }
  assert (Hrest : forall o rs, offset_ok data o ->
            (context ← getStringContext data o contextLen;
             context ← (if (o =? -1) && bytes_eqb context unlocatable
                        then truncateForContext str contextLen
                        else Some context);
             Some [ {| RuleName := Name rule;
                       RuleDesc := Description rule;
                       ResRiskLevel := RiskLevel rule;
                       MatchedValue := matchedValue;
                       Offset := o;
                       Context := context |} ]) = Some rs ->
            Forall (context_ok contextLen) rs).
  { intros o rs Ho.
    destruct (getStringContext_total data o contextLen Ha Ho)
      as (cx & -> & Hu & Hp).
    cbn [mbind option_bind].
    destruct (Z.eqb_spec o (-1)) as [->|Hne].
    - rewrite (Hu eq_refl). replace (bytes_eqb unlocatable unlocatable)
        with true by reflexivity.
      cbn [andb].
      destruct (truncateForContext_total str contextLen) as (r & -> & Hl & Hq);
        [ lia | ].
      cbn [mbind option_bind]. intros H. inversion H.
      constructor; [ | constructor ].
      split; simpl; [ apply Hq; exact Hstr | lia ].
    - cbn [andb mbind option_bind]. intros H. inversion H.
      constructor; [ | constructor ].
      destruct (Hp Hne) as [P1 P2]. split; simpl; [ exact P1 | lia ]. }
  destruct ((o3 =? -1) && (10 <? len matchedValue)).
  - destruct (slice_to matchedValue 10) as [pre|]; [ | discriminate ].
    cbn [mbind option_bind]. apply Hrest. apply findStringOffset_ok. exact Hpos.
  - cbn [mbind option_bind]. apply Hrest. exact H3.
Qed.

Lemma checkBase64MatchEx_context rule data base64Str decoded start contextLen
  m results :
  admissible data contextLen -> 0 <= start < len data ->
  checkBase64MatchEx rule data base64Str decoded start contextLen m
    = Some results ->
  Forall (context_ok contextLen) results.
Proof.
  intros Ha Hs. pose proof Ha as [Hc _]. unfold checkBase64MatchEx.
  destruct (len m <? 2); [ intros H; inversion H; constructor | ].
  destruct (negb (isValidCredential _));
    [ intros H; inversion H; constructor | ].
  destruct (getStringContext_total data start contextLen Ha)
    as (cx & -> & _ & Hp); [ right; exact Hs | ].
  destruct Hp as [P1 P2]; [ lia | ].
  cbn [mbind option_bind].
  destruct (bytes_eqb cx unlocatable) eqn:E.
  - apply bytes_eqb_eq in E. subst cx.
    destruct (unlocatable_not_printable P1).
  - cbn [mbind option_bind]. intros H. inversion H.
    constructor; [ | constructor ]. split; simpl; [ exact P1 | lia ].
Qed.

(** In a run with an admissible context length every line has a printable
    context of at most [2 * contextLen + 3] bytes, except the lines of the
    keyword pass whose offset is unresolved: these carry the text
    [无法定位]. *)
Lemma trace_contexts rules data keywords contextLen t :
  admissible data contextLen ->
  ParseWithKeywords_trace rules data keywords contextLen = Some t ->
  Forall (fun e =>
            context_ok contextLen (result e)
            \/ (matchType e = mt_keyword /\ Offset (result e) = -1
                /\ Context (result e) = unlocatable)) t.
Proof.
  intros Ha H. apply trace_structure in H.
  destruct H as (_ & Hor & l1 & l2 & l3 & Ht & F1 & F2 & F3).
  destruct Hor as [->|Hlen]; [ constructor | subst t ].
  assert (Hpos : 0 < len data) by lia.
  pose proof (extractMeaningfulStrings_printable data) as Hstrs.
  rewrite List.Forall_forall in Hstrs.
  apply Forall_app. split; [ | apply Forall_app; split ].
  - revert F1. apply List.Forall_impl.
    intros e (_ & _ & str & results & Hin & Hc & Hr). left.
    unfold checkStringWithRulesEx in Hc.
    destruct (concatMapM_In _ _ _ _ Hc Hr) as (rule & zs & _ & Hz & Hrz).
    destruct (concatMapM_In _ _ _ _ Hz Hrz) as (m & ws & _ & Hw & Hrw).
    apply checkMatchEx_context in Hw; auto.
    rewrite List.Forall_forall in Hw. apply Hw. exact Hrw.
  - revert F2. apply List.Forall_impl.
    intros e (Hm & _ & str & kw & _ & _ & _ & _ & Ho & Hg).
    destruct (getStringContext_total data (findStringOffset data str)
                contextLen Ha (findStringOffset_ok _ _ Hpos))
      as (cx & Hcx & Hu & Hp).
    rewrite Hcx in Hg. inversion Hg; subst cx.
    destruct (Z.eq_dec (findStringOffset data str) (-1)) as [Heq|Hne].
    + right. rewrite Ho. auto.
    + left. destruct (Hp Hne) as [P1 P2]. split; [ exact P1 | ].
      destruct Ha as [Hc _]. lia.
  - revert F3. apply List.Forall_impl.
    intros e (_ & _ & results & Hc & Hr). left.
    unfold checkBase64EncodedEx in Hc.
    destruct (concatMapM_In _ _ _ _ Hc Hr) as ([start end_] & zs & Hm & Hf & Hz).
    pose proof (FindAllIndex_bounds base64Pattern data) as Hb.
    rewrite List.Forall_forall in Hb. specialize (Hb _ Hm). simpl in Hb.
    change (min_width base64Pattern) with 40%nat in Hb.
    unfold checkBase64RunEx in Hf.
    destruct (DecodeString _) as [decoded|];
      [ | inversion Hf; subst; destruct Hz ].
    destruct (negb (isText decoded));
      [ inversion Hf; subst; destruct Hz | ].
    destruct (concatMapM_In _ _ _ _ Hf Hz) as (rule & ws & _ & Hg & Hw).
    destruct (concatMapM_In _ _ _ _ Hg Hw) as (m & vs & _ & Hv & Hrv).
    apply checkBase64MatchEx_context in Hv;
      [ | exact Ha | unfold len; lia ].
    rewrite List.Forall_forall in Hv. apply Hv. exact Hrv.
Qed.

(** ** A match found in the buffer *)

(** A match whose full text is found in the buffer. *)
Lemma checkMatchEx_resolved rule str data contextLen m o :
  1 < len m ->
  isValidCredential (if 2 <? len m then sm m 2 else sm m 1) = true ->
  findStringOffset data (sm m 0) = o -> o <> -1 ->
  checkMatchEx rule str data contextLen m =
    (context ← getStringContext data o contextLen;
     Some [ {| RuleName := Name rule;
               RuleDesc := Description rule;
               ResRiskLevel := RiskLevel rule;
               MatchedValue := if 2 <? len m then sm m 2 else sm m 1;
               Offset := o;
               Context := context |} ]).
Proof.
  intros Hm Hv Ho Hne. unfold checkMatchEx.
  destruct (Z.ltb_spec 1 (len m)) as [_|?]; [ | lia ].
  cbv zeta. rewrite Hv, Ho.
  assert (E : (o =? -1) = false) by (apply Z.eqb_neq; exact Hne).
  rewrite !E. cbn [andb mbind option_bind]. rewrite E.
  destruct (getStringContext data o contextLen); reflexivity.
Qed.

(** ** The padded password sample *)

Lemma padded_sample_len (n : nat) : len (padded_sample n) = 88 + Z.of_nat n.
Proof.
  unfold len, padded_sample. rewrite !length_app, repeat_length.
  change (List.length minimal_header) with 68%nat.
  change (List.length (s2b "password=Secr3t!123")) with 19%nat.
  simpl List.length. lia.
Qed.

Lemma byte_at_header (rest : list byte) (i : Z) :
  0 <= i < 68 -> byte_at (minimal_header ++ rest) i = byte_at minimal_header i.
Proof.
  intros Hi. unfold byte_at. f_equal. apply app_nth1.
  change (List.length minimal_header) with 68%nat. lia.
Qed.

Lemma padded_sample_valid (n : nat) :
  isValidPEFile (padded_sample n) = Some true.
Proof.
  rewrite isValidPEFile_spec by (rewrite padded_sample_len; lia).
  unfold le16, le32, padded_sample.
  rewrite !byte_at_header by lia.
  change (byte_at minimal_header 0 + 2 ^ 8 * byte_at minimal_header (0 + 1))
    with 23117.
  change (byte_at minimal_header 60 + 2 ^ 8 * byte_at minimal_header (60 + 1)
          + 2 ^ 16 * byte_at minimal_header (60 + 2)
          + 2 ^ 24 * byte_at minimal_header (60 + 3)) with 64.
  rewrite !byte_at_header by lia.
  change (byte_at minimal_header 64 + 2 ^ 8 * byte_at minimal_header (64 + 1)
          + 2 ^ 16 * byte_at minimal_header (64 + 2)
          + 2 ^ 24 * byte_at minimal_header (64 + 3)) with 17744.
  fold (padded_sample n).
  destruct (Z.eq_dec 23117 23117) as [_|?]; [ | congruence ].
  destruct (Z_le_dec (64 + 4) (len (padded_sample n))) as [_|Hn];
    [ reflexivity | ].
  rewrite padded_sample_len in Hn. lia.
Qed.

(** Extraction. *)

Lemma extractAscii_loop_app (a b : list byte) :
  forall current stringSet results,
    extractAscii_loop (a ++ b) current stringSet results =
      let '(c, s, r) := extractAscii_loop a current stringSet results in
      extractAscii_loop b c s r.
Proof.
  induction a as [|x a IH]; intros cur set res; [ reflexivity | ].
  cbn [app extractAscii_loop].
  destruct (printable x); [ apply IH | ].
  destruct ((8 <=? len cur) && negb (in_set cur set) && isMeaningfulString cur);
    apply IH.
Qed.

Lemma extractAscii_loop_zeros (n : nat) (stringSet results : list (list byte)) :
  extractAscii_loop (repeat zero n) [] stringSet results
  = ([], stringSet, results).
Proof.
  induction n as [|n IH]; [ reflexivity | ].
  cbn [repeat extractAscii_loop]. exact IH.
Qed.

Lemma extractUTF16_loop_zeros (m : nat) (rest : list byte)
  (results : list (list byte)) :
  extractUTF16_loop (repeat zero (2 * m) ++ rest) [] results
  = extractUTF16_loop rest [] results.
Proof.
  induction m as [|m IH]; [ reflexivity | ].
  replace (2 * S m)%nat with (S (S (2 * m))) by lia.
  cbn [repeat app extractUTF16_loop]. exact IH.
Qed.

Lemma extractUTF16Strings_padded (n : nat) :
  extractUTF16Strings (padded_sample n) = [].
Proof.
  unfold extractUTF16Strings, padded_sample.
  assert (Hh : forall rest,
             extractUTF16_loop (minimal_header ++ rest) [] []
             = extractUTF16_loop rest [] []).
  { intros rest. reflexivity. }
  rewrite Hh.
  destruct (Nat.Even_or_Odd n) as [[m ->]|[m ->]].
  - rewrite extractUTF16_loop_zeros. reflexivity.
  - replace (2 * m + 1)%nat with (2 * m + 1)%nat by reflexivity.
    rewrite repeat_app, <- app_assoc, extractUTF16_loop_zeros. reflexivity.
Qed.

Lemma extractMeaningfulStrings_padded (n : nat) :
  extractMeaningfulStrings (padded_sample n) = [s2b "password=Secr3t!123"].
Proof.
  unfold extractMeaningfulStrings.
  rewrite extractUTF16Strings_padded.
  unfold padded_sample.
  rewrite extractAscii_loop_app.
  replace (extractAscii_loop minimal_header [] [] [])
    with (@nil byte, @nil (list byte), @nil (list byte))
    by (vm_compute; reflexivity).
  rewrite extractAscii_loop_app, extractAscii_loop_zeros.
  vm_compute. reflexivity.
Qed.

(** Offset of the string. *)

Lemma Index_from_skip (pre rest substr : list byte) (y : byte)
  (substr' : list byte) :
  substr = y :: substr' ->
  Forall (fun b => byte_eqb b y = false) pre ->
  forall i,
    Index_from i (pre ++ rest) substr
    = Index_from (i + len pre) rest substr.
Proof.
  intros -> Hpre. induction Hpre as [|b pre Hb _ IH]; intros i.
  - unfold len. simpl. f_equal. lia.
  - cbn [app]. rewrite Index_from_cons. cbn [has_prefix]. rewrite Hb.
    cbn [andb]. rewrite IH. f_equal. unfold len. simpl List.length. lia.
Qed.

Lemma Index_from_here (i : Z) (s substr : list byte) :
  has_prefix s substr = true -> Index_from i s substr = i.
Proof.
  intros H. destruct s as [|x s].
  - rewrite Index_from_nil, H. reflexivity.
  - rewrite Index_from_cons, H. reflexivity.
Qed.

Lemma findStringOffset_padded (n : nat) :
  findStringOffset (padded_sample n) (s2b "password=Secr3t!123")
  = 68 + Z.of_nat n.
Proof.
  unfold findStringOffset, Index, padded_sample.
  rewrite app_assoc.
  rewrite (Index_from_skip (minimal_header ++ repeat zero n) _ _
             "p"%byte (s2b "assword=Secr3t!123") eq_refl).
  - rewrite Index_from_here by reflexivity.
    unfold len. rewrite length_app, repeat_length.
    change (List.length minimal_header) with 68%nat. lia.
  - apply Forall_app. split.
    + apply List.Forall_forall. intros b Hb.
      assert (Hall : forallb (fun b => negb (byte_eqb b "p"%byte))
                       minimal_header = true) by reflexivity.
      rewrite forallb_forall in Hall. specialize (Hall b Hb).
      destruct (byte_eqb b "p"); [ discriminate | reflexivity ].
    + apply List.Forall_forall. intros b Hb.
      apply repeat_spec in Hb. subst b. reflexivity.
Qed.

(** No base64 run. *)

Lemma DecodeRune_ascii (b : byte) (t : list byte) :
  (bz b <? 0x80) = true -> DecodeRune (b :: t) = (bz b, 1%nat).
Proof.
  intros H. unfold DecodeRune. rewrite H. reflexivity.
Qed.

Lemma rep_loop_breaks text (k : K) :
  forall lo n pos rest c,
    run_breaks lo rest = true ->
    rep_loop (run text (cls b64_class)) k n lo pos rest c = None.
Proof.
  induction lo as [|lo IH]; intros n pos rest c H; [ discriminate | ].
  destruct n as [|n]; [ reflexivity | ].
  cbn [rep_loop run cls]. destruct rest as [|b t]; [ reflexivity | ].
  cbn [run_breaks] in H.
  destruct (bz b <? 0x80) eqn:Eb; [ | discriminate ].
  rewrite (DecodeRune_ascii b t Eb). cbn [xorb].
  destruct (in_ranges (bz b) b64_class); [ | reflexivity ].
  apply IH. exact H.
Qed.

Lemma run_base64_breaks text pos rest c (k : K) :
  run_breaks 40 rest = true ->
  run text base64Pattern pos rest c k = None.
Proof.
  intros H. unfold base64Pattern. cbn [seqs foldr run].
  apply rep_loop_breaks. exact H.
Qed.

Lemma search_no_base64 text fuel :
  forall pos rest,
    no_base64 rest = true ->
    search text fuel base64Pattern pos rest = None.
Proof.
  induction fuel as [|fuel IH]; intros pos rest H; cbn [search].
  - rewrite run_base64_breaks; [ reflexivity | ].
    destruct rest as [|b t]; [ reflexivity | ].
    cbn [no_base64] in H. apply andb_true_iff in H. destruct H as [H _].
    apply andb_true_iff in H. destruct H as [_ H]. exact H.
  - destruct rest as [|b t].
    + rewrite run_base64_breaks; reflexivity.
    + cbn [no_base64] in H. apply andb_true_iff in H. destruct H as [H Ht].
      apply andb_true_iff in H. destruct H as [Hb Hr].
      rewrite run_base64_breaks by exact Hr.
      rewrite (DecodeRune_ascii b t Hb). cbn [snd skipn].
      apply IH. exact Ht.
Qed.

Lemma FindAllIndex_no_base64 (data : list byte) :
  no_base64 data = true -> FindAllIndex base64Pattern data = [].
Proof.
  intros H. unfold FindAllIndex. cbn [allMatches].
  rewrite search_no_base64 by exact H. reflexivity.
Qed.


Lemma no_base64_padded (n : nat) : no_base64 (padded_sample n) = true.
Proof.
  unfold padded_sample.
  assert (Hh : forall rest,
             no_base64 (minimal_header ++ rest) = no_base64 rest)
    by (intros rest; reflexivity).
  rewrite Hh. induction n as [|n IH]; [ reflexivity | ].
  cbn [repeat app]. exact IH.
Qed.

Lemma padded_sample_rules (n : nat) (contextLen : Z) :
  checkStringWithRulesEx initDetectionRules (s2b "password=Secr3t!123")
    (padded_sample n) contextLen =
    (context ← getStringContext (padded_sample n) (68 + Z.of_nat n) contextLen;
     Some [ {| RuleName := s2b "密码字段";
               RuleDesc := s2b "密码字段赋值";
               ResRiskLevel := s2b "critical";
               MatchedValue := s2b "Secr3t!123";
               Offset := 68 + Z.of_nat n;
               Context := context |} ]).
Proof.
  unfold checkStringWithRulesEx, initDetectionRules.
  cbn [concatMapM Pattern].
  repeat match goal with
         | |- context [FindAllStringSubmatch ?p ?s] =>
             let v := eval vm_compute in (FindAllStringSubmatch p s) in
             replace (FindAllStringSubmatch p s) with v
               by (vm_compute; reflexivity)
         end.
  cbn [concatMapM mbind option_bind app].
  rewrite (checkMatchEx_resolved _ _ _ _ _ (68 + Z.of_nat n));
    [ | vm_compute; reflexivity | vm_compute; reflexivity
      | apply findStringOffset_padded | lia ].
  destruct (getStringContext (padded_sample n) (68 + Z.of_nat n) contextLen);
    reflexivity.
Qed.

(** ** Runs of the orchestrator *)

Section OrchestratorProofs.

Variable ReadFile : list byte -> option (list byte).
Variable isBinaryFile : list byte -> bool.
Variable otherParsers :
  list byte -> list (list byte) -> option (list (list byte)).
Variable Keywords : list (list byte).
Variable contextLength : Z.

#[local] Abbreviation parse := (Parse ReadFile isBinaryFile otherParsers Keywords contextLength).
#[local] Abbreviation step_ := (step ReadFile isBinaryFile otherParsers Keywords contextLength).
#[local] Abbreviation steps_ := (steps ReadFile isBinaryFile otherParsers Keywords contextLength).
#[local] Abbreviation scan := (scanFiles ReadFile isBinaryFile otherParsers Keywords contextLength).
#[local] Abbreviation run_inv_ :=
  (run_inv ReadFile isBinaryFile otherParsers Keywords contextLength).
#[local] Abbreviation outcome_ :=
  (outcome ReadFile isBinaryFile otherParsers Keywords contextLength).
#[local] Abbreviation expected := (expectedResults ReadFile isBinaryFile otherParsers Keywords contextLength).

Lemma commit_lookup (path : list byte) (rawResults : list (list byte))
  (fileResults : gmap (list byte) (list (list byte))) (path' : list byte) :
  commit path rawResults fileResults !! path' =
    if decide (path = path') then
      match stored rawResults with
      | Some r => Some r
      | None => fileResults !! path'
      end
    else fileResults !! path'.
Proof.
  unfold commit, stored. destruct (0 <? len rawResults).
  - rewrite lookup_insert. destruct (decide (path = path')); reflexivity.
  - destruct (decide (path = path')); reflexivity.
Qed.

Lemma run_inv_init (files : list (list byte)) : run_inv_ files (Run files [] ∅).
Proof.
  split; [ | split ].
  - intros path [H|[]]. exact H.
  - intros path H. left. exact H.
  - intros path res H. rewrite lookup_empty in H. discriminate.
Qed.

Lemma run_inv_step (n : nat) (files : list (list byte)) (c c' : Config) :
  step_ n c c' -> run_inv_ files c -> run_inv_ files c'.
Proof.
  intros Hs. destruct Hs as [path l1 l2 running fr Hn
                            | path res pending r1 r2 fr Hp
                            | path pending r1 r2 fr Hp];
    intros (I1 & I2 & I3).
  - split; [ | split ].
    + intros p [H|H]; apply I1.
      * left. apply in_app_iff in H. apply in_app_iff. simpl. tauto.
      * destruct H as [<-|H]; [ left; apply in_elt | right; exact H ].
    + intros p Hin.
      destruct (I2 p Hin) as [H|[H|H]];
        [ | right; left; right; exact H | right; right; exact H ].
      apply in_app_iff in H. simpl in H.
      destruct H as [H|[<-|H]].
      * left. apply in_app_iff. tauto.
      * right. left. left. reflexivity.
      * left. apply in_app_iff. tauto.
    + exact I3.
  - assert (Hfile : In path files) by (apply I1; right; apply in_elt).
    assert (Hold : forall r, fr !! path = Some r -> r = res /\ 0 < len res).
    { intros r Hr. destruct (I3 _ _ Hr) as (_ & Hp' & Hl).
      rewrite Hp in Hp'. inversion Hp'; subst. auto. }
    split; [ | split ].
    + intros p [H|H]; apply I1; [ tauto | right ].
      apply in_app_iff in H. apply in_app_iff. simpl. tauto.
    + intros p Hin. destruct (decide (path = p)) as [<-|Hne].
      * right. right. exists res. split; [ exact Hp | ].
        rewrite commit_lookup. destruct (decide (path = path)); [ | congruence ].
        unfold stored in *. destruct (0 <? len res) eqn:E; [ reflexivity | ].
        destruct (fr !! path) as [r|] eqn:Er; [ | reflexivity ].
        destruct (Hold r eq_refl) as [_ Hl]. lia.
      * destruct (I2 p Hin) as [H|[H|(r & Hr & Hl)]].
        -- tauto.
        -- right. left. apply in_app_iff in H. apply in_app_iff.
           simpl in H. destruct H as [H|[H|H]]; [ tauto | congruence | tauto ].
        -- right. right. exists r. split; [ exact Hr | ].
           rewrite commit_lookup.
           destruct (decide (path = p)); [ congruence | exact Hl ].
    + intros p r Hl. rewrite commit_lookup in Hl.
      destruct (decide (path = p)) as [<-|Hne]; [ | apply I3; exact Hl ].
      unfold stored in Hl. destruct (0 <? len res) eqn:E.
      * inversion Hl; subst. split; [ exact Hfile | ]. split; [ exact Hp | lia ].
      * apply I3. exact Hl.
  - exists path. split; [ | exact Hp ]. apply I1. right. apply in_elt.
Qed.

Lemma run_inv_steps (n : nat) (files : list (list byte)) (c c' : Config) :
  steps_ n c c' -> run_inv_ files c -> run_inv_ files c'.
Proof.
  induction 1 as [c|c1 c2 c3 Hs _ IH]; intros Hi; [ exact Hi | ].
  apply IH. eapply run_inv_step; eassumption.
Qed.

Lemma expected_lookup (files : list (list byte)) (path : list byte)
  (rawResults : list (list byte)) :
  expected files !! path = Some rawResults
  <-> In path files /\ parse path = Some rawResults /\ 0 < len rawResults.
Proof.
  induction files as [|p files IH]; simpl.
  - rewrite lookup_empty. split; [ discriminate | intros [[] _] ].
  - destruct (parse p) as [res|] eqn:Ep.
    + rewrite commit_lookup. destruct (decide (p = path)) as [<-|Hne].
      * unfold stored. destruct (0 <? len res) eqn:E.
        -- split.
           ++ intros H. inversion H; subst. split; [ left; reflexivity | ].
              split; [ exact Ep | lia ].
           ++ intros (_ & H & _). rewrite Ep in H. exact H.
        -- rewrite IH. split.
           ++ intros (H1 & H2 & H3). rewrite Ep in H2. inversion H2; subst. lia.
           ++ intros (_ & H2 & H3). rewrite Ep in H2. inversion H2; subst. lia.
      * rewrite IH. split.
        -- intros (H1 & H2 & H3). auto.
        -- intros ([H1|H1] & H2 & H3); [ congruence | auto ].
    + rewrite IH. split.
      * intros (H1 & H2 & H3). auto.
      * intros ([<-|H1] & H2 & H3); [ congruence | auto ].
Qed.

Lemma scanFiles_outcome (n : nat) (files : list (list byte)) (c : Config) : scan n files c -> outcome_ files c.
Proof.
  intros [Hs Hf].
  pose proof (run_inv_steps _ files _ _ Hs (run_inv_init files)) as Hi.
  destruct c as [pending running fr|]; [ | exact Hi ].
  destruct Hf as [-> ->]. destruct Hi as (I1 & I2 & I3).
  split; [ reflexivity | ]. split; [ reflexivity | ]. split.
  - apply map_eq. intros path.
    destruct (fr !! path) as [r|] eqn:Er.
    + symmetry. apply expected_lookup. apply I3. exact Er.
    + destruct (expected files !! path) as [r|] eqn:Ee; [ | reflexivity ].
      apply expected_lookup in Ee. destruct Ee as (Hin & Hp & Hl).
      destruct (I2 path Hin) as [[]|[[]|(r' & Hp' & Hl')]].
      rewrite Hp in Hp'. inversion Hp'; subst r'.
      unfold stored in Hl'. destruct (0 <? len r) eqn:E; [ congruence | lia ].
  - intros path Hin Hnone.
    destruct (I2 path Hin) as [[]|[[]|(r' & Hp' & _)]]. congruence.
Qed.

Lemma outcome_unique (files : list (list byte)) (c1 c2 : Config) :
  outcome_ files c1 -> outcome_ files c2 -> c1 = c2.
Proof.
  destruct c1 as [p1 r1 f1|], c2 as [p2 r2 f2|]; simpl.
  - intros (-> & -> & -> & _) (-> & -> & -> & _). reflexivity.
  - intros (_ & _ & _ & H) (path & Hin & Hp). destruct (H path Hin Hp).
  - intros (path & Hin & Hp) (_ & _ & _ & H). destruct (H path Hin Hp).
  - reflexivity.
Qed.

(** With at least one slot, a run can always be completed. *)
Lemma scanFiles_exists (n : nat) (files : list (list byte)) :
  (1 <= n)%nat -> exists c, scan n files c.
Proof.
  intros Hn. unfold scanFiles.
  generalize (∅ : gmap (list byte) (list (list byte))).
  induction files as [|path files IH]; intros fr.
  - exists (Run [] [] fr). split; [ constructor | split; reflexivity ].
  - assert (H1 : step_ n (Run (path :: files) [] fr) (Run files [path] fr)).
    { apply (step_acquire _ _ _ _ _ n path [] files [] fr). simpl. lia. }
    destruct (parse path) as [res|] eqn:Ep.
    + destruct (IH (commit path res fr)) as (c & Hs & Hf).
      exists c. split; [ | exact Hf ].
      eapply steps_cons; [ exact H1 | ].
      eapply steps_cons; [ | exact Hs ].
      apply (step_finish _ _ _ _ _ n path res files [] [] fr Ep).
    + exists Crashed. split; [ | exact I ].
      eapply steps_cons; [ exact H1 | ].
      eapply steps_cons; [ | constructor ].
      apply (step_panic _ _ _ _ _ n path files [] [] fr Ep).
Qed.

End OrchestratorProofs.

(** * The properties of the specification *)

(** C1: a buffer that fails format validation makes [ParseWithKeywords]
    return the empty list of lines; the result is [Some], so no slice
    expression of the validator was out of range, and the extraction and
    the three passes were not run. *)
Theorem C1_invalid_buffer_yields_nothing (data : list byte)
  (keywords : list (list byte)) (contextLen : Z) :
  fails_validation data ->
  ParseWithKeywords data keywords contextLen = Some []
  /\ ParseWithKeywords_trace initDetectionRules data keywords contextLen
     = Some [].
Proof.
  intros Hf. unfold ParseWithKeywords.
  rewrite trace_invalid by exact Hf. split; reflexivity.
Qed.

(** A 64-byte buffer with the MZ signature and the pointer 0xFFFF. *)
Lemma C1_witness :
  let data := s2b "MZ" ++ repeat zero 58 ++ [of_Z 0xFF; of_Z 0xFF; zero; zero] in
  fails_validation data
  /\ ParseWithKeywords data [s2b "password"] 50 = Some [].
Proof.
  assert (Hf : fails_validation
                 (s2b "MZ" ++ repeat zero 58
                  ++ [of_Z 0xFF; of_Z 0xFF; zero; zero])).
  { right. right. left. vm_compute. intros H. apply H. reflexivity. }
  split; [ exact Hf | ].
  apply (C1_invalid_buffer_yields_nothing _ [s2b "password"] 50 Hf).
Defined.

(** C2: a run of [ParseWithKeywords] returns for every context length from
    0 up. In the lines of a run that returns, no two entries have the same
    offset, and the lines are those of the rule pass, then those of the
    keyword pass, then those of the base64 pass; the output of
    [ParseWithKeywords] is the formatted text of these entries. *)
Theorem C2_no_two_findings_share_an_offset (data : list byte)
  (keywords : list (list byte)) (contextLen : Z) :
  (admissible data contextLen ->
   is_Some (ParseWithKeywords data keywords contextLen))
  /\ forall t,
       ParseWithKeywords_trace initDetectionRules data keywords contextLen
         = Some t ->
       ParseWithKeywords data keywords contextLen = Some (map lineOutput t)
       /\ NoDup (map (fun e => Offset (result e)) t)
       /\ (forall i j e1 e2,
             t !! i = Some e1 -> t !! j = Some e2 ->
             Offset (result e1) = Offset (result e2) -> i = j)
       /\ exists l1 l2 l3,
            t = l1 ++ l2 ++ l3
            /\ Forall (fun e => matchType e = mt_rule) l1
            /\ Forall (fun e => matchType e = mt_keyword) l2
            /\ Forall (fun e => matchType e = mt_base64) l3.
Proof.
  split.
  { intros Ha. unfold ParseWithKeywords.
    destruct (ParseWithKeywords_trace_total initDetectionRules data keywords
                contextLen Ha) as [t ->].
    eexists. reflexivity. }
  intros t H. split; [ unfold ParseWithKeywords; rewrite H; reflexivity | ].
  apply trace_structure in H.
  destruct H as (Hnd & _ & l1 & l2 & l3 & Ht & F1 & F2 & F3).
  split; [ exact Hnd | ]. split.
  - intros i j e1 e2 H1 H2 Heq.
    apply (NoDup_lookup (map off t) i j (off e1)); [ exact Hnd | | ].
    + apply lookup_map. exact H1.
    + unfold off at 2. rewrite Heq. apply (lookup_map off). exact H2.
  - exists l1, l2, l3. split; [ exact Ht | ].
    repeat split.
    + revert F1. apply List.Forall_impl. intros e He. apply He.
    + revert F2. apply List.Forall_impl. intros e He. apply He.
    + revert F3. apply List.Forall_impl. intros e He. apply He.
Qed.

(** The password sample with the keyword [Secr3t]: the keyword pass
    resolves to the offset of the rule-pass line and adds nothing. *)
Lemma C2_witness :
  exists t,
    ParseWithKeywords_trace initDetectionRules password_sample
      [s2b "Secr3t"] 50 = Some t
    /\ List.length t = 1%nat
    /\ NoDup (map (fun e => Offset (result e)) t).
Proof.
  eexists. split; [ vm_compute; reflexivity | ].
  split; [ reflexivity | ].
  eapply (proj2 (C2_no_two_findings_share_an_offset password_sample
                   [s2b "Secr3t"] 50)).
  vm_compute. reflexivity.
Defined.

(** C3: in the lines of one run, every offset other than the sentinel -1
    is an index into the buffer, whichever pass produced the line. *)
Theorem C3_resolved_offsets_in_buffer (data : list byte)
  (keywords : list (list byte)) (contextLen : Z) (t : list Emitted)
  (e : Emitted) :
  ParseWithKeywords_trace initDetectionRules data keywords contextLen
    = Some t ->
  In e t ->
  Offset (result e) <> -1 ->
  0 <= Offset (result e) < len data.
Proof.
  intros H Hin Hne. apply trace_offsets in H.
  rewrite List.Forall_forall in H. destruct (H e Hin) as [Hs|Hr].
  - contradiction.
  - exact Hr.
Qed.

Lemma C3_witness :
  exists e,
    In e [e] /\ Offset (result e) <> -1
    /\ 0 <= Offset (result e) < len (buffer_ascii "password=Secr3t!123").
Proof.
  assert (Ht : exists e,
             ParseWithKeywords_trace initDetectionRules
               (buffer_ascii "password=Secr3t!123") [] 50 = Some [e]
             /\ Offset (result e) <> -1).
  { eexists. split; [ vm_compute; reflexivity | ]. simpl. discriminate. }
  destruct Ht as (e & Ht & Hne). exists e.
  split; [ left; reflexivity | ]. split; [ exact Hne | ].
  apply (C3_resolved_offsets_in_buffer _ [] 50 [e] e Ht);
    [ left; reflexivity | exact Hne ].
Defined.

(** C4: a UTF-16 string that contains a keyword is reported by the keyword
    pass with the unresolved offset and the context [无法定位], whose
    bytes are not printable ASCII. *)
Theorem C4_keyword_context_not_printable :
  exists e,
    ParseWithKeywords_trace initDetectionRules (buffer_utf16 "mypassword")
      [s2b "password"] 50 = Some [e]
    /\ matchType e = mt_keyword
    /\ Offset (result e) = -1
    /\ Context (result e) = unlocatable
    /\ forallb printable (Context (result e)) = false.
Proof.
  eexists. split; [ vm_compute; reflexivity | ].
  repeat split; vm_compute; reflexivity.
Qed.

(** C5: the code accepts [ab,cd], which passes the length and denylist
    filters and matches none of the shapes the specification lists: the
    comma is in the range from [+] to [=] of the first pattern's class. *)
Theorem C5_comma_token_accepted :
  isValidCredential (s2b "ab,cd") = true
  /\ MatchString (hd Eps validPatterns) (s2b "ab,cd") = true
  /\ spec_isValidCredential (s2b "ab,cd") = false.
Proof. repeat split; vm_compute; reflexivity. Qed.

(** C6, as stated, fails: the one base64 finding of this buffer is named
    with the suffix [ (Base64编码)], which does not end in [(Base64)]. *)
Lemma C6_counterexample :
  exists e,
    ParseWithKeywords_trace initDetectionRules base64_sample [] 50 = Some [e]
    /\ matchType e = mt_base64
    /\ RuleName (result e) = s2b "密码字段 (Base64编码)"
    /\ HasSuffix (RuleName (result e)) (s2b "(Base64)") = false.
Proof.
  eexists. split; [ vm_compute; reflexivity | ].
  repeat split; vm_compute; reflexivity.
Qed.

(** C6, amended: every base64-pass line is named after a rule of the corpus
    whose pattern matched the decoded text, with the suffix
    [ (Base64编码)]; its offset is the start of a run
    found by the base64 pattern in the buffer, a run of at least 40 bytes
    inside the buffer that [DecodeString] accepts; and a run that
    [DecodeString] rejects contributes no result and no panic. *)
Theorem C6_base64_findings (data : list byte) (keywords : list (list byte))
  (contextLen : Z) (t : list Emitted) (e : Emitted) :
  ParseWithKeywords_trace initDetectionRules data keywords contextLen
    = Some t ->
  In e t ->
  matchType e = mt_base64 ->
  (exists rule start end_ decoded,
     In rule initDetectionRules
     /\ In (start, end_) (FindAllIndex base64Pattern data)
     /\ (start + 40 <= end_ <= List.length data)%nat
     /\ DecodeString (sub data start end_) = Some decoded
     /\ (exists m, In m (FindAllStringSubmatch (Pattern rule) decoded)
                   /\ In (MatchedValue (result e)) m)
     /\ RuleName (result e) = Name rule ++ s2b " (Base64编码)"
     /\ Offset (result e) = Z.of_nat start)
  /\ (forall m,
        DecodeString (sub data (fst m) (snd m)) = None ->
        checkBase64RunEx initDetectionRules data contextLen m = Some []).
Proof.
  intros H Hin Hmt. split.
  - apply trace_structure in H.
    destruct H as (_ & _ & l1 & l2 & l3 & -> & F1 & F2 & F3).
    rewrite List.Forall_forall in F1, F2, F3.
    apply in_app_iff in Hin. destruct Hin as [Hin|Hin].
    { destruct (F1 e Hin) as (Hm & _). rewrite Hm in Hmt.
      destruct (mt_rule_not_base64 Hmt). }
    apply in_app_iff in Hin. destruct Hin as [Hin|Hin].
    { destruct (F2 e Hin) as (Hm & _). rewrite Hm in Hmt.
      destruct (mt_keyword_not_base64 Hmt). }
    destruct (F3 e Hin) as (_ & _ & results & Hc & Hr).
    destruct (checkBase64EncodedEx_finding _ _ _ _ _ Hc Hr)
      as (rule & start & end_ & decoded & R1 & R2 & R3 & R4 & R5 & R6 & R7
          & _ & R9).
    exists rule, start, end_, decoded.
    pose proof (FindAllIndex_bounds base64Pattern data) as Hb.
    rewrite List.Forall_forall in Hb. specialize (Hb _ R2). simpl in Hb.
    change (min_width base64Pattern) with 40%nat in Hb.
    repeat split; auto; lia.
  - intros [start end_] Hd. simpl in Hd. unfold checkBase64RunEx.
    rewrite Hd. reflexivity.
Qed.

Lemma C6_witness :
  exists e rule start end_ decoded,
    In rule initDetectionRules
    /\ In (start, end_) (FindAllIndex base64Pattern base64_sample)
    /\ (start + 40 <= end_ <= List.length base64_sample)%nat
    /\ DecodeString (sub base64_sample start end_) = Some decoded
    /\ (exists m, In m (FindAllStringSubmatch (Pattern rule) decoded)
                  /\ In (MatchedValue (result e)) m)
    /\ RuleName (result e) = Name rule ++ s2b " (Base64编码)"
    /\ Offset (result e) = Z.of_nat start.
Proof.
  assert (H : exists e,
             ParseWithKeywords_trace initDetectionRules base64_sample [] 50
             = Some [e] /\ matchType e = mt_base64).
  { eexists. split; vm_compute; reflexivity. }
  destruct H as (e & Ht & Hmt). exists e.
  apply (proj1 (C6_base64_findings base64_sample [] 50 [e] e Ht
                  (or_introl eq_refl) Hmt)).
Defined.

(** C7, as stated, fails: this string of 20 printable characters has its
    only run of four equal characters at positions 0 to 3, none past
    position 10, and the code classifies it as garbage. *)
Lemma C7_counterexample :
  isLikelyGarbage (s2b "aaaabcdefghijklmnopq") = true
  /\ ~ spec_isLikelyGarbage (s2b "aaaabcdefghijklmnopq").
Proof.
  split; [ vm_compute; reflexivity | ].
  intros [_ [H|(i & Hi & Hlen & H1 & _)]].
  - vm_compute in H. discriminate.
  - simpl in Hlen.
    assert (Hcases : (i = 10 \/ i = 11 \/ i = 12 \/ i = 13 \/ i = 14
                      \/ i = 15 \/ i = 16)%nat) by lia.
    destruct Hcases as [->|[->|[->|[->|[->|[->| ->]]]]]];
      vm_compute in H1; discriminate.
Qed.

(** C7, amended: for a string without a carriage return, the code
    classifies it as likely garbage exactly when its length in bytes is at
    least 10 and either more than 0.3 of that length are runes outside
    [32,126], tab and LF, or the length is at least 20 and four equal
    consecutive bytes start at some index below the length minus 10. *)
Theorem C7_likely_garbage (str : list byte) :
  ~ In 13 (runes str) ->
  (isLikelyGarbage str = true
   <-> 10 <= len str
       /\ (3 * len str < 10 * len (List.filter spec_outside (runes str))
           \/ (20 <= len str
               /\ exists i, (i + 10 < List.length str)%nat /\ run4_at str i))).
Proof.
  intros Hcr. unfold isLikelyGarbage, specialCharCount.
  rewrite (filter_ext_in special_rune spec_outside).
  2:{ intros ch Hin. apply special_rune_spec_outside. intros ->. auto. }
  destruct (Z.ltb_spec (len str) 10) as [Hlt|Hge].
  { split; [ discriminate | intros [H _]; lia ]. }
  destruct (Z.ltb_spec (3 * len str)
              (10 * len (List.filter spec_outside (runes str)))) as [Hf|Hf].
  { split; auto. }
  destruct (hasRepeatingPattern str) eqn:Er.
  - apply hasRepeatingPattern_spec in Er. split; auto.
  - split; [ discriminate | ].
    intros [_ [H|H]]; [ lia | ].
    apply hasRepeatingPattern_spec in H. congruence.
Qed.

Lemma C7_witness :
  ~ In 13 (runes (s2b "aaaabcdefghijklmnopq"))
  /\ (isLikelyGarbage (s2b "aaaabcdefghijklmnopq") = true
      <-> 10 <= len (s2b "aaaabcdefghijklmnopq")
          /\ (3 * len (s2b "aaaabcdefghijklmnopq")
              < 10 * len (List.filter spec_outside
                            (runes (s2b "aaaabcdefghijklmnopq")))
              \/ (20 <= len (s2b "aaaabcdefghijklmnopq")
                  /\ exists i,
                       (i + 10 < List.length (s2b "aaaabcdefghijklmnopq"))%nat
                       /\ run4_at (s2b "aaaabcdefghijklmnopq") i))).
Proof.
  assert (Hcr : ~ In 13 (runes (s2b "aaaabcdefghijklmnopq"))).
  { vm_compute. intuition discriminate. }
  split; [ exact Hcr | ].
  apply (C7_likely_garbage (s2b "aaaabcdefghijklmnopq") Hcr).
Defined.

(** C8: for the minimal header, any number [n] of zero bytes, the string
    [password=Secr3t!123] at offset [k = 68 + n] and a closing zero byte,
    with no keywords and any context length from 0 up, the engine returns
    exactly one line: a rule-pass finding of the password rule, at risk
    level critical, with matched value [Secr3t!123] and offset [k]. *)
Theorem C8_password_scenario (n : nat) (contextLen : Z) :
  0 <= contextLen < 2 ^ 62 -> Z.of_nat n < 2 ^ 61 ->
  exists e,
    ParseWithKeywords_trace initDetectionRules (padded_sample n) []
      contextLen = Some [e]
    /\ ParseWithKeywords (padded_sample n) [] contextLen
       = Some [lineOutput e]
    /\ matchType e = mt_rule
    /\ RuleName (result e) = s2b "密码字段"
    /\ ResRiskLevel (result e) = s2b "critical"
    /\ MatchedValue (result e) = s2b "Secr3t!123"
    /\ Offset (result e) = 68 + Z.of_nat n
    /\ sub (padded_sample n) (68 + n) (68 + n + 19)
       = s2b "password=Secr3t!123".
Proof.
  intros Hc Hn.
  assert (Ha : admissible (padded_sample n) contextLen).
  { split; [ exact Hc | ]. rewrite padded_sample_len.
    assert (H : 2 ^ 62 = 2 * 2 ^ 61) by reflexivity. lia. }
  assert (Ho : offset_ok (padded_sample n) (68 + Z.of_nat n)).
  { right. rewrite padded_sample_len. lia. }
  destruct (getStringContext_total _ _ contextLen Ha Ho) as (cx & Hcx & _).
  set (res := {| RuleName := s2b "密码字段";
                 RuleDesc := s2b "密码字段赋值";
                 ResRiskLevel := s2b "critical";
                 MatchedValue := s2b "Secr3t!123";
                 Offset := 68 + Z.of_nat n;
                 Context := cx |}).
  destruct (formatBinaryResult_total res mt_rule contextLen) as [line Hline];
    [ lia | ].
  assert (Ht : ParseWithKeywords_trace initDetectionRules (padded_sample n) []
                 contextLen
               = Some [ {| matchType := mt_rule; result := res;
                           lineOutput := line |} ]).
  { unfold ParseWithKeywords_trace.
    destruct (Z.ltb_spec (len (padded_sample n)) 64) as [Hlt|_];
      [ rewrite padded_sample_len in Hlt; lia | ].
    rewrite padded_sample_valid. cbn [mbind option_bind negb].
    rewrite extractMeaningfulStrings_padded.
    unfold rulePass. cbn [foldM].
    rewrite padded_sample_rules, Hcx. cbn [mbind option_bind foldM].
    fold res. unfold emitResult.
    rewrite bool_decide_eq_false_2 by set_solver.
    rewrite Hline. cbn [mbind option_bind].
    unfold keywordPass. replace (0 <? len []) with false by reflexivity.
    cbn [mbind option_bind].
    unfold base64Pass, checkBase64EncodedEx.
    rewrite (FindAllIndex_no_base64 _ (no_base64_padded n)).
    cbn [concatMapM mbind option_bind foldM snd app]. reflexivity. }
  eexists. split; [ exact Ht | ].
  split; [ unfold ParseWithKeywords; rewrite Ht; reflexivity | ].
  repeat split.
  unfold sub, padded_sample. rewrite app_assoc.
  rewrite skipn_app.
  rewrite (skipn_all2 (minimal_header ++ repeat zero n))
    by (rewrite length_app, repeat_length; simpl; lia).
  rewrite length_app, repeat_length.
  change (List.length minimal_header) with 68%nat.
  replace (68 + n - (68 + n))%nat with 0%nat by lia.
  replace (68 + n + 19 - (68 + n))%nat with 19%nat by lia.
  reflexivity.
Qed.

Lemma C8_witness :
  0 <= 50 < 2 ^ 62 /\ Z.of_nat 3 < 2 ^ 61
  /\ exists e,
       ParseWithKeywords_trace initDetectionRules (padded_sample 3) [] 50
         = Some [e]
       /\ Offset (result e) = 71.
Proof.
  assert (Hc : 0 <= 50 < 2 ^ 62)
    by (vm_compute; split; [ discriminate | reflexivity ]).
  assert (Hn : Z.of_nat 3 < 2 ^ 61) by (vm_compute; reflexivity).
  split; [ exact Hc | ]. split; [ exact Hn | ].
  destruct (C8_password_scenario 3 50 Hc Hn)
    as (e & Ht & _ & _ & _ & _ & _ & Ho & _).
  exists e. split; [ exact Ht | exact Ho ].
Defined.

(** C9: for every file list and configuration, a run of [scanFiles] with
    any two pool sizes of at least one slot can be completed, and all
    complete runs end in the same configuration, whatever the schedule:
    either the process died because [Parse] panics on some file, or the
    shared map holds, for each file, exactly the list [Parse] returns for
    it (when not empty), in the order [Parse] produced it. *)
Theorem C9_results_independent_of_pool_size
  (ReadFile : list byte -> option (list byte))
  (isBinaryFile : list byte -> bool)
  (otherParsers : list byte -> list (list byte) -> option (list (list byte)))
  (Keywords : list (list byte)) (contextLength : Z)
  (files : list (list byte)) (n1 n2 : nat) :
  (1 <= n1)%nat -> (1 <= n2)%nat ->
  (exists c,
     scanFiles ReadFile isBinaryFile otherParsers Keywords contextLength
               n1 files c)
  /\ (exists c,
        scanFiles ReadFile isBinaryFile otherParsers Keywords contextLength
                  n2 files c)
  /\ forall c1 c2,
       scanFiles ReadFile isBinaryFile otherParsers Keywords contextLength
                 n1 files c1 ->
       scanFiles ReadFile isBinaryFile otherParsers Keywords contextLength
                 n2 files c2 ->
       c1 = c2
       /\ match c1 with
          | Run _ _ fileResults =>
              fileResults
              = expectedResults ReadFile isBinaryFile otherParsers Keywords
                                contextLength files
          | Crashed =>
              exists path,
                In path files
                /\ Parse ReadFile isBinaryFile otherParsers Keywords
                         contextLength path = None
          end.
Proof.
  intros H1 H2.
  split; [ apply scanFiles_exists; exact H1 | ].
  split; [ apply scanFiles_exists; exact H2 | ].
  intros c1 c2 S1 S2.
  apply scanFiles_outcome in S1. apply scanFiles_outcome in S2.
  split; [ eapply outcome_unique; eassumption | ].
  destruct c1 as [pending running fr|]; [ | exact S1 ].
  destruct S1 as (_ & _ & Hfr & _). exact Hfr.
Qed.

Lemma C9_witness :
  (1 <= 1)%nat /\ (1 <= 8)%nat
  /\ forall c1 c2,
       scanFiles sample_ReadFile sample_isBinaryFile sample_otherParsers
                 [] 50 1 sample_files c1 ->
       scanFiles sample_ReadFile sample_isBinaryFile sample_otherParsers
                 [] 50 8 sample_files c2 ->
       c1 = c2.
Proof.
  assert (Ha : (1 <= 1)%nat) by lia.
  assert (Hb : (1 <= 8)%nat) by lia.
  split; [ exact Ha | ]. split; [ exact Hb | ].
  intros c1 c2 S1 S2.
  apply (proj2 (proj2 (C9_results_independent_of_pool_size
                         sample_ReadFile sample_isBinaryFile
                         sample_otherParsers [] 50 sample_files 1 8 Ha Hb))
               c1 c2 S1 S2).
Defined.

(** Two schedules of the sample run that complete: one slot with the files
    in order, and eight slots with every goroutine admitted first and the
    results stored in another order. *)
Example sample_run_one_slot :
  exists fileResults,
    scanFiles sample_ReadFile sample_isBinaryFile sample_otherParsers [] 50 1
      sample_files (Run [] [] fileResults).
Proof.
  eexists. split; [ | split; reflexivity ].
  unfold sample_files.
  eapply steps_cons.
  { apply (step_acquire _ _ _ _ _ 1%nat (s2b "a.exe") [] _ [] ∅). simpl; lia. }
  eapply steps_cons.
  { eapply (step_finish _ _ _ _ _ 1%nat (s2b "a.exe") _ _ [] []).
    vm_compute. reflexivity. }
  eapply steps_cons.
  { apply (step_acquire _ _ _ _ _ 1%nat (s2b "b.txt") [] _ []). simpl; lia. }
  eapply steps_cons.
  { eapply (step_finish _ _ _ _ _ 1%nat (s2b "b.txt") _ _ [] []).
    vm_compute. reflexivity. }
  eapply steps_cons.
  { apply (step_acquire _ _ _ _ _ 1%nat (s2b "c.exe") [] _ []). simpl; lia. }
  eapply steps_cons.
  { eapply (step_finish _ _ _ _ _ 1%nat (s2b "c.exe") _ _ [] []).
    vm_compute. reflexivity. }
  apply steps_refl.
Qed.

Example sample_run_eight_slots :
  exists fileResults,
    scanFiles sample_ReadFile sample_isBinaryFile sample_otherParsers [] 50 8
      sample_files (Run [] [] fileResults).
Proof.
  eexists. split; [ | split; reflexivity ].
  unfold sample_files.
  eapply steps_cons.
  { apply (step_acquire _ _ _ _ _ 8%nat (s2b "b.txt") [s2b "a.exe"] _ [] ∅).
    simpl; lia. }
  eapply steps_cons.
  { apply (step_acquire _ _ _ _ _ 8%nat (s2b "c.exe") [s2b "a.exe"] []).
    simpl; lia. }
  eapply steps_cons.
  { apply (step_acquire _ _ _ _ _ 8%nat (s2b "a.exe") [] []). simpl; lia. }
  simpl app.
  eapply steps_cons.
  { eapply (step_finish _ _ _ _ _ 8%nat (s2b "b.txt") _ _
              [s2b "a.exe"; s2b "c.exe"] []).
    vm_compute. reflexivity. }
  eapply steps_cons.
  { eapply (step_finish _ _ _ _ _ 8%nat (s2b "c.exe") _ _ [s2b "a.exe"] []).
    vm_compute. reflexivity. }
  eapply steps_cons.
  { eapply (step_finish _ _ _ _ _ 8%nat (s2b "a.exe") _ _ [] []).
    vm_compute. reflexivity. }
  apply steps_refl.
Qed.

(** C10: at most one line of a run carries the unresolved offset -1. *)
Theorem C10_at_most_one_unresolved (data : list byte)
  (keywords : list (list byte)) (contextLen : Z) (t : list Emitted) :
  ParseWithKeywords_trace initDetectionRules data keywords contextLen
    = Some t ->
  (List.length (List.filter (fun e => (Offset (result e) =? -1)%Z) t) <= 1)%nat.
Proof.
  intros H. apply trace_structure in H. destruct H as (Hnd & _).
  pose proof (NoDup_count_le_1 (-1) _ Hnd) as Hc.
  rewrite <- (filter_map_length (fun y => y =? -1) off) in Hc. exact Hc.
Qed.

Lemma C10_witness :
  exists t,
    ParseWithKeywords_trace initDetectionRules
      (buffer_utf16 "mypassword" ++ [zero; zero] ++ utf16le (s2b "userlogin1"))
      [s2b "password"; s2b "login"] 50 = Some t
    /\ (List.length (List.filter (fun e => (Offset (result e) =? -1)%Z) t) <= 1)%nat.
Proof.
  eexists. split; [ vm_compute; reflexivity | ].
  eapply (C10_at_most_one_unresolved
            (buffer_utf16 "mypassword" ++ [zero; zero] ++ utf16le (s2b "userlogin1"))
            [s2b "password"; s2b "login"] 50).
  vm_compute. reflexivity.
Defined.

(** * Further properties of the code *)

(** ** The format validator on any buffer *)

Lemma isValidPEFile_short (data : list byte) :
  len data < 64 -> isValidPEFile data = Some false.
Proof.
  intros Hlen. unfold isValidPEFile.
  destruct (len data <? 2) eqn:E2; [ reflexivity | ].
  apply Z.ltb_ge in E2.
  destruct data as [ | b0 [ | b1 t ] ];
    [ unfold len in E2; simpl in E2; lia
    | unfold len in E2; simpl in E2; lia | ].
  rewrite (slice_in_range (b0 :: b1 :: t) 0 2) by lia.
  cbn [mbind option_bind Z.to_nat Z.sub Z.opp Z.add Pos.to_nat Pos.iter_op
       Nat.add skipn firstn Uint16 option_ret mret].
  simpl.
  destruct (negb _); [ reflexivity | ].
  replace (len (b0 :: b1 :: t) <? 64) with true
    by (symmetry; apply Z.ltb_lt; exact Hlen).
  reflexivity.
Qed.

Lemma isValidPEFile_fails (data : list byte) :
  fails_validation data -> 64 <= len data -> isValidPEFile data = Some false.
Proof.
  intros Hf Hl. rewrite isValidPEFile_spec by exact Hl.
  destruct Hf as [H | [H | H]]; [ lia | | ].
  - destruct (Z.eq_dec (le16 data 0) 23117) as [E | E];
      [ contradiction | reflexivity ].
  - destruct (Z.eq_dec (le16 data 0) 23117) as [E | E]; [ | reflexivity ].
    cbv zeta in H.
    destruct (Z_le_dec (le32 data 60 + 4) (len data)) as [Hp | Hp];
      [ | reflexivity ].
    destruct H as [H | H]; [ contradiction | ].
    destruct (Z.eqb_spec (le32 data (le32 data 60)) 17744) as [Hpe | Hpe];
      [ contradiction | reflexivity ].
Qed.

(** X1: [isValidPEFile] returns on every buffer, whatever its length, and
    returns [true] exactly on the buffers that do not fail format
    validation. *)
Theorem X1_isValidPEFile_any_buffer (data : list byte) :
  exists b,
    isValidPEFile data = Some b /\ (b = true <-> ~ fails_validation data).
Proof.
  destruct (Z_lt_dec (len data) 64) as [Hs | Hl].
  - exists false. split; [ apply isValidPEFile_short; exact Hs | ].
    split; [ discriminate | ].
    intros H. exfalso. apply H. left. exact Hs.
  - rewrite isValidPEFile_spec by lia.
    eexists. split; [ reflexivity | ].
    unfold fails_validation.
    destruct (Z.eq_dec (le16 data 0) 23117) as [Hmz | Hmz].
    + destruct (Z_le_dec (le32 data 60 + 4) (len data)) as [Hp | Hp].
      * destruct (Z.eqb_spec (le32 data (le32 data 60)) 17744) as [Hpe | Hpe].
        -- split; [ | reflexivity ]. intros _ [H | [H | [H | H]]];
             [ lia | apply H; exact Hmz | apply H; exact Hp
             | apply H; exact Hpe ].
        -- split; [ discriminate | ]. intros H. exfalso. apply H.
           right. right. right. exact Hpe.
      * split; [ discriminate | ]. intros H. exfalso. apply H.
        right. right. left. exact Hp.
    + split; [ discriminate | ]. intros H. exfalso. apply H.
      right. left. exact Hmz.
Qed.

(** ** A negative context length *)

Lemma formatBinaryResult_negative (res : BinaryMatchResult) (mt : list byte)
  (contextLen : Z) :
  contextLen < 0 -> formatBinaryResult res mt contextLen = None.
Proof.
  intros Hneg. unfold formatBinaryResult.
  pose proof (len_nonneg (Context res)) as Hl.
  replace (contextLen <? len (Context res)) with true
    by (symmetry; apply Z.ltb_lt; lia).
  unfold slice_to, slice.
  replace (0 <=? contextLen) with false by (symmetry; apply Z.leb_gt; lia).
  reflexivity.
Qed.

Lemma trace_lines_formatted rules data keywords contextLen t e :
  ParseWithKeywords_trace rules data keywords contextLen = Some t ->
  In e t -> formatted contextLen e.
Proof.
  intros Ht He.
  destruct (trace_structure _ _ _ _ _ Ht) as (_ & _ & l1 & l2 & l3 & -> & H1 & H2 & H3).
  rewrite List.Forall_forall in H1, H2, H3.
  apply in_app_or in He. destruct He as [He | He].
  - apply H1 in He. destruct He as (_ & Hf & _). exact Hf.
  - apply in_app_or in He. destruct He as [He | He].
    + apply H2 in He. destruct He as (_ & Hf & _). exact Hf.
    + apply H3 in He. destruct He as (_ & Hf & _). exact Hf.
Qed.

(** X2: with a negative context length the engine never returns a finding:
    a run that returns has no line at all, and the run on the padded
    password sample, which has a finding to format, panics. *)
Theorem X2_negative_context_length (data : list byte)
  (keywords : list (list byte)) (contextLen : Z) (n : nat) :
  contextLen < 0 ->
  (forall lines,
     ParseWithKeywords data keywords contextLen = Some lines -> lines = [])
  /\ ParseWithKeywords (padded_sample n) keywords contextLen = None.
Proof.
  intros Hneg. split.
  - intros lines Hl. unfold ParseWithKeywords in Hl.
    destruct (ParseWithKeywords_trace initDetectionRules data keywords
                contextLen) as [t | ] eqn:Ht; [ | discriminate Hl ].
    injection Hl as <-.
    destruct t as [ | e t ]; [ reflexivity | exfalso ].
    pose proof (trace_lines_formatted _ _ _ _ _ e Ht (or_introl eq_refl))
      as Hf.
    unfold formatted in Hf.
    rewrite formatBinaryResult_negative in Hf by exact Hneg.
    discriminate Hf.
  - unfold ParseWithKeywords, ParseWithKeywords_trace.
    destruct (Z.ltb_spec (len (padded_sample n)) 64) as [Hlt | _];
      [ rewrite padded_sample_len in Hlt; lia | ].
    rewrite padded_sample_valid. cbn [mbind option_bind negb].
    rewrite extractMeaningfulStrings_padded.
    unfold rulePass. cbn [foldM].
    rewrite padded_sample_rules.
    destruct (getStringContext (padded_sample n) (68 + Z.of_nat n) contextLen)
      as [cx | ]; [ | reflexivity ].
    cbn [mbind option_bind foldM]. unfold emitResult.
    rewrite bool_decide_eq_false_2 by set_solver.
    rewrite formatBinaryResult_negative by exact Hneg.
    reflexivity.
Qed.

(** The minimal header alone, with the context length -1: the run returns,
    with no line. *)
Lemma X2_witness :
  -1 < 0
  /\ ParseWithKeywords minimal_header [s2b "password"] (-1) = Some []
  /\ ParseWithKeywords (padded_sample 0) [s2b "password"] (-1) = None.
Proof.
  split; [ lia | ].
  split; [ vm_compute; reflexivity | ].
  apply (X2_negative_context_length minimal_header [s2b "password"] (-1) 0).
  lia.
Defined.

(** ** Rules without a capture group *)

Lemma FindAllStringSubmatch_len (r : re) (s : list byte) (m : list (list byte)) :
  In m (FindAllStringSubmatch r s) -> len m = 1 + Z.of_nat (ngroups r).
Proof.
  unfold FindAllStringSubmatch. intros H. apply in_map_iff in H.
  destruct H as ([[st e] c] & <- & _).
  unfold len. cbn [List.length]. rewrite List.length_map, List.length_seq. lia.
Qed.

Lemma checkMatchEx_finding rule str data contextLen m results r :
  checkMatchEx rule str data contextLen m = Some results ->
  In r results ->
  1 < len m
  /\ RuleName r = Name rule
  /\ ResRiskLevel r = RiskLevel rule
  /\ MatchedValue r = (if 2 <? len m then sm m 2 else sm m 1)
  /\ isValidCredential (MatchedValue r) = true.
Proof.
  unfold checkMatchEx.
  destruct (1 <? len m) eqn:E1; [ | intros H; inversion H; subst; intros [] ].
  apply Z.ltb_lt in E1.
  set (matchedValue := if 2 <? len m then sm m 2 else sm m 1).
  destruct (isValidCredential matchedValue) eqn:Ev;
    [ | intros H; inversion H; subst; intros [] ].
  match goal with
  | |- context [mbind _ ?o] => destruct o as [offset | ]; [ | discriminate ]
  end.
  cbn [mbind option_bind].
  destruct (getStringContext data offset contextLen) as [context | ];
    [ | discriminate ].
  cbn [mbind option_bind].
  match goal with
  | |- context [if ?b then _ else _] => destruct b
  end.
  - destruct (truncateForContext str contextLen); [ | discriminate ].
    cbn [mbind option_bind]. intros H. inversion H; subst.
    intros [<- | []]. simpl. auto.
  - cbn [mbind option_bind]. intros H. inversion H; subst.
    intros [<- | []]. simpl. auto.
Qed.

Lemma checkBase64MatchEx_groups rule data base64Str decoded start contextLen
  m results r :
  checkBase64MatchEx rule data base64Str decoded start contextLen m
    = Some results ->
  In r results -> 1 < len m.
Proof.
  unfold checkBase64MatchEx.
  destruct (len m <? 2) eqn:E2; [ intros H; inversion H; subst; intros [] | ].
  apply Z.ltb_ge in E2. intros _ _. lia.
Qed.

(** A finding of [checkStringWithRulesEx] names a rule of the list whose
    pattern has a capture group. *)
Lemma checkStringWithRulesEx_finding rules str data contextLen results r :
  checkStringWithRulesEx rules str data contextLen = Some results ->
  In r results ->
  exists rule,
    In rule rules /\ (1 <= ngroups (Pattern rule))%nat
    /\ RuleName r = Name rule /\ ResRiskLevel r = RiskLevel rule
    /\ isValidCredential (MatchedValue r) = true.
Proof.
  unfold checkStringWithRulesEx. intros H Hr.
  destruct (concatMapM_In _ _ _ _ H Hr) as (rule & zs & Hrule & Hf & Hz).
  destruct (concatMapM_In _ _ _ _ Hf Hz) as (m & ws & Hm & Hc & Hw).
  destruct (checkMatchEx_finding _ _ _ _ _ _ _ Hc Hw)
    as (Hlen & Hn & Hl & _ & Hv).
  apply FindAllStringSubmatch_len in Hm.
  exists rule. repeat split; auto. lia.
Qed.

Lemma checkBase64EncodedEx_groups rules data contextLen results r :
  checkBase64EncodedEx rules data contextLen = Some results ->
  In r results ->
  exists rule,
    In rule rules /\ (1 <= ngroups (Pattern rule))%nat
    /\ RuleName r = Name rule ++ base64_suffix
    /\ ResRiskLevel r = RiskLevel rule
    /\ isValidCredential (MatchedValue r) = true.
Proof.
  unfold checkBase64EncodedEx. intros H Hr.
  destruct (concatMapM_In _ _ _ _ H Hr) as ([start end_] & zs & Hm & Hf & Hz).
  unfold checkBase64RunEx in Hf.
  destruct (DecodeString (sub data start end_)) as [decoded | ] eqn:Ed;
    [ | inversion Hf; subst; destruct Hz ].
  destruct (isText decoded) eqn:Et; cbn [negb] in Hf;
    [ | inversion Hf; subst; destruct Hz ].
  destruct (concatMapM_In _ _ _ _ Hf Hz) as (rule & ws & Hrule & Hg & Hw).
  destruct (concatMapM_In _ _ _ _ Hg Hw) as (m & vs & Hmm & Hc & Hv).
  pose proof (checkBase64MatchEx_groups _ _ _ _ _ _ _ _ _ Hc Hv) as Hlen.
  destruct (checkBase64MatchEx_finding _ _ _ _ _ _ _ _ _ Hc Hv)
    as (N1 & N2 & _ & N4 & _).
  apply FindAllStringSubmatch_len in Hmm.
  exists rule. repeat split; auto. lia.
Qed.

Lemma capture_rules_of_corpus (rule : DetectionRule) :
  In rule initDetectionRules -> (1 <= ngroups (Pattern rule))%nat ->
  In (Name rule) capture_rule_names.
Proof.
  intros Hin Hg. unfold initDetectionRules in Hin.
  repeat (destruct Hin as [<- | Hin];
          [ first [ exfalso; vm_compute in Hg; lia
                  | vm_compute; tauto ] | ]).
  destruct Hin.
Qed.

(** X3: every finding of the rule pass and of the base64 pass comes from a
    rule whose pattern has a capture group, so it carries one of five rule
    names (followed by the base64 suffix in the base64 pass) and that
    rule's risk level; the eight rules without a group never produce a
    finding. Its matched value passes [isValidCredential]. *)
Theorem X3_findings_need_a_capture_group (data : list byte)
  (keywords : list (list byte)) (contextLen : Z) (t : list Emitted)
  (e : Emitted) :
  ParseWithKeywords_trace initDetectionRules data keywords contextLen
    = Some t ->
  In e t -> matchType e <> mt_keyword ->
  isValidCredential (MatchedValue (result e)) = true
  /\ exists rule,
       In rule initDetectionRules
       /\ (1 <= ngroups (Pattern rule))%nat
       /\ In (Name rule) capture_rule_names
       /\ ResRiskLevel (result e) = RiskLevel rule
       /\ ((matchType e = mt_rule /\ RuleName (result e) = Name rule)
           \/ (matchType e = mt_base64
               /\ RuleName (result e) = Name rule ++ base64_suffix)).
Proof.
  intros Ht He Hk.
  destruct (trace_structure _ _ _ _ _ Ht)
    as (_ & _ & l1 & l2 & l3 & -> & H1 & H2 & H3).
  rewrite List.Forall_forall in H1, H2, H3.
  apply in_app_or in He. destruct He as [He | He].
  - apply H1 in He. destruct He as (Hmt & _ & str & results & _ & Hc & Hr).
    destruct (checkStringWithRulesEx_finding _ _ _ _ _ _ Hc Hr)
      as (rule & Hin & Hg & Hn & Hl & Hv).
    split; [ exact Hv | ]. exists rule.
    repeat split; auto using capture_rules_of_corpus.
  - apply in_app_or in He. destruct He as [He | He].
    + apply H2 in He. destruct He as (Hmt & _). contradiction.
    + apply H3 in He. destruct He as (Hmt & _ & results & Hc & Hr).
      destruct (checkBase64EncodedEx_groups _ _ _ _ _ Hc Hr)
        as (rule & Hin & Hg & Hn & Hl & Hv).
      split; [ exact Hv | ]. exists rule.
      repeat split; auto using capture_rules_of_corpus.
Qed.

(** The password sample: its one finding is of the password rule. *)
Lemma X3_witness :
  exists e,
    ParseWithKeywords_trace initDetectionRules password_sample [] 50
      = Some [e]
    /\ isValidCredential (MatchedValue (result e)) = true
    /\ exists rule,
         In rule initDetectionRules
         /\ (1 <= ngroups (Pattern rule))%nat
         /\ In (Name rule) capture_rule_names
         /\ ResRiskLevel (result e) = RiskLevel rule
         /\ ((matchType e = mt_rule /\ RuleName (result e) = Name rule)
             \/ (matchType e = mt_base64
                 /\ RuleName (result e) = Name rule ++ base64_suffix)).
Proof.
  assert (Ht : exists e,
             ParseWithKeywords_trace initDetectionRules password_sample [] 50
               = Some [e]
             /\ matchType e <> mt_keyword).
  { eexists. split; [ vm_compute; reflexivity | ]. vm_compute. discriminate. }
  destruct Ht as (e & Ht & Hk). exists e. split; [ exact Ht | ].
  apply (X3_findings_need_a_capture_group password_sample [] 50 [e] e Ht);
    [ left; reflexivity | exact Hk ].
Defined.

(** ** [strings.Index] finds the first occurrence *)

Lemma len_app {A} (a b : list A) : len (a ++ b) = len a + len b.
Proof. unfold len. rewrite List.length_app. lia. Qed.

Lemma len_cons {A} (x : A) (l : list A) : len (x :: l) = 1 + len l.
Proof. unfold len. cbn [List.length]. lia. Qed.

Lemma has_prefix_spec (s p : list byte) :
  has_prefix s p = true <-> exists post, s = p ++ post.
Proof.
  revert s. induction p as [ | y p IH ]; intros s.
  - destruct s; simpl; split; eauto.
  - destruct s as [ | x s ]; simpl.
    + split; [ discriminate | intros (post & H); discriminate H ].
    + rewrite andb_true_iff, byte_eqb_eq, IH. split.
      * intros (-> & post & ->). eauto.
      * intros (post & H). injection H as -> ->. eauto.
Qed.

Lemma Index_from_spec (s substr : list byte) :
  forall i,
    0 <= i ->
    (Index_from i s substr = -1
     /\ forall pre post, s <> pre ++ substr ++ post)
    \/ (exists pre post,
          s = pre ++ substr ++ post
          /\ Index_from i s substr = i + len pre
          /\ forall pre' post',
               s = pre' ++ substr ++ post' -> len pre <= len pre').
Proof.
  induction s as [ | x s IH ]; intros i Hi.
  - rewrite Index_from_nil.
    destruct (has_prefix [] substr) eqn:E.
    + right. apply has_prefix_spec in E. destruct E as (post & E).
      exists [], post. split; [ exact E | ].
      split; [ unfold len; simpl; lia | ].
      intros pre' post' _. unfold len. simpl. lia.
    + left. split; [ reflexivity | ].
      intros pre post H. destruct pre; [ | discriminate H ].
      assert (Hp : has_prefix [] substr = true)
        by (apply has_prefix_spec; exists post; exact H).
      congruence.
  - rewrite Index_from_cons.
    destruct (has_prefix (x :: s) substr) eqn:E.
    + right. apply has_prefix_spec in E. destruct E as (post & E).
      exists [], post. split; [ exact E | ].
      split; [ unfold len; simpl; lia | ].
      intros pre' post' _. unfold len. simpl. lia.
    + assert (Hnot : forall post, x :: s <> substr ++ post).
      { intros post H.
        assert (Hp : has_prefix (x :: s) substr = true)
          by (apply has_prefix_spec; exists post; exact H).
        congruence. }
      destruct (IH (i + 1)) as [(Hm & Hno) | (pre & post & Hs & Hidx & Hfirst)];
        [ lia | | ].
      * left. split; [ exact Hm | ].
        intros pre post H. destruct pre as [ | y pre ].
        -- apply (Hnot post). exact H.
        -- injection H as _ H. apply (Hno pre post). exact H.
      * right. exists (x :: pre), post.
        split; [ simpl; rewrite Hs; reflexivity | ].
        split; [ rewrite Hidx, len_cons; lia | ].
        intros pre' post' H. destruct pre' as [ | y pre' ].
        -- exfalso. apply (Hnot post'). exact H.
        -- injection H as _ H. apply Hfirst in H.
           rewrite !len_cons. lia.
Qed.

(** [findStringOffset] returns the position of the first occurrence, and
    -1 exactly when there is none. *)
Lemma findStringOffset_first (data str : list byte) :
  (findStringOffset data str = -1 /\ forall i, ~ occurs_at data str i)
  \/ first_occurrence data str (findStringOffset data str).
Proof.
  unfold findStringOffset, Index.
  destruct (Index_from_spec data str 0 ltac:(lia))
    as [(Hm & Hno) | (pre & post & Hs & Hidx & Hfirst)].
  - left. split; [ exact Hm | ].
    intros i (pre & post & H & _). exact (Hno pre post H).
  - right. rewrite Hidx. split.
    + exists pre, post. split; [ exact Hs | lia ].
    + intros j (pre' & post' & H & <-). apply Hfirst in H. lia.
Qed.

Lemma occurs_at_resolved (data str : list byte) (i : Z) :
  occurs_at data str i -> findStringOffset data str <> -1.
Proof.
  intros Ho. destruct (findStringOffset_first data str) as [(_ & Hno) | Hf].
  - exfalso. exact (Hno i Ho).
  - destruct Hf as ((pre & post & _ & Hl) & _).
    pose proof (len_nonneg pre). lia.
Qed.

(** ** Candidate strings *)

Lemma of_Z_bz (b : byte) : of_Z (bz b) = b.
Proof.
  unfold of_Z, bz. rewrite N2Z.id, Byte.of_to_N. reflexivity.
Qed.

Lemma bz_zero (b : byte) : bz b = 0 -> b = zero.
Proof.
  intros H. rewrite <- (of_Z_bz b), H. reflexivity.
Qed.

Lemma utf16le_app (a b : list byte) :
  utf16le (a ++ b) = utf16le a ++ utf16le b.
Proof.
  induction a as [ | x a IH ]; simpl; [ reflexivity | ].
  rewrite IH. reflexivity.
Qed.

Lemma utf16_unit (b0 b1 : byte) :
  let char := Z.lor (bz b0) (Z.shiftl (bz b1) 8) in
  32 <= char <= 126 -> b1 = zero /\ of_Z char = b0.
Proof.
  intros char Hc. subst char.
  pose proof (bz_range b0) as H0. pose proof (bz_range b1) as H1.
  rewrite lor_shiftl_add in * by (change (2 ^ 8) with 256; lia).
  change (2 ^ 8) with 256 in *.
  assert (Hz : bz b1 = 0) by lia.
  split; [ apply bz_zero; exact Hz | ].
  rewrite Hz, Z.mul_0_r, Z.add_0_r. apply of_Z_bz.
Qed.

Lemma isMeaningfulString_shape (str : list byte) :
  isMeaningfulString str = true ->
  8 <= len str <= 500 /\ isLikelyGarbage str = false.
Proof.
  unfold isMeaningfulString.
  destruct ((500 <? len str) || (len str <? 8)) eqn:E; [ discriminate | ].
  apply orb_false_iff in E. destruct E as [E1 E2].
  apply Z.ltb_ge in E1, E2.
  destruct (isLikelyGarbage str); [ discriminate | ].
  intros _. split; [ lia | reflexivity ].
Qed.

Lemma extractAscii_loop_occurs (full data : list byte) :
  forall current stringSet results,
    (exists pre, full = pre ++ current ++ data) ->
    Forall (kept8 full) results ->
    let '(current', _, results') :=
      extractAscii_loop data current stringSet results in
    (exists pre, full = pre ++ current') /\ Forall (kept8 full) results'.
Proof.
  induction data as [ | b data IH ]; intros cur set results (pre & Hf) Hr;
    simpl.
  - split; [ | exact Hr ]. exists pre. rewrite app_nil_r in Hf. exact Hf.
  - destruct (printable b) eqn:Eb.
    + apply IH; [ | exact Hr ].
      exists pre. rewrite Hf, <- app_assoc. reflexivity.
    + destruct ((8 <=? len cur) && negb (in_set cur set)
                && isMeaningfulString cur) eqn:E.
      * apply IH.
        -- exists (pre ++ cur ++ [b]). rewrite Hf, <- !app_assoc. reflexivity.
        -- apply Forall_app. split; [ exact Hr | ].
           constructor; [ | constructor ].
           apply andb_true_iff in E. destruct E as [_ E].
           split; [ exact E | ].
           exists (len pre), pre, (b :: data). split; [ exact Hf | reflexivity ].
      * apply IH; [ | exact Hr ].
        exists (pre ++ cur ++ [b]). rewrite Hf, <- !app_assoc. reflexivity.
Qed.

Lemma extractUTF16_loop_occurs (full data : list byte) :
  forall n currentString results,
    (List.length data <= n)%nat ->
    (exists pre, full = pre ++ utf16le (utf16_string currentString) ++ data) ->
    Forall (kept16 full) results ->
    let '(currentString', results') :=
      extractUTF16_loop data currentString results in
    (exists pre post, full = pre ++ utf16le (utf16_string currentString') ++ post)
    /\ Forall (kept16 full) results'.
Proof.
  intros n. revert data.
  induction n as [ | n IH ]; intros data cur results Hn (pre & Hf) Hr.
  - destruct data; [ | simpl in Hn; lia ]. simpl. split; [ | exact Hr ].
    exists pre, []. exact Hf.
  - destruct data as [ | b0 [ | b1 data' ] ].
    + simpl. split; [ | exact Hr ]. exists pre, []. exact Hf.
    + simpl. split; [ | exact Hr ]. exists pre, [b0]. exact Hf.
    + cbn [extractUTF16_loop].
      set (char := Z.lor (bz b0) (Z.shiftl (bz b1) 8)).
      destruct ((32 <=? char) && (char <=? 126)) eqn:E.
      * apply andb_true_iff in E. destruct E as [E1 E2].
        apply Z.leb_le in E1, E2.
        destruct (utf16_unit b0 b1) as [Hb1 Hb0]; [ fold char; lia | ].
        fold char in Hb0.
        apply IH; [ simpl in Hn; lia | | exact Hr ].
        exists pre. unfold utf16_string. rewrite map_app, utf16le_app.
        cbn [map utf16le]. rewrite Hb0, <- Hb1, <- app_assoc. exact Hf.
      * apply IH; [ simpl in Hn; lia | | ].
        -- exists (pre ++ utf16le (utf16_string cur) ++ [b0; b1]).
           rewrite Hf, <- !app_assoc. reflexivity.
        -- destruct (8 <=? len cur); [ | exact Hr ].
           destruct (isMeaningfulString (utf16_string cur)) eqn:Em;
             [ | exact Hr ].
           apply Forall_app. split; [ exact Hr | ].
           constructor; [ | constructor ]. split; [ exact Em | ].
           exists (len pre), pre, (b0 :: b1 :: data').
           split; [ exact Hf | reflexivity ].
Qed.

Lemma extractUTF16Strings_occurs (data : list byte) :
  Forall (kept16 data) (extractUTF16Strings data).
Proof.
  unfold extractUTF16Strings.
  pose proof (extractUTF16_loop_occurs data data (List.length data) [] []
                (le_n _) (ex_intro _ [] eq_refl) (List.Forall_nil _)) as H.
  destruct (extractUTF16_loop data [] []) as [cur results].
  destruct H as ((pre & post & Hf) & Hr).
  destruct (8 <=? len cur); [ | exact Hr ].
  destruct (isMeaningfulString (utf16_string cur)) eqn:Em; [ | exact Hr ].
  apply Forall_app. split; [ exact Hr | ].
  constructor; [ | constructor ]. split; [ exact Em | ].
  exists (len pre), pre, post. split; [ exact Hf | reflexivity ].
Qed.

Lemma extractUTF16_merge_occurs (full : list byte)
  (utf16Strings : list (list byte)) :
  forall stringSet results,
    Forall (kept16 full) utf16Strings ->
    Forall (fun s => kept8 full s \/ kept16 full s) results ->
    Forall (fun s => kept8 full s \/ kept16 full s)
           (extractUTF16_merge utf16Strings stringSet results).
Proof.
  induction utf16Strings as [ | str rest IH ]; intros set results Hu Hr; simpl.
  - exact Hr.
  - inversion Hu as [ | ? ? Hs Hrest ]; subst.
    destruct (negb (in_set str set) && isMeaningfulString str).
    + apply IH; [ exact Hrest | ].
      apply Forall_app. split; [ exact Hr | ].
      constructor; [ right; exact Hs | constructor ].
    + apply IH; assumption.
Qed.

Lemma extractMeaningfulStrings_occurs (data : list byte) :
  Forall (fun s => kept8 data s \/ kept16 data s)
         (extractMeaningfulStrings data).
Proof.
  unfold extractMeaningfulStrings.
  pose proof (extractAscii_loop_occurs data data [] [] []
                (ex_intro _ [] eq_refl) (List.Forall_nil _)) as H.
  destruct (extractAscii_loop data [] [] []) as [[cur set] results].
  destruct H as ((pre & Hf) & Hr).
  apply extractUTF16_merge_occurs; [ apply extractUTF16Strings_occurs | ].
  assert (Hr' : Forall (fun s => kept8 data s \/ kept16 data s) results).
  { revert Hr. apply List.Forall_impl. intros s Hs. left. exact Hs. }
  destruct ((8 <=? len cur) && negb (in_set cur set) && isMeaningfulString cur)
    eqn:E; [ | exact Hr' ].
  apply Forall_app. split; [ exact Hr' | ].
  constructor; [ | constructor ]. left.
  apply andb_true_iff in E. destruct E as [_ E]. split; [ exact E | ].
  exists (len pre), pre, []. rewrite app_nil_r. split; [ exact Hf | reflexivity ].
Qed.

(** X4: every candidate string of [extractMeaningfulStrings] consists of
    bytes in [32, 126], is between 8 and 500 bytes long, passes
    [isMeaningfulString] and is not likely garbage; and it is present in
    the buffer, either byte for byte or in its UTF-16LE form. *)
Theorem X4_candidate_strings (data str : list byte) :
  In str (extractMeaningfulStrings data) ->
  printable_string str
  /\ 8 <= len str <= 500
  /\ isMeaningfulString str = true
  /\ isLikelyGarbage str = false
  /\ ((exists i, occurs_at data str i)
      \/ (exists i, occurs_at data (utf16le str) i)).
Proof.
  intros Hin.
  pose proof (extractMeaningfulStrings_printable data) as Hp.
  pose proof (extractMeaningfulStrings_occurs data) as Ho.
  rewrite List.Forall_forall in Hp, Ho.
  specialize (Hp _ Hin). specialize (Ho _ Hin).
  assert (Hm : isMeaningfulString str = true)
    by (destruct Ho as [[Hm _] | [Hm _]]; exact Hm).
  destruct (isMeaningfulString_shape str Hm) as [Hl Hg].
  repeat split; try assumption; try lia.
  destruct Ho as [[_ Ho] | [_ Ho]]; [ left | right ]; exact Ho.
Qed.

(** The candidate of the UTF-16 sample is in the buffer in UTF-16LE form
    only. *)
Lemma X4_witness :
  let data := buffer_utf16 "mypassword" in
  In (s2b "mypassword") (extractMeaningfulStrings data)
  /\ findStringOffset data (s2b "mypassword") = -1
  /\ 8 <= len (s2b "mypassword") <= 500.
Proof.
  assert (Hin : In (s2b "mypassword")
                   (extractMeaningfulStrings (buffer_utf16 "mypassword")))
    by (vm_compute; left; reflexivity).
  split; [ exact Hin | ].
  split; [ vm_compute; reflexivity | ].
  apply (X4_candidate_strings (buffer_utf16 "mypassword") (s2b "mypassword")
           Hin).
Defined.

(** ** What an offset points at *)

Lemma mt_rule_not_keyword : mt_rule <> mt_keyword.
Proof. vm_compute. discriminate. Qed.

Lemma mt_base64_not_keyword : mt_base64 <> mt_keyword.
Proof. vm_compute. discriminate. Qed.

Lemma mt_base64_not_rule : mt_base64 <> mt_rule.
Proof. vm_compute. discriminate. Qed.

(** The lines of a pass, picked out of the trace by their match type. *)
Lemma trace_by_type rules data keywords contextLen t e :
  ParseWithKeywords_trace rules data keywords contextLen = Some t ->
  In e t ->
  (matchType e = mt_rule ->
   from_rules rules data contextLen (extractMeaningfulStrings data) e)
  /\ (matchType e = mt_keyword ->
      from_keywords data contextLen keywords (extractMeaningfulStrings data) e)
  /\ (matchType e = mt_base64 -> from_base64 rules data contextLen e).
Proof.
  intros Ht He.
  destruct (trace_structure _ _ _ _ _ Ht)
    as (_ & _ & l1 & l2 & l3 & -> & H1 & H2 & H3).
  rewrite List.Forall_forall in H1, H2, H3.
  apply in_app_or in He. destruct He as [He | He];
    [ | apply in_app_or in He; destruct He as [He | He] ].
  - pose proof (H1 _ He) as H. destruct H as (Hmt & _).
    split; [ intros _; apply H1; exact He | ].
    split; intros Hm; rewrite Hmt in Hm; exfalso.
    + exact (mt_rule_not_keyword Hm).
    + exact (mt_rule_not_base64 Hm).
  - pose proof (H2 _ He) as H. destruct H as (Hmt & _).
    split; [ intros Hm; rewrite Hmt in Hm; exfalso;
             apply mt_rule_not_keyword; symmetry; exact Hm | ].
    split; [ intros _; apply H2; exact He | ].
    intros Hm. rewrite Hmt in Hm. exfalso. exact (mt_keyword_not_base64 Hm).
  - pose proof (H3 _ He) as H. destruct H as (Hmt & _).
    split; [ intros Hm; rewrite Hmt in Hm; exfalso;
             exact (mt_base64_not_rule Hm) | ].
    split; [ intros Hm; rewrite Hmt in Hm; exfalso;
             exact (mt_base64_not_keyword Hm) | ].
    intros _. apply H3. exact He.
Qed.

Lemma candidate_unresolved (data str : list byte) :
  In str (extractMeaningfulStrings data) ->
  findStringOffset data str = -1 ->
  (forall i, ~ occurs_at data str i)
  /\ exists i, occurs_at data (utf16le str) i.
Proof.
  intros Hin Ho.
  assert (Hno : forall i, ~ occurs_at data str i).
  { intros i Hi. apply occurs_at_resolved in Hi. contradiction. }
  split; [ exact Hno | ].
  pose proof (extractMeaningfulStrings_occurs data) as H.
  rewrite List.Forall_forall in H.
  destruct (H _ Hin) as [(_ & i & Hi) | (_ & Hi)];
    [ exfalso; exact (Hno i Hi) | exact Hi ].
Qed.

(** X5: a finding of the keyword pass reports a candidate string that
    contains one of the keywords. Its offset is the first position at
    which that string occurs in the buffer; it is -1 only when the string
    is not in the buffer byte for byte, and then the buffer holds it in
    UTF-16LE form. *)
Theorem X5_keyword_offset_is_first_occurrence (data : list byte)
  (keywords : list (list byte)) (contextLen : Z) (t : list Emitted)
  (e : Emitted) :
  ParseWithKeywords_trace initDetectionRules data keywords contextLen
    = Some t ->
  In e t -> matchType e = mt_keyword ->
  In (MatchedValue (result e)) (extractMeaningfulStrings data)
  /\ (exists keyword,
        In keyword keywords
        /\ Contains (MatchedValue (result e)) keyword = true)
  /\ (first_occurrence data (MatchedValue (result e)) (Offset (result e))
      \/ (Offset (result e) = -1
          /\ (forall i, ~ occurs_at data (MatchedValue (result e)) i)
          /\ exists i, occurs_at data (utf16le (MatchedValue (result e))) i)).
Proof.
  intros Ht He Hk.
  destruct (trace_by_type _ _ _ _ _ _ Ht He) as (_ & H & _).
  destruct (H Hk) as (_ & _ & str & keyword & Hin & Hkw & Hc & Hv & Ho & _).
  rewrite Hv, Ho.
  split; [ exact Hin | ]. split; [ exists keyword; auto | ].
  destruct (findStringOffset_first data str) as [(Hm & _) | Hf].
  - right. split; [ exact Hm | ]. apply candidate_unresolved; assumption.
  - left. exact Hf.
Qed.

(** The keyword finding of the single-byte sample is at offset 68, that of
    the UTF-16 sample has no offset. *)
Lemma X5_witness :
  exists e,
    ParseWithKeywords_trace initDetectionRules
      (buffer_ascii "my secret config") [s2b "secret"] 50 = Some [e]
    /\ Offset (result e) = 68
    /\ In (MatchedValue (result e))
          (extractMeaningfulStrings (buffer_ascii "my secret config"))
    /\ (exists keyword,
          In keyword [s2b "secret"]
          /\ Contains (MatchedValue (result e)) keyword = true)
    /\ (first_occurrence (buffer_ascii "my secret config")
          (MatchedValue (result e)) (Offset (result e))
        \/ (Offset (result e) = -1
            /\ (forall i, ~ occurs_at (buffer_ascii "my secret config")
                              (MatchedValue (result e)) i)
            /\ exists i, occurs_at (buffer_ascii "my secret config")
                           (utf16le (MatchedValue (result e))) i)).
Proof.
  assert (Ht : exists e,
             ParseWithKeywords_trace initDetectionRules
               (buffer_ascii "my secret config") [s2b "secret"] 50 = Some [e]
             /\ Offset (result e) = 68
             /\ matchType e = mt_keyword).
  { eexists. split; [ vm_compute; reflexivity | ].
    split; vm_compute; reflexivity. }
  destruct Ht as (e & Ht & Ho & Hk). exists e.
  split; [ exact Ht | ]. split; [ exact Ho | ].
  apply (X5_keyword_offset_is_first_occurrence
           (buffer_ascii "my secret config") [s2b "secret"] 50 [e] e Ht);
    [ left; reflexivity | exact Hk ].
Defined.

(** The offset [checkMatchEx] gives a finding: that of the full match text
    when it is in the buffer; and -1 only when the candidate string is not
    in the buffer. *)
Lemma checkMatchEx_offsets rule str data contextLen m results r :
  checkMatchEx rule str data contextLen m = Some results ->
  In r results ->
  (findStringOffset data (sm m 0) <> -1 ->
   Offset r = findStringOffset data (sm m 0))
  /\ (Offset r = -1 -> findStringOffset data str = -1).
Proof.
  unfold checkMatchEx.
  destruct (1 <? len m); [ | intros H; inversion H; subst; intros [] ].
  set (matchedValue := if 2 <? len m then sm m 2 else sm m 1).
  destruct (isValidCredential matchedValue);
    [ | intros H; inversion H; subst; intros [] ].
  set (o1 := findStringOffset data (sm m 0)).
  set (o2 := if o1 =? -1 then findStringOffset data matchedValue else o1).
  set (o3 := if o2 =? -1 then findStringOffset data str else o2).
  assert (H3 : (o1 <> -1 -> o3 = o1)
               /\ (o3 = -1 -> findStringOffset data str = -1)).
  { subst o3 o2.
    destruct (Z.eqb_spec o1 (-1)) as [E1 | E1].
    - destruct (Z.eqb_spec (findStringOffset data matchedValue) (-1));
        split; intros; congruence.
    - destruct (Z.eqb_spec o1 (-1)); split; intros; congruence. }
  destruct H3 as [Ha Hb].
  destruct ((o3 =? -1) && (10 <? len matchedValue)) eqn:E.
  - apply andb_true_iff in E. destruct E as [E _].
    apply Z.eqb_eq in E.
    destruct (slice_to matchedValue 10) as [pre | ]; [ | discriminate ].
    cbn [mbind option_bind].
    destruct (getStringContext data _ contextLen) as [context | ];
      [ | discriminate ].
    cbn [mbind option_bind].
    match goal with
    | |- context [if ?b then _ else _] => destruct b
    end.
    + destruct (truncateForContext str contextLen); [ | discriminate ].
      cbn [mbind option_bind]. intros H. inversion H; subst results.
      intros [<- | []]. cbn [Offset].
      split; [ intros Hne; pose proof (Ha Hne); congruence | intros _; auto ].
    + cbn [mbind option_bind]. intros H. inversion H; subst results.
      intros [<- | []]. cbn [Offset].
      split; [ intros Hne; pose proof (Ha Hne); congruence | intros _; auto ].
  - cbn [mbind option_bind].
    destruct (getStringContext data o3 contextLen) as [context | ];
      [ | discriminate ].
    cbn [mbind option_bind].
    match goal with
    | |- context [if ?b then _ else _] => destruct b
    end.
    + destruct (truncateForContext str contextLen); [ | discriminate ].
      cbn [mbind option_bind]. intros H. inversion H; subst results.
      intros [<- | []]. cbn [Offset]. split; assumption.
    + cbn [mbind option_bind]. intros H. inversion H; subst results.
      intros [<- | []]. cbn [Offset]. split; assumption.
Qed.

Lemma occurs_at_trans (data str s : list byte) (i j : Z) :
  occurs_at data str i -> occurs_at str s j -> occurs_at data s (i + j).
Proof.
  intros (pre & post & -> & <-) (pre' & post' & -> & <-).
  exists (pre ++ pre'), (post' ++ post).
  split; [ rewrite <- !app_assoc; reflexivity | apply len_app ].
Qed.

Lemma match_text_occurs (r : re) (str : list byte) (m : list (list byte)) :
  In m (FindAllStringSubmatch r str) -> exists j, occurs_at str (sm m 0) j.
Proof.
  unfold FindAllStringSubmatch. intros H. apply in_map_iff in H.
  destruct H as ([[st e] c] & <- & _). cbn [sm nth]. unfold sub.
  exists (len (firstn st str)), (firstn st str),
    (skipn (e - st) (skipn st str)).
  split; [ | reflexivity ].
  rewrite firstn_skipn. symmetry. apply firstn_skipn.
Qed.

(** X6: a finding of the rule pass comes from a match of its rule in a
    candidate string. When that string is in the buffer byte for byte, the
    finding's offset is the first position at which the text of the whole
    match occurs in the buffer. The offset is -1 only when the string is
    not in the buffer byte for byte, and then the buffer holds it in
    UTF-16LE form. *)
Theorem X6_rule_offset_is_first_occurrence (data : list byte)
  (keywords : list (list byte)) (contextLen : Z) (t : list Emitted)
  (e : Emitted) :
  ParseWithKeywords_trace initDetectionRules data keywords contextLen
    = Some t ->
  In e t -> matchType e = mt_rule ->
  exists rule str m,
    In rule initDetectionRules
    /\ In str (extractMeaningfulStrings data)
    /\ In m (FindAllStringSubmatch (Pattern rule) str)
    /\ RuleName (result e) = Name rule
    /\ ((exists i, occurs_at data str i) ->
        first_occurrence data (sm m 0) (Offset (result e)))
    /\ (Offset (result e) = -1 ->
        (forall i, ~ occurs_at data str i)
        /\ exists i, occurs_at data (utf16le str) i).
Proof.
  intros Ht He Hk.
  destruct (trace_by_type _ _ _ _ _ _ Ht He) as (H & _ & _).
  destruct (H Hk) as (_ & _ & str & results & Hin & Hc & Hr).
  unfold checkStringWithRulesEx in Hc.
  destruct (concatMapM_In _ _ _ _ Hc Hr) as (rule & zs & Hrule & Hf & Hz).
  destruct (concatMapM_In _ _ _ _ Hf Hz) as (m & ws & Hm & Hcm & Hw).
  destruct (checkMatchEx_offsets _ _ _ _ _ _ _ Hcm Hw) as [Ha Hb].
  destruct (checkMatchEx_finding _ _ _ _ _ _ _ Hcm Hw) as (_ & Hn & _).
  exists rule, str, m.
  split; [ exact Hrule | ]. split; [ exact Hin | ].
  split; [ exact Hm | ]. split; [ exact Hn | ]. split.
  - intros (i & Hi).
    destruct (match_text_occurs _ _ _ Hm) as (j & Hj).
    pose proof (occurs_at_trans _ _ _ _ _ Hi Hj) as Hocc.
    pose proof (occurs_at_resolved _ _ _ Hocc) as Hne.
    rewrite (Ha Hne).
    destruct (findStringOffset_first data (sm m 0)) as [(Hm1 & _) | Hfo];
      [ contradiction | exact Hfo ].
  - intros Ho. apply candidate_unresolved; [ exact Hin | apply Hb; exact Ho ].
Qed.

(** The padded password sample: the offset is where the match text
    [password=Secr3t!123] first occurs. *)
Lemma X6_witness :
  exists e,
    ParseWithKeywords_trace initDetectionRules password_sample [] 50
      = Some [e]
    /\ Offset (result e) = 68
    /\ exists rule str m,
         In rule initDetectionRules
         /\ In str (extractMeaningfulStrings password_sample)
         /\ In m (FindAllStringSubmatch (Pattern rule) str)
         /\ RuleName (result e) = Name rule
         /\ ((exists i, occurs_at password_sample str i) ->
             first_occurrence password_sample (sm m 0) (Offset (result e)))
         /\ (Offset (result e) = -1 ->
             (forall i, ~ occurs_at password_sample str i)
             /\ exists i, occurs_at password_sample (utf16le str) i).
Proof.
  assert (Ht : exists e,
             ParseWithKeywords_trace initDetectionRules password_sample [] 50
               = Some [e]
             /\ Offset (result e) = 68
             /\ matchType e = mt_rule).
  { eexists. split; [ vm_compute; reflexivity | ].
    split; vm_compute; reflexivity. }
  destruct Ht as (e & Ht & Ho & Hk). exists e.
  split; [ exact Ht | ]. split; [ exact Ho | ].
  apply (X6_rule_offset_is_first_occurrence password_sample [] 50 [e] e Ht);
    [ left; reflexivity | exact Hk ].
Defined.

(** ** Contexts of the findings *)

(** X7: for a context length from 0 up, the context of every finding
    consists of bytes in [32, 126] and is at most [2 * contextLen + 3]
    bytes long; the one exception is a keyword finding without offset,
    whose context is the fixed text [无法定位]. *)
Theorem X7_contexts_are_printable (data : list byte)
  (keywords : list (list byte)) (contextLen : Z) (t : list Emitted)
  (e : Emitted) :
  admissible data contextLen ->
  ParseWithKeywords_trace initDetectionRules data keywords contextLen
    = Some t ->
  In e t ->
  (printable_string (Context (result e))
   /\ len (Context (result e)) <= 2 * contextLen + 3)
  \/ (matchType e = mt_keyword /\ Offset (result e) = -1
      /\ Context (result e) = unlocatable).
Proof.
  intros Ha Ht He.
  pose proof (trace_contexts _ _ _ _ _ Ha Ht) as H.
  rewrite List.Forall_forall in H. exact (H e He).
Qed.

Lemma X7_witness :
  exists e,
    ParseWithKeywords_trace initDetectionRules password_sample [] 50
      = Some [e]
    /\ ((printable_string (Context (result e))
         /\ len (Context (result e)) <= 2 * 50 + 3)
        \/ (matchType e = mt_keyword /\ Offset (result e) = -1
            /\ Context (result e) = unlocatable)).
Proof.
  assert (Ht : exists e,
             ParseWithKeywords_trace initDetectionRules password_sample [] 50
               = Some [e]).
  { eexists. vm_compute. reflexivity. }
  destruct Ht as (e & Ht). exists e. split; [ exact Ht | ].
  apply (X7_contexts_are_printable password_sample [] 50 [e] e);
    [ split; [ lia | vm_compute; reflexivity ] | exact Ht
    | left; reflexivity ].
Defined.

(** ** [TruncateString] *)

Lemma filter_len_le {A} (p : A -> bool) (l : list A) :
  len (List.filter p l) <= len l.
Proof.
  unfold len. pose proof (List.filter_length_le p l). lia.
Qed.


Lemma TruncateString_total (str : list byte) (maxLength : Z) :
  0 <= maxLength -> is_Some (TruncateString str maxLength).
Proof.
  intros Hm. unfold TruncateString.
  pose proof (filter_len_le (fun b => negb (bz b =? 32)) str) as Hle.
  set (k := len (List.filter (fun b => negb (bz b =? 32)) str)) in *.
  destruct (Z.ltb_spec maxLength k) as [Hlt | Hge]; [ | eexists; reflexivity ].
  assert (Hin : maxLength <= len str) by lia.
  unfold slice_to.
  rewrite (slice_in_range str 0 maxLength (Z.le_refl 0) Hm Hin).
  cbn [mbind option_bind]. eexists. reflexivity.
Qed.



(** ** The parser without keywords *)

Lemma concatMapM_incl {A B} (f : A -> option (list B)) :
  forall l ys x,
    concatMapM f l = Some ys -> In x l ->
    exists zs, f x = Some zs /\ forall y, In y zs -> In y ys.
Proof.
  induction l as [ | a l IH ]; intros ys x H Hx; [ destruct Hx | ].
  simpl in H.
  destruct (f a) as [zs | ] eqn:Ea; [ | discriminate ].
  cbn [mbind option_bind] in H.
  destruct (concatMapM f l) as [ws | ] eqn:El; [ | discriminate ].
  cbn [mbind option_bind] in H. inversion H; subst ys.
  destruct Hx as [<- | Hx].
  - exists zs. split; [ exact Ea | ]. intros y Hy. apply in_or_app. auto.
  - destruct (IH ws x eq_refl Hx) as (zs' & Hf & Hi).
    exists zs'. split; [ exact Hf | ]. intros y Hy. apply in_or_app. auto.
Qed.

Lemma admissible_50 (data : list byte) :
  len data < 2 ^ 62 -> admissible data 50.
Proof. intros H. split; [ split; [ lia | reflexivity ] | exact H ]. Qed.

Lemma legacyLine_total (infix : list byte) (result : BinaryMatchResult) :
  is_Some (legacyLine infix result).
Proof.
  unfold legacyLine.
  destruct (TruncateString_total (MatchedValue result) 100) as [v ->];
    [ lia | ].
  cbn [mbind option_bind]. eexists. reflexivity.
Qed.

Lemma checkMatch_total rule data m :
  len data < 2 ^ 62 -> 0 < len data -> is_Some (checkMatch rule data m).
Proof.
  intros Hl Hpos. unfold checkMatch.
  destruct (1 <? len m); [ | eexists; reflexivity ].
  destruct (isValidCredential _); [ | eexists; reflexivity ].
  match goal with
  | |- context [getStringContext data ?o 50] =>
      destruct (getStringContext_total data o 50 (admissible_50 _ Hl))
        as (cx & -> & _)
  end.
  { destruct (_ =? -1); apply findStringOffset_ok; exact Hpos. }
  cbn [mbind option_bind]. eexists. reflexivity.
Qed.

Lemma checkBase64Match_total rule data start m :
  len data < 2 ^ 62 -> 0 <= start < len data ->
  is_Some (checkBase64Match rule data start m).
Proof.
  intros Hl Hs. unfold checkBase64Match.
  destruct (len m <? 2); [ eexists; reflexivity | ].
  destruct (negb (isValidCredential _)); [ eexists; reflexivity | ].
  destruct (getStringContext_total data start 50 (admissible_50 _ Hl))
    as (cx & -> & _); [ right; exact Hs | ].
  cbn [mbind option_bind]. eexists. reflexivity.
Qed.

Lemma BinaryParser_Parse_total (rules : list DetectionRule)
  (data : list byte) :
  len data < 2 ^ 62 -> is_Some (BinaryParser_Parse rules data).
Proof.
  intros Hl. unfold BinaryParser_Parse.
  destruct (Z.ltb_spec (len data) 64) as [Hlt | Hge].
  { cbn [mbind option_bind negb]. eexists. reflexivity. }
  rewrite isValidPEFile_spec by lia. cbn [mbind option_bind].
  match goal with
  | |- context [negb ?b] => destruct b
  end; cbn [negb]; [ | eexists; reflexivity ].
  assert (Hpos : 0 < len data) by lia.
  match goal with
  | |- context [concatMapM ?f (extractMeaningfulStrings data)] =>
      destruct (concatMapM_total f (extractMeaningfulStrings data))
        as [lines ->]
  end.
  { intros str _.
    destruct (concatMapM_total
                (fun rule =>
                   concatMapM (checkMatch rule data)
                              (FindAllStringSubmatch (Pattern rule) str))
                rules) as [results Hr].
    { intros rule _. apply concatMapM_total. intros m _.
      apply checkMatch_total; assumption. }
    unfold checkStringWithRules. rewrite Hr. cbn [mbind option_bind].
    apply concatMapM_total. intros r _. apply legacyLine_total. }
  cbn [mbind option_bind].
  destruct (concatMapM_total (checkBase64Run rules data)
              (FindAllIndex base64Pattern data)) as [results Hr].
  { intros [start end_] Hm.
    pose proof (FindAllIndex_bounds base64Pattern data) as Hb.
    rewrite List.Forall_forall in Hb. specialize (Hb _ Hm). simpl in Hb.
    change (min_width base64Pattern) with 40%nat in Hb.
    unfold checkBase64Run.
    destruct (DecodeString _) as [decoded | ]; [ | eexists; reflexivity ].
    destruct (negb (isText decoded)); [ eexists; reflexivity | ].
    apply concatMapM_total. intros rule _.
    apply concatMapM_total. intros m _.
    apply checkBase64Match_total; [ exact Hl | unfold len; lia ]. }
  unfold checkBase64Encoded. rewrite Hr. cbn [mbind option_bind].
  destruct (concatMapM_total (legacyLine (s2b " (Base64)")) results)
    as [lines64 ->].
  { intros r _. apply legacyLine_total. }
  cbn [mbind option_bind]. eexists. reflexivity.
Qed.

(** What [checkMatch] returns for a match with a capture group and a valid
    value. *)
Lemma checkMatch_covers rule data m results :
  1 < len m ->
  isValidCredential (if 2 <? len m then sm m 2 else sm m 1) = true ->
  checkMatch rule data m = Some results ->
  exists r,
    In r results /\ RuleName r = Name rule
    /\ MatchedValue r = (if 2 <? len m then sm m 2 else sm m 1).
Proof.
  intros Hlen Hv. unfold checkMatch.
  replace (1 <? len m) with true by (symmetry; apply Z.ltb_lt; exact Hlen).
  rewrite Hv.
  destruct (getStringContext data _ 50) as [cx | ]; [ | discriminate ].
  cbn [mbind option_bind]. intros H. inversion H; subst results.
  eexists. split; [ left; reflexivity | ]. split; reflexivity.
Qed.

Lemma checkBase64Match_covers rule data start m results :
  1 < len m ->
  isValidCredential (if 2 <? len m then sm m 2 else sm m 1) = true ->
  checkBase64Match rule data start m = Some results ->
  exists r,
    In r results /\ RuleName r = Name rule ++ base64_suffix
    /\ MatchedValue r = (if 2 <? len m then sm m 2 else sm m 1).
Proof.
  intros Hlen Hv. unfold checkBase64Match.
  replace (len m <? 2) with false by (symmetry; apply Z.ltb_ge; lia).
  rewrite Hv. cbn [negb].
  destruct (getStringContext data start 50) as [cx | ]; [ | discriminate ].
  cbn [mbind option_bind]. intros H. inversion H; subst results.
  eexists. split; [ left; reflexivity | ]. split; reflexivity.
Qed.

Lemma checkBase64MatchEx_value rule data base64Str decoded start contextLen
  m results r :
  checkBase64MatchEx rule data base64Str decoded start contextLen m
    = Some results ->
  In r results ->
  MatchedValue r = (if 2 <? len m then sm m 2 else sm m 1).
Proof.
  unfold checkBase64MatchEx.
  destruct (len m <? 2); [ intros H; inversion H; subst; intros [] | ].
  set (matchedValue := if 2 <? len m then sm m 2 else sm m 1).
  destruct (isValidCredential matchedValue);
    [ | intros H; inversion H; subst; intros [] ].
  cbn [negb].
  destruct (getStringContext data start contextLen) as [context | ];
    [ | discriminate ].
  cbn [mbind option_bind].
  match goal with
  | |- context [if ?b then _ else _] => destruct b
  end.
  - destruct (truncateForContext base64Str _); [ | discriminate ].
    cbn [mbind option_bind].
    destruct (truncateForContext decoded _); [ | discriminate ].
    cbn [mbind option_bind]. intros H. inversion H; subst.
    intros [<- | []]. reflexivity.
  - cbn [mbind option_bind]. intros H. inversion H; subst.
    intros [<- | []]. reflexivity.
Qed.

Lemma legacyLine_covers infix r results lines :
  concatMapM (legacyLine infix) results = Some lines ->
  In r results ->
  exists value,
    TruncateString (MatchedValue r) 100 = Some value
    /\ In (s2b "[+] " ++ RuleName r ++ infix ++ s2b ": " ++ value) lines.
Proof.
  intros Hc Hr.
  destruct (concatMapM_incl _ _ _ _ Hc Hr) as (zs & Hz & Hi).
  unfold legacyLine in Hz.
  destruct (TruncateString (MatchedValue r) 100) as [value | ];
    [ | discriminate ].
  cbn [mbind option_bind] in Hz. inversion Hz; subst zs.
  exists value. split; [ reflexivity | ]. apply Hi. left. reflexivity.
Qed.

(** X9: [BinaryParser.Parse] returns for every buffer shorter than [2^62]
    bytes: none of its slice expressions is out of range. It returns no
    line for a buffer that fails format validation. *)
Theorem X9_BinaryParser_Parse_returns (data : list byte) :
  len data < 2 ^ 62 ->
  is_Some (BinaryParser_Parse initDetectionRules data)
  /\ (fails_validation data ->
      BinaryParser_Parse initDetectionRules data = Some []).
Proof.
  intros Hl. split; [ apply BinaryParser_Parse_total; exact Hl | ].
  intros Hf. unfold BinaryParser_Parse.
  destruct (Z.ltb_spec (len data) 64) as [Hlt | Hge]; [ reflexivity | ].
  rewrite (isValidPEFile_fails data Hf Hge). reflexivity.
Qed.

Lemma X9_witness :
  len password_sample < 2 ^ 62
  /\ is_Some (BinaryParser_Parse initDetectionRules password_sample)
  /\ BinaryParser_Parse initDetectionRules password_sample
     = Some [s2b "[+] 密码字段: Secr3t!123"].
Proof.
  assert (Hl : len password_sample < 2 ^ 62) by (vm_compute; reflexivity).
  split; [ exact Hl | ].
  split; [ apply (X9_BinaryParser_Parse_returns password_sample Hl) | ].
  vm_compute. reflexivity.
Defined.

(** X10: every finding of the rule pass and of the base64 pass of
    [ParseWithKeywords] is also reported by [BinaryParser.Parse], which
    has no deduplication: its output holds the line [[+] name: value],
    resp. [[+] name (Base64): value], with the finding's rule name and its
    matched value cut by [TruncateString] at 100. *)
Theorem X10_Parse_reports_the_findings (data : list byte)
  (keywords : list (list byte)) (contextLen : Z) (t : list Emitted)
  (lines : list (list byte)) (e : Emitted) :
  ParseWithKeywords_trace initDetectionRules data keywords contextLen
    = Some t ->
  BinaryParser_Parse initDetectionRules data = Some lines ->
  In e t ->
  exists value,
    TruncateString (MatchedValue (result e)) 100 = Some value
    /\ (matchType e = mt_rule ->
        In (s2b "[+] " ++ RuleName (result e) ++ s2b ": " ++ value) lines)
    /\ (matchType e = mt_base64 ->
        In (s2b "[+] " ++ RuleName (result e) ++ s2b " (Base64): " ++ value)
           lines).
Proof.
  intros Ht Hp He.
  destruct (TruncateString_total (MatchedValue (result e)) 100)
    as [value Hv]; [ lia | ].
  exists value. split; [ exact Hv | ].
  destruct (trace_by_type _ _ _ _ _ _ Ht He) as (Hr & _ & Hb).
  unfold ParseWithKeywords_trace in Ht. unfold BinaryParser_Parse in Hp.
  destruct (if len data <? 64 then Some false else isValidPEFile data)
    as [valid | ]; [ | discriminate ].
  cbn [mbind option_bind] in Ht, Hp.
  destruct valid; cbn [negb] in Ht, Hp;
    [ | inversion Ht; subst t; destruct He ].
  clear Ht.
  destruct (concatMapM _ (extractMeaningfulStrings data))
    as [lines1 | ] eqn:E1; [ | discriminate ].
  cbn [mbind option_bind] in Hp.
  destruct (checkBase64Encoded initDetectionRules data) as [results64 | ] eqn:E2;
    [ | discriminate ].
  cbn [mbind option_bind] in Hp.
  destruct (concatMapM (legacyLine (s2b " (Base64)")) results64)
    as [lines64 | ] eqn:E3; [ | discriminate ].
  cbn [mbind option_bind] in Hp. inversion Hp; subst lines. clear Hp.
  split.
  - intros Hm. apply in_or_app. left.
    destruct (Hr Hm) as (_ & _ & str & results & Hin & Hc & Hres).
    unfold checkStringWithRulesEx in Hc.
    destruct (concatMapM_In _ _ _ _ Hc Hres) as (rule & zs & Hrule & Hf & Hz).
    destruct (concatMapM_In _ _ _ _ Hf Hz) as (m & ws & Hmm & Hcm & Hw).
    destruct (checkMatchEx_finding _ _ _ _ _ _ _ Hcm Hw)
      as (Hlen & Hn & _ & Hmv & Hvalid).
    rewrite Hmv in Hvalid.
    destruct (concatMapM_incl _ _ _ _ E1 Hin) as (ls & Hls & Hi).
    destruct (checkStringWithRules initDetectionRules str data) as [results' | ] eqn:E4;
      [ | discriminate ].
    cbn [mbind option_bind] in Hls.
    unfold checkStringWithRules in E4.
    destruct (concatMapM_incl _ _ _ _ E4 Hrule) as (zs' & Hzs' & Hi').
    destruct (concatMapM_incl _ _ _ _ Hzs' Hmm) as (ws' & Hws' & Hi'').
    destruct (checkMatch_covers _ _ _ _ Hlen Hvalid Hws')
      as (r' & Hr' & Hn' & Hv').
    destruct (legacyLine_covers [] r' results' ls Hls) as (value' & Hv1 & Hl1).
    { apply Hi'. apply Hi''. exact Hr'. }
    apply Hi. rewrite Hn', Hv', <- Hmv, <- Hn in *.
    assert (value' = value) by congruence. subst value'. exact Hl1.
  - intros Hm. apply in_or_app. right.
    destruct (Hb Hm) as (_ & _ & results & Hc & Hres).
    unfold checkBase64EncodedEx in Hc.
    destruct (concatMapM_In _ _ _ _ Hc Hres)
      as ([start end_] & zs & Hrun & Hf & Hz).
    unfold checkBase64RunEx in Hf.
    destruct (concatMapM_incl _ _ _ _ E2 Hrun) as (zs' & Hzs' & Hi').
    unfold checkBase64Run in Hzs'.
    destruct (DecodeString (sub data start end_)) as [decoded | ];
      [ | inversion Hf; subst; destruct Hz ].
    destruct (isText decoded); cbn [negb] in Hf, Hzs';
      [ | inversion Hf; subst; destruct Hz ].
    destruct (concatMapM_In _ _ _ _ Hf Hz) as (rule & ws & Hrule & Hg & Hw).
    destruct (concatMapM_In _ _ _ _ Hg Hw) as (m & vs & Hmm & Hcm & Hv').
    pose proof (checkBase64MatchEx_groups _ _ _ _ _ _ _ _ _ Hcm Hv') as Hlen.
    pose proof (checkBase64MatchEx_value _ _ _ _ _ _ _ _ _ Hcm Hv') as Hmv.
    destruct (checkBase64MatchEx_finding _ _ _ _ _ _ _ _ _ Hcm Hv')
      as (Hn & _ & _ & Hvalid & _).
    rewrite Hmv in Hvalid.
    destruct (concatMapM_incl _ _ _ _ Hzs' Hrule) as (ws' & Hws' & Hi'').
    destruct (concatMapM_incl _ _ _ _ Hws' Hmm) as (vs' & Hvs' & Hi''').
    destruct (checkBase64Match_covers _ _ _ _ _ Hlen Hvalid Hvs')
      as (r' & Hr' & Hn' & Hv'').
    destruct (legacyLine_covers (s2b " (Base64)") r' results64 lines64 E3)
      as (value' & Hv1 & Hl1).
    { apply Hi'. apply Hi''. apply Hi'''. exact Hr'. }
    rewrite Hn', Hv'', <- Hmv, <- Hn in *.
    assert (value' = value) by congruence. subst value'. exact Hl1.
Qed.

(** The base64 sample: the line repeats the suffix of the rule name. *)
Lemma X10_witness :
  exists e lines,
    ParseWithKeywords_trace initDetectionRules base64_sample [] 50 = Some [e]
    /\ BinaryParser_Parse initDetectionRules base64_sample = Some lines
    /\ matchType e = mt_base64
    /\ lines = [s2b "[+] 密码字段 (Base64编码) (Base64): Secr3t!123"]
    /\ exists value,
         TruncateString (MatchedValue (result e)) 100 = Some value
         /\ (matchType e = mt_rule ->
             In (s2b "[+] " ++ RuleName (result e) ++ s2b ": " ++ value)
                lines)
         /\ (matchType e = mt_base64 ->
             In (s2b "[+] " ++ RuleName (result e) ++ s2b " (Base64): "
                 ++ value) lines).
Proof.
  assert (Ht : exists e,
             ParseWithKeywords_trace initDetectionRules base64_sample [] 50
               = Some [e]
             /\ matchType e = mt_base64).
  { eexists. split; vm_compute; reflexivity. }
  assert (Hp : exists lines,
             BinaryParser_Parse initDetectionRules base64_sample = Some lines
             /\ lines
                = [s2b "[+] 密码字段 (Base64编码) (Base64): Secr3t!123"]).
  { eexists. split; vm_compute; reflexivity. }
  destruct Ht as (e & Ht & Hm). destruct Hp as (lines & Hp & Hl).
  exists e, lines. split; [ exact Ht | ]. split; [ exact Hp | ].
  split; [ exact Hm | ]. split; [ exact Hl | ].
  apply (X10_Parse_reports_the_findings base64_sample [] 50 [e] lines e Ht Hp).
  left. reflexivity.
Defined.

(** ** [strings.Split] *)

Lemma Split_cons (s : list byte) (sep : byte) :
  exists part parts, Split s sep = part :: parts.
Proof.
  destruct s as [ | b s ]; simpl; [ eauto | ].
  destruct (byte_eqb b sep); [ eauto | ].
  destruct (Split s sep); eauto.
Qed.

Lemma Split_app (a b : list byte) (sep : byte) :
  Split (a ++ sep :: b) sep = Split a sep ++ Split b sep.
Proof.
  induction a as [ | x a IH ]; simpl.
  - replace (byte_eqb sep sep) with true
      by (symmetry; apply byte_eqb_eq; reflexivity).
    reflexivity.
  - destruct (byte_eqb x sep); [ rewrite IH; reflexivity | ].
    rewrite IH. destruct (Split_cons a sep) as (p & ps & ->). reflexivity.
Qed.

Lemma Split_free (s : list byte) (sep : byte) :
  free_of sep s = true -> Split s sep = [s].
Proof.
  induction s as [ | b s IH ]; simpl; [ reflexivity | ].
  intros H. apply andb_true_iff in H. destruct H as [Hb Hs].
  apply negb_true_iff in Hb. rewrite Hb, (IH Hs). reflexivity.
Qed.

Lemma Split_until (s : list byte) (sep : byte) :
  exists parts, Split s sep = until sep s :: parts.
Proof.
  induction s as [ | b s IH ]; simpl; [ eauto | ].
  destruct (byte_eqb b sep); [ eauto | ].
  destruct IH as (parts & ->). eauto.
Qed.

Lemma until_free (s : list byte) (sep : byte) :
  free_of sep s = true -> until sep s = s.
Proof.
  induction s as [ | b s IH ]; simpl; [ reflexivity | ].
  intros H. apply andb_true_iff in H. destruct H as [Hb Hs].
  apply negb_true_iff in Hb. rewrite Hb, (IH Hs). reflexivity.
Qed.

Lemma until_app (a b : list byte) (sep : byte) :
  free_of sep a = true -> until sep (a ++ sep :: b) = a.
Proof.
  induction a as [ | x a IH ]; simpl.
  - intros _. replace (byte_eqb sep sep) with true
      by (symmetry; apply byte_eqb_eq; reflexivity).
    reflexivity.
  - intros H. apply andb_true_iff in H. destruct H as [Hb Hs].
    apply negb_true_iff in Hb. rewrite Hb, (IH Hs). reflexivity.
Qed.

Lemma free_of_app (a b : list byte) (sep : byte) :
  free_of sep (a ++ b) = free_of sep a && free_of sep b.
Proof. unfold free_of. apply forallb_app. Qed.

(** [strings.Join] of the parts gives the string back. *)
Lemma Split_join (s : list byte) (sep : byte) :
  forall part parts,
    Split s sep = part :: parts ->
    s = part ++ concat (map (fun p => sep :: p) parts)
    /\ Forall (fun p => free_of sep p = true) (part :: parts).
Proof.
  induction s as [ | b s IH ]; simpl; intros part parts H.
  - inversion H; subst. split; [ reflexivity | ].
    constructor; [ reflexivity | constructor ].
  - destruct (byte_eqb b sep) eqn:E.
    + injection H as <- <-. apply byte_eqb_eq in E. subst b.
      destruct (Split_cons s sep) as (p & ps & Hs). rewrite Hs.
      destruct (IH p ps Hs) as [Hj Hf]. split.
      * simpl. rewrite Hj at 1. reflexivity.
      * constructor; [ reflexivity | exact Hf ].
    + destruct (Split s sep) as [ | p ps ] eqn:Hs.
      { destruct (Split_cons s sep) as (p & ps & Hs'). congruence. }
      injection H as <- <-. destruct (IH p ps eq_refl) as [Hj Hf].
      pose proof (List.Forall_inv Hf) as Hp.
      pose proof (List.Forall_inv_tail Hf) as Hps. cbv beta in Hp. split.
      * simpl. f_equal. exact Hj.
      * constructor; [ | exact Hps ]. simpl. rewrite E, Hp. reflexivity.
Qed.

(** ** The lines of the engine, read back by [parseRawResult] *)

Lemma keywordLoop_fields data str contextLen :
  forall keywords st st',
    keywordLoop data str contextLen keywords st = Some st' ->
    Forall keyword_fields st.2 -> Forall keyword_fields st'.2.
Proof.
  induction keywords as [ | keyword keywords IH ]; intros st st' H Hf;
    simpl in H.
  - inversion H; subst. exact Hf.
  - destruct (Contains str keyword) eqn:Ec; [ | eapply IH; eassumption ].
    destruct (bool_decide (findStringOffset data str ∈ st.1));
      [ eapply IH; eassumption | ].
    destruct (getStringContext data (findStringOffset data str) contextLen)
      as [context | ]; [ | discriminate ].
    cbn [mbind option_bind] in H.
    destruct (formatBinaryResult _ mt_keyword contextLen) as [line | ];
      [ | discriminate ].
    cbn [mbind option_bind] in H. inversion H; subst st'. clear H.
    cbn [snd]. apply Forall_app. split; [ exact Hf | ].
    constructor; [ | constructor ]. intros _. cbn.
    split; [ reflexivity | ]. split; [ reflexivity | ].
    exists keyword. split; [ reflexivity | exact Ec ].
Qed.

Lemma grows_fields (Q : Emitted -> Prop) (st st' : PState) :
  (forall e, Q e -> matchType e <> mt_keyword) ->
  grows Q st st' ->
  Forall keyword_fields st.2 -> Forall keyword_fields st'.2.
Proof.
  intros HQ [_ (l & -> & Hl)] Hf. apply Forall_app. split; [ exact Hf | ].
  revert Hl. apply List.Forall_impl. intros e He Hk.
  exfalso. exact (HQ e He Hk).
Qed.

Lemma trace_keyword_fields rules data keywords contextLen t :
  ParseWithKeywords_trace rules data keywords contextLen = Some t ->
  Forall keyword_fields t.
Proof.
  unfold ParseWithKeywords_trace. intros H.
  destruct (if len data <? 64 then Some false else isValidPEFile data)
    as [valid | ]; [ | discriminate ].
  cbn [mbind option_bind] in H.
  destruct valid; cbn [negb] in H; [ | inversion H; constructor ].
  destruct (rulePass _ _ _ _ _) as [st1 | ] eqn:E1; [ | discriminate ].
  cbn [mbind option_bind] in H.
  destruct (keywordPass _ _ _ _ _) as [st2 | ] eqn:E2; [ | discriminate ].
  cbn [mbind option_bind] in H.
  destruct (base64Pass _ _ _ _) as [st3 | ] eqn:E3; [ | discriminate ].
  cbn [mbind option_bind] in H. inversion H; subst t. clear H.
  apply rulePass_grows in E1. apply base64Pass_grows in E3.
  apply (grows_fields _ _ _) in E3;
    [ exact E3
    | intros e (Hm & _) Hk; rewrite Hm in Hk; exact (mt_base64_not_keyword Hk)
    | ].
  assert (F1 : Forall keyword_fields st1.2).
  { apply (grows_fields _ _ _) in E1;
      [ exact E1
      | intros e (Hm & _) Hk; rewrite Hm in Hk; exact (mt_rule_not_keyword Hk)
      | constructor ]. }
  revert F1. unfold keywordPass in E2.
  destruct (0 <? len keywords); [ | inversion E2; subst; auto ].
  revert E2.
  apply (foldM_inv (fun s s' : PState =>
                      Forall keyword_fields s.2 -> Forall keyword_fields s'.2));
    [ auto | auto | ].
  intros str s s' _ Hs. eapply keywordLoop_fields. exact Hs.
Qed.

Lemma formatBinaryResult_line (res : BinaryMatchResult) (mt : list byte)
  (contextLen : Z) (line : list byte) :
  formatBinaryResult res mt contextLen = Some line ->
  line = s2b "BINARY" ++ pipe :: mt ++ pipe :: RuleName res
         ++ pipe :: ResRiskLevel res ++ pipe :: MatchedValue res
         ++ pipe :: (s2b "0x" ++ fmtX (Offset res))
         ++ pipe :: contextDisplay (Context res) contextLen.
Proof.
  unfold formatBinaryResult, contextDisplay.
  destruct (contextLen <? len (Context res)) eqn:E.
  - unfold slice_to, slice.
    destruct ((0 <=? 0) && (0 <=? contextLen)
              && (contextLen <=? len (Context res))); [ | discriminate ].
    cbn [mbind option_bind]. rewrite Z.sub_0_r. cbn [Z.to_nat skipn].
    intros H. inversion H. rewrite <- !app_assoc. reflexivity.
  - cbn [mbind option_bind]. intros H. inversion H.
    rewrite <- !app_assoc. reflexivity.
Qed.

Lemma hex_digit_free (d : Z) :
  0 <= d < 16 -> byte_eqb (hex_digit d) pipe = false.
Proof.
  intros Hd. destruct (byte_eqb (hex_digit d) pipe) eqn:E; [ | reflexivity ].
  apply byte_eqb_eq in E. apply (f_equal bz) in E. exfalso.
  unfold hex_digit in E. change (bz pipe) with 124 in E.
  destruct (d <? 10); rewrite bz_of_Z in E by lia; lia.
Qed.

Lemma hex_pos_free (fuel : nat) :
  forall z acc,
    free_of pipe acc = true -> free_of pipe (hex_pos fuel z acc) = true.
Proof.
  induction fuel as [ | fuel IH ]; intros z acc Ha; simpl; [ exact Ha | ].
  assert (Hd : free_of pipe (hex_digit (z mod 16) :: acc) = true).
  { simpl. rewrite hex_digit_free by (apply Z.mod_pos_bound; lia).
    exact Ha. }
  destruct (z / 16 =? 0); [ exact Hd | apply IH; exact Hd ].
Qed.

Lemma fmtX_free (z : Z) : free_of pipe (s2b "0x" ++ fmtX z) = true.
Proof.
  rewrite free_of_app. apply andb_true_iff. split; [ reflexivity | ].
  unfold fmtX. destruct (z <? 0).
  - change (free_of pipe ("-"%byte :: hex_pos 64 (- z) []))
      with (free_of pipe (hex_pos 64 (- z) [])).
    apply hex_pos_free. reflexivity.
  - apply hex_pos_free. reflexivity.
Qed.

Lemma len_Split_pos (s : list byte) (sep : byte) : 1 <= len (Split s sep).
Proof.
  destruct (Split_cons s sep) as (p & ps & ->). rewrite len_cons.
  pose proof (len_nonneg ps). lia.
Qed.

(** The fields [strings.Split] finds in a line of [formatBinaryResult]
    whose match type, rule name and risk level have no vertical bar. *)
Lemma Split_binary_line (mt name risk value offset context : list byte) :
  free_of pipe mt = true -> free_of pipe name = true ->
  free_of pipe risk = true -> free_of pipe offset = true ->
  Split (s2b "BINARY" ++ pipe :: mt ++ pipe :: name ++ pipe :: risk
         ++ pipe :: value ++ pipe :: offset ++ pipe :: context) pipe
  = [s2b "BINARY"; mt; name; risk]
    ++ Split value pipe ++ offset :: Split context pipe.
Proof.
  intros Hmt Hname Hrisk Hoff.
  rewrite !Split_app.
  rewrite (Split_free (s2b "BINARY")) by reflexivity.
  rewrite (Split_free mt), (Split_free name), (Split_free risk),
    (Split_free offset) by assumption.
  reflexivity.
Qed.

Lemma strings_ToLower_level (Map_ToLower : list byte -> list byte)
  (l : list byte) :
  In l risk_levels -> strings_ToLower Map_ToLower l = l.
Proof.
  intros [<- | [<- | [<- | [<- | []]]]]; reflexivity.
Qed.

Lemma rules_fields_ok : forallb rule_fields_ok initDetectionRules = true.
Proof. vm_compute. reflexivity. Qed.

Lemma rule_fields (rule : DetectionRule) :
  In rule initDetectionRules ->
  free_of pipe (Name rule) = true
  /\ free_of pipe (Name rule ++ base64_suffix) = true
  /\ In (RiskLevel rule) risk_levels.
Proof.
  intros Hin. pose proof rules_fields_ok as H.
  rewrite forallb_forall in H. specialize (H rule Hin).
  unfold rule_fields_ok in H.
  apply andb_true_iff in H. destruct H as [H H4].
  apply andb_true_iff in H. destruct H as [H H3].
  apply andb_true_iff in H. destruct H as [H1 H2].
  split; [ exact H1 | ]. split; [ exact H2 | ].
  apply existsb_exists in H4. destruct H4 as (l & Hl & He).
  apply bytes_eqb_eq in He. rewrite He. exact Hl.
Qed.

Lemma risk_level_free (l : list byte) :
  In l risk_levels -> free_of pipe l = true.
Proof.
  intros [<- | [<- | [<- | [<- | []]]]]; reflexivity.
Qed.

(** Match type, rule name and risk level of a line of the engine. *)
Lemma trace_fields data keywords contextLen t e :
  ParseWithKeywords_trace initDetectionRules data keywords contextLen
    = Some t ->
  In e t ->
  free_of pipe (matchType e) = true
  /\ free_of pipe (RuleName (result e)) = true
  /\ In (ResRiskLevel (result e)) risk_levels.
Proof.
  intros Ht He.
  pose proof (trace_keyword_fields _ _ _ _ _ Ht) as Hk.
  rewrite List.Forall_forall in Hk. specialize (Hk e He).
  destruct (trace_structure _ _ _ _ _ Ht)
    as (_ & _ & l1 & l2 & l3 & -> & H1 & H2 & H3).
  rewrite List.Forall_forall in H1, H2, H3.
  apply in_app_or in He. destruct He as [He | He];
    [ | apply in_app_or in He; destruct He as [He | He] ].
  - destruct (H1 _ He) as (Hmt & _ & str & results & _ & Hc & Hr).
    destruct (checkStringWithRulesEx_finding _ _ _ _ _ _ Hc Hr)
      as (rule & Hin & _ & Hn & Hl & _).
    destruct (rule_fields rule Hin) as (F1 & _ & F3).
    rewrite Hmt, Hn, Hl. split; [ reflexivity | ]. split; assumption.
  - destruct (H2 _ He) as (Hmt & _).
    destruct (Hk Hmt) as (Hn & Hl & _).
    rewrite Hmt, Hn, Hl. split; [ reflexivity | ].
    split; [ reflexivity | ]. right. right. left. reflexivity.
  - destruct (H3 _ He) as (Hmt & _ & results & Hc & Hr).
    destruct (checkBase64EncodedEx_groups _ _ _ _ _ Hc Hr)
      as (rule & Hin & _ & Hn & Hl & _).
    destruct (rule_fields rule Hin) as (_ & F2 & F3).
    rewrite Hmt, Hn, Hl. split; [ reflexivity | ]. split; assumption.
Qed.

(** [parseRawResult] on a line of kind BINARY with at least seven
    fields. *)
Lemma parseRawResult_binary (Map_ToLower : list byte -> list byte)
  (raw : list byte) (p1 p2 p3 p4 p5 p6 : list byte)
  (rest : list (list byte)) :
  Split raw pipe = s2b "BINARY" :: p1 :: p2 :: p3 :: p4 :: p5 :: p6 :: rest ->
  parseRawResult Map_ToLower raw
  = Some {| HTMLResult.Icon := getRiskIconText Map_ToLower p3;
            HTMLResult.RuleName := p2;
            HTMLResult.Type_ := p1;
            HTMLResult.RiskLevel := strings_ToLower Map_ToLower p3;
            HTMLResult.RiskLevelText := getRiskLevelText Map_ToLower p3;
            HTMLResult.MatchedValue := p4;
            HTMLResult.LineNumber := [];
            HTMLResult.Offset := p5;
            HTMLResult.Context := p6 |}.
Proof.
  intros Hs. unfold parseRawResult. rewrite Hs.
  pose proof (len_nonneg rest) as Hr.
  replace (len (s2b "BINARY" :: p1 :: p2 :: p3 :: p4 :: p5 :: p6 :: rest) <? 2)
    with false by (symmetry; apply Z.ltb_ge; rewrite !len_cons; lia).
  replace (7 <=? len (s2b "BINARY" :: p1 :: p2 :: p3 :: p4 :: p5 :: p6 :: rest))
    with true by (symmetry; apply Z.leb_le; rewrite !len_cons; lia).
  reflexivity.
Qed.

(** X11: the HTML report reads every line of the engine back as a BINARY
    result with the finding's match type, rule name and risk level, which
    is one of critical, high, medium and low; the matched value it shows
    is the finding's value up to its first vertical bar. When the value
    has no vertical bar, the report shows the whole value, the offset as
    [0x] and its hexadecimal digits, and the displayed context up to its
    first vertical bar. *)
Theorem X11_engine_lines_in_the_html_report
  (Map_ToLower : list byte -> list byte) (data : list byte)
  (keywords : list (list byte)) (contextLen : Z) (t : list Emitted)
  (e : Emitted) :
  ParseWithKeywords_trace initDetectionRules data keywords contextLen
    = Some t ->
  In e t ->
  exists h,
    parseRawResult Map_ToLower (lineOutput e) = Some h
    /\ HTMLResult.Type_ h = matchType e
    /\ HTMLResult.RuleName h = RuleName (result e)
    /\ HTMLResult.RiskLevel h = ResRiskLevel (result e)
    /\ In (HTMLResult.RiskLevel h) risk_levels
    /\ HTMLResult.MatchedValue h = until pipe (MatchedValue (result e))
    /\ (free_of pipe (MatchedValue (result e)) = true ->
        HTMLResult.MatchedValue h = MatchedValue (result e)
        /\ HTMLResult.Offset h = s2b "0x" ++ fmtX (Offset (result e))
        /\ HTMLResult.Context h
           = until pipe (contextDisplay (Context (result e)) contextLen)).
Proof.
  intros Ht He.
  destruct (trace_fields _ _ _ _ _ Ht He) as (Fmt & Fname & Lrisk).
  pose proof (trace_lines_formatted _ _ _ _ _ _ Ht He) as Hf.
  apply formatBinaryResult_line in Hf.
  pose proof (Split_binary_line _ _ _ (MatchedValue (result e)) _
                (contextDisplay (Context (result e)) contextLen)
                Fmt Fname (risk_level_free _ Lrisk)
                (fmtX_free (Offset (result e)))) as Hs.
  rewrite <- Hf in Hs.
  destruct (Split_until (MatchedValue (result e)) pipe) as (vs & Hv).
  destruct (Split_until (contextDisplay (Context (result e)) contextLen) pipe)
    as (cs & Hc).
  destruct (free_of pipe (MatchedValue (result e))) eqn:Efree.
  - rewrite (Split_free _ _ Efree), Hc in Hs. cbn [app] in Hs.
    rewrite (parseRawResult_binary _ _ _ _ _ _ _ _ _ Hs).
    eexists. split; [ reflexivity | ]. cbn.
    rewrite (strings_ToLower_level _ _ Lrisk), (until_free _ _ Efree).
    repeat split; auto.
  - rewrite Hv in Hs. cbn [app] in Hs.
    destruct vs as [ | v vs ].
    + cbn [app] in Hs. rewrite Hc in Hs.
      rewrite (parseRawResult_binary _ _ _ _ _ _ _ _ _ Hs).
      eexists. split; [ reflexivity | ]. cbn.
      rewrite (strings_ToLower_level _ _ Lrisk).
      repeat split; auto; discriminate.
    + cbn [app] in Hs.
      destruct (vs ++ (s2b "0x" ++ fmtX (Offset (result e)))
                :: Split (contextDisplay (Context (result e)) contextLen) pipe)
        as [ | w ws ] eqn:Ew.
      { destruct vs; discriminate Ew. }
      rewrite (parseRawResult_binary _ _ _ _ _ _ _ _ _ Hs).
      eexists. split; [ reflexivity | ]. cbn.
      rewrite (strings_ToLower_level _ _ Lrisk).
      repeat split; auto; discriminate.
Qed.

(** The padded password sample, with the identity for the Unicode branch
    of [strings.ToLower]. *)
Lemma X11_witness :
  exists e h,
    ParseWithKeywords_trace initDetectionRules password_sample [] 50
      = Some [e]
    /\ parseRawResult (fun s => s) (lineOutput e) = Some h
    /\ HTMLResult.Type_ h = matchType e
    /\ HTMLResult.RuleName h = RuleName (result e)
    /\ HTMLResult.RiskLevel h = s2b "critical"
    /\ HTMLResult.MatchedValue h = s2b "Secr3t!123"
    /\ HTMLResult.Offset h = s2b "0x44".
Proof.
  assert (Ht : exists e,
             ParseWithKeywords_trace initDetectionRules password_sample [] 50
               = Some [e]
             /\ ResRiskLevel (result e) = s2b "critical"
             /\ MatchedValue (result e) = s2b "Secr3t!123"
             /\ Offset (result e) = 68).
  { eexists. split; [ vm_compute; reflexivity | ].
    repeat split; vm_compute; reflexivity. }
  destruct Ht as (e & Ht & Hr & Hv & Ho).
  destruct (X11_engine_lines_in_the_html_report (fun s => s) password_sample
              [] 50 [e] e Ht (or_introl eq_refl))
    as (h & Hp & H1 & H2 & H3 & _ & _ & H6).
  exists e, h. split; [ exact Ht | ]. split; [ exact Hp | ].
  split; [ exact H1 | ]. split; [ exact H2 | ].
  split; [ rewrite H3; exact Hr | ].
  destruct H6 as (H7 & H8 & _); [ rewrite Hv; reflexivity | ].
  split; [ rewrite H7; exact Hv | ]. rewrite H8, Ho. reflexivity.
Defined.

(** X12: when the matched value of a finding holds a vertical bar, the
    HTML report shows the part of the value before the bar as the value,
    and the part after it, up to the next bar, in place of the offset; if
    there is no further bar in the value, the offset text moves to the
    context. *)
Theorem X12_bar_in_the_value_shifts_the_fields
  (Map_ToLower : list byte -> list byte) (data : list byte)
  (keywords : list (list byte)) (contextLen : Z) (t : list Emitted)
  (e : Emitted) (a b : list byte) :
  ParseWithKeywords_trace initDetectionRules data keywords contextLen
    = Some t ->
  In e t ->
  MatchedValue (result e) = a ++ pipe :: b -> free_of pipe a = true ->
  exists h,
    parseRawResult Map_ToLower (lineOutput e) = Some h
    /\ HTMLResult.MatchedValue h = a
    /\ HTMLResult.Offset h = until pipe b
    /\ (free_of pipe b = true ->
        HTMLResult.Context h = s2b "0x" ++ fmtX (Offset (result e))).
Proof.
  intros Ht He Hval Ha.
  destruct (trace_fields _ _ _ _ _ Ht He) as (Fmt & Fname & Lrisk).
  pose proof (trace_lines_formatted _ _ _ _ _ _ Ht He) as Hf.
  apply formatBinaryResult_line in Hf.
  pose proof (Split_binary_line _ _ _ (MatchedValue (result e)) _
                (contextDisplay (Context (result e)) contextLen)
                Fmt Fname (risk_level_free _ Lrisk)
                (fmtX_free (Offset (result e)))) as Hs.
  rewrite <- Hf in Hs. rewrite Hval, Split_app, (Split_free a pipe Ha) in Hs.
  destruct (Split_until b pipe) as (bs & Hb). rewrite Hb in Hs.
  cbn [app] in Hs.
  destruct (free_of pipe b) eqn:Eb.
  - rewrite (Split_free b pipe Eb) in Hb. injection Hb as _ <-.
    cbn [app] in Hs.
    rewrite (parseRawResult_binary _ _ _ _ _ _ _ _ _ Hs).
    eexists. split; [ reflexivity | ]. cbn. repeat split; auto.
  - destruct (bs ++ (s2b "0x" ++ fmtX (Offset (result e)))
              :: Split (contextDisplay (Context (result e)) contextLen) pipe)
      as [ | w ws ] eqn:Ew.
    { destruct bs; discriminate Ew. }
    rewrite (parseRawResult_binary _ _ _ _ _ _ _ _ _ Hs).
    eexists. split; [ reflexivity | ]. cbn. repeat split; auto.
    discriminate.
Qed.

(** A password value with a vertical bar: the report shows [bcd] where the
    offset belongs, and the offset [0x44] as the context. *)
Lemma X12_witness :
  exists e h,
    ParseWithKeywords_trace initDetectionRules
      (buffer_ascii "password=http://a|bcd") [] 50 = Some [e]
    /\ MatchedValue (result e) = s2b "http://a" ++ pipe :: s2b "bcd"
    /\ Offset (result e) = 68
    /\ parseRawResult (fun s => s) (lineOutput e) = Some h
    /\ HTMLResult.MatchedValue h = s2b "http://a"
    /\ HTMLResult.Offset h = s2b "bcd"
    /\ HTMLResult.Context h = s2b "0x44".
Proof.
  assert (Ht : exists e,
             ParseWithKeywords_trace initDetectionRules
               (buffer_ascii "password=http://a|bcd") [] 50 = Some [e]
             /\ MatchedValue (result e) = s2b "http://a" ++ pipe :: s2b "bcd"
             /\ Offset (result e) = 68).
  { eexists. split; [ vm_compute; reflexivity | ].
    split; vm_compute; reflexivity. }
  destruct Ht as (e & Ht & Hv & Ho).
  destruct (X12_bar_in_the_value_shifts_the_fields (fun s => s)
              (buffer_ascii "password=http://a|bcd") [] 50 [e] e
              (s2b "http://a") (s2b "bcd") Ht (or_introl eq_refl) Hv eq_refl)
    as (h & Hp & H1 & H2 & H3).
  exists e, h. split; [ exact Ht | ]. split; [ exact Hv | ].
  split; [ exact Ho | ]. split; [ exact Hp | ]. split; [ exact H1 | ].
  split; [ exact H2 | ]. rewrite (H3 eq_refl), Ho. reflexivity.
Defined.

(** ** The totals of the HTML report *)

Lemma sumZ_app {A} (f : A -> Z) (a b : list A) :
  sumZ f (a ++ b) = sumZ f a + sumZ f b.
Proof.
  induction a as [ | x a IH ]; simpl; [ reflexivity | ]. rewrite IH. lia.
Qed.

Lemma sumZ_perm {A} (f : A -> Z) (a b : list A) :
  a ≡ₚ b -> sumZ f a = sumZ f b.
Proof.
  induction 1; simpl; lia.
Qed.

Lemma sumZ_nonneg {A} (f : A -> Z) (l : list A) :
  (forall x, 0 <= f x) -> 0 <= sumZ f l.
Proof.
  intros Hf. induction l as [ | x l IH ]; simpl; [ lia | ].
  specialize (Hf x). lia.
Qed.

Lemma sumZ_le {A} (f g : A -> Z) (l : list A) :
  (forall x, f x <= g x) -> sumZ f l <= sumZ g l.
Proof.
  intros Hfg. induction l as [ | x l IH ]; simpl; [ lia | ].
  specialize (Hfg x). lia.
Qed.

Lemma sumZ_ext_in {A} (f g : A -> Z) (l : list A) :
  (forall x, In x l -> f x = g x) -> sumZ f l = sumZ g l.
Proof.
  induction l as [ | x l IH ]; simpl; intros H; [ reflexivity | ].
  rewrite (H x (or_introl eq_refl)), IH; [ reflexivity | ].
  intros y Hy. apply H. right. exact Hy.
Qed.

Lemma sumZ_map {A B} (f : B -> Z) (g : A -> B) (l : list A) :
  sumZ f (map g l) = sumZ (fun x => f (g x)) l.
Proof.
  induction l as [ | x l IH ]; simpl; [ reflexivity | ].
  rewrite IH. reflexivity.
Qed.

Lemma risk_count_app M level (a b : list HTMLResult.t) :
  risk_count M level (a ++ b) = risk_count M level a + risk_count M level b.
Proof.
  unfold risk_count. rewrite List.filter_app. apply len_app.
Qed.

Lemma risk_count_concat M level (secs : list HTMLFileSection) :
  risk_count M level (concat (map Results secs))
  = sumZ (fun s => risk_count M level (Results s)) secs.
Proof.
  induction secs as [ | s secs IH ]; simpl; [ reflexivity | ].
  rewrite risk_count_app, IH. reflexivity.
Qed.

Lemma risk_count_one M level (h : HTMLResult.t) :
  risk_count M level [h]
  = if bytes_eqb (strings_ToLower M (HTMLResult.RiskLevel h)) (s2b level)
    then 1 else 0.
Proof.
  unfold risk_count. cbn [List.filter].
  destruct (bytes_eqb _ _); reflexivity.
Qed.

Lemma report_step_refl M rep : report_step M rep rep [] [].
Proof.
  unfold report_step, risk_count, sumZ, len. rewrite app_nil_r. simpl.
  repeat split; try reflexivity; lia.
Qed.

Lemma report_step_trans M r1 r2 r3 s1 s2 n1 n2 :
  report_step M r1 r2 s1 n1 -> report_step M r2 r3 s2 n2 ->
  report_step M r1 r3 (s1 ++ s2) (n1 ++ n2).
Proof.
  intros (A1 & A2 & A3 & A4 & A5 & A6 & A7 & A8)
         (B1 & B2 & B3 & B4 & B5 & B6 & B7 & B8).
  unfold report_step.
  rewrite !risk_count_app, sumZ_app, len_app, B1, A1, app_assoc.
  repeat split; try congruence; lia.
Qed.

Lemma countRisk_step M rep (h : HTMLResult.t) :
  report_step M rep (countRisk M rep (HTMLResult.RiskLevel h)) [] [h].
Proof.
  unfold report_step, countRisk. rewrite !risk_count_one, app_nil_r.
  change (len []) with 0. cbn [sumZ fold_right].
  set (l := strings_ToLower M (HTMLResult.RiskLevel h)). clearbody l.
  destruct (bytes_eqb l (s2b "critical")) eqn:E1.
  { apply bytes_eqb_eq in E1. subst l. cbn. repeat split; try reflexivity; lia. }
  destruct (bytes_eqb l (s2b "high")) eqn:E2.
  { apply bytes_eqb_eq in E2. subst l. cbn. repeat split; try reflexivity; lia. }
  destruct (bytes_eqb l (s2b "medium")) eqn:E3.
  { apply bytes_eqb_eq in E3. subst l. cbn. repeat split; try reflexivity; lia. }
  destruct (bytes_eqb l (s2b "low")) eqn:E4.
  { apply bytes_eqb_eq in E4. subst l. cbn. repeat split; try reflexivity; lia. }
  repeat split; try reflexivity; lia.
Qed.

Lemma addRaw_fold M (results : list (list byte)) :
  forall acc rep,
    (fold_left (addRaw M) results (acc, rep)).1
    = acc ++ omap (parseRawResult M) results
    /\ report_step M rep (fold_left (addRaw M) results (acc, rep)).2 []
         (omap (parseRawResult M) results).
Proof.
  induction results as [ | raw results IH ]; intros acc rep; cbn [fold_left].
  - cbn. rewrite app_nil_r. split; [ reflexivity | apply report_step_refl ].
  - unfold addRaw at 2 4. cbn [omap list_omap].
    destruct (parseRawResult M raw) as [h | ] eqn:Ep.
    + cbn [fst snd].
      destruct (IH (acc ++ [h]) (countRisk M rep (HTMLResult.RiskLevel h)))
        as [Ha Hs].
      split; [ rewrite Ha, <- app_assoc; reflexivity | ].
      apply (report_step_trans M _ _ _ [] [] [h] _ (countRisk_step M rep h)) in Hs.
      exact Hs.
    + destruct acc, rep; apply IH.
Qed.

Lemma addFile_step M rep (entry : list byte * list (list byte)) :
  report_step M rep (addFile M rep entry)
    (if with_results entry then [sectionOf M entry] else [])
    (if with_results entry then Results (sectionOf M entry) else []).
Proof.
  destruct entry as [filePath results]. unfold addFile, with_results.
  cbn [fst snd].
  destruct (len results =? 0); cbn [negb]; [ apply report_step_refl | ].
  destruct (addRaw_fold M results [] rep) as [Ha Hs].
  destruct (fold_left (addRaw M) results ([], rep)) as [acc rep'].
  cbn [fst snd app] in Ha, Hs.
  destruct Hs as (A1 & A2 & A3 & A4 & A5 & A6 & A7 & A8).
  unfold report_step, sectionOf. cbn. subst acc.
  rewrite A1, A2, A3, A4, A5, A6, A7, A8, app_nil_r.
  cbn. unfold len. cbn [List.length].
  repeat split; try reflexivity; lia.
Qed.

Lemma BuildHTMLReport_fold M (entries : list (list byte * list (list byte))) :
  forall rep,
    report_step M rep (fold_left (addFile M) entries rep)
      (map (sectionOf M) (List.filter with_results entries))
      (concat (map Results
                   (map (sectionOf M) (List.filter with_results entries)))).
Proof.
  induction entries as [ | entry entries IH ]; intros rep; cbn [fold_left].
  - apply report_step_refl.
  - pose proof (report_step_trans M _ _ _ _ _ _ _
                  (addFile_step M rep entry) (IH (addFile M rep entry))) as H.
    cbn [List.filter]. destruct (with_results entry).
    + cbn [map concat]. cbn [app] in H. exact H.
    + cbn [app] in H. exact H.
Qed.

Lemma risk_counts_le M (hs : list HTMLResult.t) :
  risk_count M "critical" hs + risk_count M "high" hs
  + risk_count M "medium" hs + risk_count M "low" hs <= len hs.
Proof.
  induction hs as [ | h hs IH ]; [ vm_compute; discriminate | ].
  change (h :: hs) with ([h] ++ hs).
  rewrite !risk_count_app, !risk_count_one, len_app.
  change (len [h]) with 1.
  set (l := strings_ToLower M (HTMLResult.RiskLevel h)). clearbody l.
  destruct (bytes_eqb l (s2b "critical")) eqn:E1.
  { apply bytes_eqb_eq in E1. subst l. cbn. lia. }
  destruct (bytes_eqb l (s2b "high")) eqn:E2.
  { apply bytes_eqb_eq in E2. subst l. cbn. lia. }
  destruct (bytes_eqb l (s2b "medium")) eqn:E3.
  { apply bytes_eqb_eq in E3. subst l. cbn. lia. }
  destruct (bytes_eqb l (s2b "low")); lia.
Qed.

Lemma len_omap_le {A B} (f : A -> option B) (l : list A) :
  len (omap f l) <= len l.
Proof.
  unfold omap. induction l as [ | x l IH ]; cbn [list_omap];
    [ unfold len; simpl; lia | ].
  rewrite len_cons. destruct (f x); [ rewrite len_cons | ]; lia.
Qed.

(** The report [BuildHTMLReport] builds, in terms of its sections. *)
Lemma BuildHTMLReport_spec M (scanDir : list byte)
  (entries : list (list byte * list (list byte))) :
  let report := BuildHTMLReport M scanDir entries in
  let sections := map (sectionOf M) (List.filter with_results entries) in
  Files report = sections
  /\ ScanDirectory report = scanDir
  /\ TotalFiles report = len sections
  /\ TotalFindings report = sumZ (fun s => len (Results s)) sections
  /\ CriticalCount report
     = sumZ (fun s => risk_count M "critical" (Results s)) sections
  /\ HighCount report
     = sumZ (fun s => risk_count M "high" (Results s)) sections
  /\ MediumCount report
     = sumZ (fun s => risk_count M "medium" (Results s)) sections
  /\ LowCount report
     = sumZ (fun s => risk_count M "low" (Results s)) sections.
Proof.
  intros report sections. subst report sections. unfold BuildHTMLReport.
  match goal with
  | |- context [fold_left _ _ ?r] =>
      destruct (BuildHTMLReport_fold M entries r)
        as (A1 & A2 & A3 & A4 & A5 & A6 & A7 & A8)
  end.
  rewrite !risk_count_concat in *. cbn in A1, A2, A3, A4, A5, A6, A7, A8.
  repeat split; assumption.
Qed.

Lemma sumZ_len_concat (secs : list HTMLFileSection) :
  sumZ (fun s => len (Results s)) secs = len (concat (map Results secs)).
Proof.
  induction secs as [ | s secs IH ]; simpl; [ reflexivity | ].
  rewrite len_app, IH. reflexivity.
Qed.

(** X13: the report of [BuildHTMLReport] has one section for every entry
    with at least one raw line, in the order of the iteration, holding the
    raw lines that [parseRawResult] reads (those with a vertical bar).
    [TotalFiles] is the number of sections, [TotalFindings] the number of
    results in them, and each of the four risk counters the number of
    results of that risk level; so the four counters together never exceed
    [TotalFindings], which never exceeds the sum of the sections' [Count]. *)
Theorem X13_report_totals (Map_ToLower : list byte -> list byte)
  (scanDir : list byte) (entries : list (list byte * list (list byte))) :
  let report := BuildHTMLReport Map_ToLower scanDir entries in
  let sections :=
    map (sectionOf Map_ToLower) (List.filter with_results entries) in
  let all := concat (map Results sections) in
  Files report = sections
  /\ TotalFiles report = len sections
  /\ TotalFindings report = len all
  /\ CriticalCount report = risk_count Map_ToLower "critical" all
  /\ HighCount report = risk_count Map_ToLower "high" all
  /\ MediumCount report = risk_count Map_ToLower "medium" all
  /\ LowCount report = risk_count Map_ToLower "low" all
  /\ CriticalCount report + HighCount report + MediumCount report
     + LowCount report <= TotalFindings report
  /\ TotalFindings report <= sumZ Count sections.
Proof.
  intros report sections all.
  destruct (BuildHTMLReport_spec Map_ToLower scanDir entries)
    as (A1 & _ & A3 & A4 & A5 & A6 & A7 & A8).
  fold report sections in A1, A3, A4, A5, A6, A7, A8.
  rewrite sumZ_len_concat in A4. rewrite <- !risk_count_concat in *.
  fold all in A4, A5, A6, A7, A8.
  repeat (split; [ assumption | ]).
  split.
  - rewrite A4, A5, A6, A7, A8. apply risk_counts_le.
  - rewrite A4. subst all. rewrite <- sumZ_len_concat.
    subst sections. rewrite !sumZ_map. apply sumZ_le.
    intros en. apply len_omap_le.
Qed.

(** ** The report and the order of the map iteration *)

Lemma filter_perm {A} (p : A -> bool) (a b : list A) :
  a ≡ₚ b -> List.filter p a ≡ₚ List.filter p b.
Proof.
  induction 1 as [ | x a b _ IH | x y a | a b c _ IH1 _ IH2 ]; cbn [List.filter].
  - constructor.
  - destruct (p x); [ constructor; exact IH | exact IH ].
  - destruct (p x), (p y); try reflexivity. apply perm_swap.
  - etransitivity; eassumption.
Qed.

Lemma filter_all {A} (p : A -> bool) (l : list A) :
  (forall x, In x l -> p x = true) -> List.filter p l = l.
Proof.
  induction l as [ | x l IH ]; intros H; cbn [List.filter]; [ reflexivity | ].
  rewrite (H x (or_introl eq_refl)), IH; [ reflexivity | ].
  intros y Hy. apply H. right. exact Hy.
Qed.

(** X14: the totals of the report do not depend on the order in which the
    map of the per-file results is iterated; only the order of the file
    sections does. *)
Theorem X14_report_independent_of_iteration_order
  (Map_ToLower : list byte -> list byte) (scanDir : list byte)
  (fileResults : gmap (list byte) (list (list byte)))
  (entries entries' : list (list byte * list (list byte))) :
  iteration_of fileResults entries -> iteration_of fileResults entries' ->
  let report := BuildHTMLReport Map_ToLower scanDir entries in
  let report' := BuildHTMLReport Map_ToLower scanDir entries' in
  Files report ≡ₚ Files report'
  /\ TotalFiles report = TotalFiles report'
  /\ TotalFindings report = TotalFindings report'
  /\ CriticalCount report = CriticalCount report'
  /\ HighCount report = HighCount report'
  /\ MediumCount report = MediumCount report'
  /\ LowCount report = LowCount report'.
Proof.
  intros H1 H2 report report'. unfold iteration_of in H1, H2.
  assert (Hp : entries ≡ₚ entries') by (rewrite H1, H2; reflexivity).
  destruct (BuildHTMLReport_spec Map_ToLower scanDir entries)
    as (A1 & _ & A3 & A4 & A5 & A6 & A7 & A8).
  destruct (BuildHTMLReport_spec Map_ToLower scanDir entries')
    as (B1 & _ & B3 & B4 & B5 & B6 & B7 & B8).
  fold report in A1, A3, A4, A5, A6, A7, A8.
  fold report' in B1, B3, B4, B5, B6, B7, B8.
  assert (Hs : map (sectionOf Map_ToLower) (List.filter with_results entries)
               ≡ₚ map (sectionOf Map_ToLower)
                    (List.filter with_results entries')).
  { apply Permutation_map, filter_perm. exact Hp. }
  split; [ rewrite A1, B1; exact Hs | ].
  split; [ rewrite A3, B3; unfold len; f_equal;
           apply Permutation_length; exact Hs | ].
  rewrite A4, A5, A6, A7, A8, B4, B5, B6, B7, B8.
  repeat split; apply sumZ_perm; exact Hs.
Qed.

(** Two files with one line each, iterated in both orders. *)
Lemma X14_witness :
  let m : gmap (list byte) (list (list byte)) :=
    {[ s2b "a.txt" := [s2b "TEXT|key|1|key=1"];
       s2b "b.csv" := [s2b "CSV|key|key,2"] ]} in
  let report := BuildHTMLReport (fun s => s) [] (map_to_list m) in
  let report' := BuildHTMLReport (fun s => s) [] (rev (map_to_list m)) in
  iteration_of m (rev (map_to_list m))
  /\ TotalFiles report = TotalFiles report'
  /\ MediumCount report = MediumCount report'.
Proof.
  intros m report report'.
  assert (H1 : iteration_of m (map_to_list m))
    by (unfold iteration_of; reflexivity).
  assert (H2 : iteration_of m (rev (map_to_list m)))
    by (unfold iteration_of; symmetry; apply Permutation_rev).
  split; [ exact H2 | ].
  destruct (X14_report_independent_of_iteration_order (fun s => s) [] m
              (map_to_list m) (rev (map_to_list m)) H1 H2)
    as (_ & A & _ & _ & _ & B & _).
  split; [ exact A | exact B ].
Defined.

(** X15: after a complete run of [scanFiles] that did not crash, the
    report built from the shared map, whatever the iteration order, has
    exactly one section for every path stored in the map: [TotalFiles] is
    the size of the map, no path has two sections, and the section of a
    path holds what [Parse] returns for that file, which is not empty. *)
Theorem X15_report_of_a_scan
  (ReadFile : list byte -> option (list byte))
  (isBinaryFile : list byte -> bool)
  (otherParsers : list byte -> list (list byte) -> option (list (list byte)))
  (Keywords : list (list byte)) (contextLength : Z)
  (ThreadCount : nat) (files : list (list byte))
  (fileResults : gmap (list byte) (list (list byte)))
  (Map_ToLower : list byte -> list byte) (scanDir : list byte)
  (entries : list (list byte * list (list byte))) :
  scanFiles ReadFile isBinaryFile otherParsers Keywords contextLength
            ThreadCount files (Run [] [] fileResults) ->
  iteration_of fileResults entries ->
  let report := BuildHTMLReport Map_ToLower scanDir entries in
  TotalFiles report = Z.of_nat (size fileResults)
  /\ NoDup (map Path (Files report))
  /\ forall s,
       In s (Files report) ->
       In (Path s) files
       /\ exists rawResults,
            Parse ReadFile isBinaryFile otherParsers Keywords contextLength
                  (Path s) = Some rawResults
            /\ fileResults !! Path s = Some rawResults
            /\ 0 < Count s /\ Count s = len rawResults
            /\ Results s = omap (parseRawResult Map_ToLower) rawResults.
Proof.
  intros Hscan Hit report.
  apply scanFiles_outcome in Hscan. destruct Hscan as (_ & _ & Hfr & _).
  assert (Hent : forall path raw,
             In (path, raw) entries ->
             fileResults !! path = Some raw
             /\ In path files
             /\ Parse ReadFile isBinaryFile otherParsers Keywords
                      contextLength path = Some raw
             /\ 0 < len raw).
  { intros path raw Hin.
    assert (Hl : fileResults !! path = Some raw).
    { apply elem_of_map_to_list. rewrite <- Hit.
      apply list_elem_of_In. exact Hin. }
    split; [ exact Hl | ]. rewrite Hfr in Hl.
    apply expected_lookup in Hl. exact Hl. }
  assert (Hfilter : List.filter with_results entries = entries).
  { apply filter_all. intros [path raw] Hin.
    destruct (Hent path raw Hin) as (_ & _ & _ & Hpos).
    unfold with_results. cbn [snd].
    apply negb_true_iff, Z.eqb_neq. lia. }
  destruct (BuildHTMLReport_spec Map_ToLower scanDir entries)
    as (A1 & _ & A3 & _).
  fold report in A1, A3. rewrite Hfilter in A1, A3.
  split.
  { rewrite A3. unfold len. f_equal.
    rewrite List.length_map, (Permutation_length Hit).
    apply length_map_to_list. }
  split.
  { rewrite A1, map_map. cbn [sectionOf Path].
    change (map (fun x : list byte * list (list byte) => x.1) entries)
      with (entries.*1).
    rewrite Hit. apply NoDup_fst_map_to_list. }
  intros s Hs. rewrite A1 in Hs. apply in_map_iff in Hs.
  destruct Hs as ([path raw] & <- & Hin). cbn [sectionOf Path Count Results fst snd].
  destruct (Hent path raw Hin) as (Hl & Hf & Hp & Hpos).
  split; [ exact Hf | ]. exists raw. repeat split; assumption.
Qed.

(** The sample run with one slot: one file has findings. *)
Lemma X15_witness :
  exists fileResults,
    scanFiles sample_ReadFile sample_isBinaryFile sample_otherParsers [] 50 1
      sample_files (Run [] [] fileResults)
    /\ TotalFiles (BuildHTMLReport (fun s => s) [] (map_to_list fileResults))
       = Z.of_nat (size fileResults).
Proof.
  destruct sample_run_one_slot as (fileResults & Hscan).
  exists fileResults. split; [ exact Hscan | ].
  apply (X15_report_of_a_scan sample_ReadFile sample_isBinaryFile
           sample_otherParsers [] 50 1 sample_files fileResults
           (fun s => s) [] (map_to_list fileResults) Hscan).
  unfold iteration_of. reflexivity.
Defined.

(** ** A report of engine lines *)

Lemma engine_line_parsed (M : list byte -> list byte) (raw : list byte) :
  engine_line raw ->
  exists h,
    parseRawResult M raw = Some h /\ In (HTMLResult.RiskLevel h) risk_levels.
Proof.
  intros (data & keywords & contextLen & t & e & Ht & He & ->).
  destruct (trace_fields _ _ _ _ _ Ht He) as (Fmt & Fname & Lrisk).
  pose proof (trace_lines_formatted _ _ _ _ _ _ Ht He) as Hf.
  apply formatBinaryResult_line in Hf.
  pose proof (Split_binary_line _ _ _ (MatchedValue (result e)) _
                (contextDisplay (Context (result e)) contextLen)
                Fmt Fname (risk_level_free _ Lrisk)
                (fmtX_free (Offset (result e)))) as Hs.
  rewrite <- Hf in Hs.
  destruct (Split_cons (MatchedValue (result e)) pipe) as (v & vs & Hv).
  destruct (Split_cons (contextDisplay (Context (result e)) contextLen) pipe)
    as (c & cs & Hc).
  rewrite Hv in Hs. cbn [app] in Hs.
  destruct (vs ++ (s2b "0x" ++ fmtX (Offset (result e)))
            :: Split (contextDisplay (Context (result e)) contextLen) pipe)
    as [ | w [ | w' ws ] ] eqn:Ew.
  - destruct vs; discriminate Ew.
  - destruct vs as [ | ? [ | ? ? ] ]; [ | discriminate Ew | discriminate Ew ].
    cbn [app] in Ew. rewrite Hc in Ew. discriminate Ew.
  - rewrite (parseRawResult_binary _ _ _ _ _ _ _ _ _ Hs).
    eexists. split; [ reflexivity | ]. cbn.
    rewrite (strings_ToLower_level _ _ Lrisk). exact Lrisk.
Qed.

Lemma risk_counts_exact M (hs : list HTMLResult.t) :
  Forall (fun h => In (HTMLResult.RiskLevel h) risk_levels) hs ->
  risk_count M "critical" hs + risk_count M "high" hs
  + risk_count M "medium" hs + risk_count M "low" hs = len hs.
Proof.
  induction 1 as [ | h hs Hh _ IH ]; [ reflexivity | ].
  change (h :: hs) with ([h] ++ hs).
  rewrite !risk_count_app, !risk_count_one, len_app.
  change (len [h]) with 1.
  rewrite (strings_ToLower_level M _ Hh).
  destruct Hh as [<- | [<- | [<- | [<- | []]]]]; cbn; lia.
Qed.

Lemma omap_engine_lines M (lines : list (list byte)) :
  Forall engine_line lines ->
  len (omap (parseRawResult M) lines) = len lines
  /\ Forall (fun h => In (HTMLResult.RiskLevel h) risk_levels)
            (omap (parseRawResult M) lines).
Proof.
  unfold omap.
  induction 1 as [ | raw lines Hraw _ [IH1 IH2] ]; cbn [list_omap].
  - split; [ reflexivity | constructor ].
  - destruct (engine_line_parsed M raw Hraw) as (h & -> & Hl).
    split; [ rewrite !len_cons, IH1; reflexivity | ].
    constructor; assumption.
Qed.

(** X16: in a report built from lines of the binary engine only, no line
    is dropped and every finding is counted under exactly one of the four
    risk levels: in each section [Count] is the number of results shown,
    [TotalFindings] is the sum of the sections' [Count], and the four risk
    counters add up to [TotalFindings]. *)
Theorem X16_report_of_engine_lines (Map_ToLower : list byte -> list byte)
  (scanDir : list byte) (entries : list (list byte * list (list byte))) :
  Forall (fun entry => Forall engine_line entry.2) entries ->
  let report := BuildHTMLReport Map_ToLower scanDir entries in
  Forall (fun s => Count s = len (Results s)) (Files report)
  /\ TotalFindings report = sumZ Count (Files report)
  /\ CriticalCount report + HighCount report + MediumCount report
     + LowCount report = TotalFindings report.
Proof.
  intros Hall report.
  destruct (BuildHTMLReport_spec Map_ToLower scanDir entries)
    as (A1 & _ & _ & A4 & A5 & A6 & A7 & A8).
  fold report in A1, A4, A5, A6, A7, A8.
  set (kept := List.filter with_results entries) in *.
  assert (Hkept : Forall (fun entry => Forall engine_line entry.2) kept).
  { rewrite List.Forall_forall in Hall. apply List.Forall_forall.
    intros en Hen. apply Hall. apply filter_In in Hen. apply Hen. }
  assert (Hsec : Forall (fun s => Count s = len (Results s)
                                  /\ Forall (fun h => In (HTMLResult.RiskLevel h)
                                                         risk_levels)
                                            (Results s))
                        (map (sectionOf Map_ToLower) kept)).
  { apply List.Forall_map. revert Hkept. apply List.Forall_impl.
    intros en Hen. cbn [sectionOf Count Results].
    destruct (omap_engine_lines Map_ToLower en.2 Hen) as [H1 H2].
    split; [ symmetry; exact H1 | exact H2 ]. }
  rewrite <- A1 in Hsec. rewrite <- A1 in A4, A5, A6, A7, A8.
  split; [ revert Hsec; apply List.Forall_impl; intros s [H _]; exact H | ].
  rewrite A4, A5, A6, A7, A8. clear -Hsec.
  induction Hsec as [ | s secs [Hc Hr] _ [IH1 IH2] ]; [ split; reflexivity | ].
  cbn [sumZ fold_right]. fold (sumZ (A := HTMLFileSection)) in *.
  pose proof (risk_counts_exact Map_ToLower (Results s) Hr) as He.
  unfold sumZ in *. split; lia.
Qed.

(** The line of the password sample alone. *)
Lemma X16_witness :
  exists line,
    ParseWithKeywords password_sample [] 50 = Some [line]
    /\ let report := BuildHTMLReport (fun s => s) [] [(s2b "a.exe", [line])] in
       TotalFindings report = 1 /\ CriticalCount report = 1
       /\ CriticalCount report + HighCount report + MediumCount report
          + LowCount report = TotalFindings report.
Proof.
  assert (Ht : exists e,
             ParseWithKeywords_trace initDetectionRules password_sample [] 50
               = Some [e]).
  { eexists. vm_compute. reflexivity. }
  destruct Ht as (e & Ht). exists (lineOutput e).
  split; [ unfold ParseWithKeywords; rewrite Ht; reflexivity | ].
  assert (He : Forall (fun entry : list byte * list (list byte) =>
                         Forall engine_line entry.2)
                      [(s2b "a.exe", [lineOutput e])]).
  { constructor; [ | constructor ]. constructor; [ | constructor ].
    exists password_sample, [], 50, [e], e.
    split; [ exact Ht | ]. split; [ left; reflexivity | reflexivity ]. }
  destruct (X16_report_of_engine_lines (fun s => s) []
              [(s2b "a.exe", [lineOutput e])] He) as (_ & _ & H3).
  assert (Hv : ParseWithKeywords_trace initDetectionRules password_sample [] 50
               = Some [e]
               -> TotalFindings (BuildHTMLReport (fun s => s) []
                                   [(s2b "a.exe", [lineOutput e])]) = 1
                  /\ CriticalCount (BuildHTMLReport (fun s => s) []
                                      [(s2b "a.exe", [lineOutput e])]) = 1).
  { clear. intros Ht.
    assert (Hc : exists e0,
               ParseWithKeywords_trace initDetectionRules password_sample []
                 50 = Some [e0]
               /\ TotalFindings (BuildHTMLReport (fun s => s) []
                                   [(s2b "a.exe", [lineOutput e0])]) = 1
               /\ CriticalCount (BuildHTMLReport (fun s => s) []
                                   [(s2b "a.exe", [lineOutput e0])]) = 1).
    { eexists. split; [ vm_compute; reflexivity | ].
      split; vm_compute; reflexivity. }
    destruct Hc as (e0 & Ht0 & Hc). rewrite Ht in Ht0.
    injection Ht0 as <-. exact Hc. }
  destruct (Hv Ht) as [H1 H2].
  split; [ exact H1 | ]. split; [ exact H2 | exact H3 ].
Defined.

(** ** [truncatePath] and [truncateForBox] *)

Lemma len_skipn {A} (l : list A) (n : Z) :
  0 <= n <= len l -> len (skipn (Z.to_nat n) l) = len l - n.
Proof.
  intros Hn. unfold len in *. rewrite List.length_skipn. lia.
Qed.

Lemma slice_from_in_range {A} (s : list A) (lo : Z) :
  0 <= lo <= len s -> slice_from s lo = Some (skipn (Z.to_nat lo) s).
Proof.
  intros Hlo. unfold slice_from. rewrite slice_in_range by lia.
  f_equal. apply firstn_all2. rewrite List.length_skipn.
  unfold len. lia.
Qed.

Lemma slice_from_out_of_range {A} (s : list A) (lo : Z) :
  len s < lo -> slice_from s lo = None.
Proof.
  intros Hlo. unfold slice_from, slice.
  replace (lo <=? len s) with false by (symmetry; apply Z.leb_gt; exact Hlo).
  rewrite andb_false_r. reflexivity.
Qed.

(** X17: for a limit of at least 3, [truncatePath] and [truncateForBox]
    never panic; they return the string itself when it fits the limit, and
    otherwise three dots followed by its last [maxLen - 3] bytes, exactly
    [maxLen] bytes in all. For a limit [k] below 3 they panic on every
    string longer than [k]. *)
Theorem X17_truncatePath (path : list byte) (maxLen k : Z) :
  3 <= maxLen -> - 2 ^ 61 < k < 3 -> len path < 2 ^ 62 ->
  (exists r,
     truncatePath path maxLen = Some r
     /\ truncateForBox path maxLen = Some r
     /\ len r = Z.min (len path) maxLen
     /\ (len path <= maxLen -> r = path)
     /\ (maxLen < len path ->
         r = s2b "..." ++ skipn (Z.to_nat (len path - maxLen + 3)) path))
  /\ (k < len path ->
      truncatePath path k = None /\ truncateForBox path k = None).
Proof.
  intros Hm Hk Hl. pose proof (len_nonneg path) as H0.
  assert (P61 : 2 ^ 61 = 2305843009213693952) by reflexivity.
  assert (P62 : 2 ^ 62 = 4611686018427387904) by reflexivity.
  assert (P63 : 2 ^ 63 = 9223372036854775808) by reflexivity.
  split.
  - unfold truncateForBox, truncatePath.
    destruct (Z.leb_spec (len path) maxLen) as [Hle | Hgt].
    + exists path. repeat split; try reflexivity; lia.
    + rewrite (wrap64_small (len path - maxLen)) by lia.
      rewrite (wrap64_small (len path - maxLen + 3)) by lia.
      rewrite slice_from_in_range by lia. cbn [mbind option_bind].
      eexists. split; [ reflexivity | ]. split; [ reflexivity | ].
      split; [ | split; [ lia | reflexivity ] ].
      rewrite len_app, len_skipn by lia. change (len (s2b "...")) with 3. lia.
  - intros Hlt. unfold truncateForBox, truncatePath.
    replace (len path <=? k) with false by (symmetry; apply Z.leb_gt; lia).
    rewrite (wrap64_small (len path - k)) by lia.
    rewrite (wrap64_small (len path - k + 3)) by lia.
    rewrite slice_from_out_of_range by lia. split; reflexivity.
Qed.

(** A path of 100 bytes, cut to 80; the limit 2 panics. *)
Lemma X17_witness :
  let path := repeat "a"%byte 100 in
  3 <= 80 /\ - 2 ^ 61 < 2 < 3
  /\ (exists r, truncatePath path 80 = Some r /\ len r = 80)
  /\ truncatePath path 2 = None.
Proof.
  intros path.
  assert (Hl : len path < 2 ^ 62) by (vm_compute; reflexivity).
  assert (Hk : - 2 ^ 61 < 2 < 3) by (split; vm_compute; reflexivity).
  split; [ lia | ]. split; [ exact Hk | ].
  destruct (X17_truncatePath path 80 2 ltac:(lia) Hk Hl)
    as ((r & Hr & _ & Hlen & _) & Hp).
  split; [ exists r; split; [ exact Hr | rewrite Hlen; reflexivity ] | ].
  apply Hp. vm_compute. reflexivity.
Defined.

(** ** [splitByWidth] and [wrapText] *)

Lemma EncodeRune_nonempty (r : Z) : EncodeRune r <> [].
Proof.
  unfold EncodeRune.
  repeat match goal with
         | |- context [if ?b then _ else _] => destruct b
         end; discriminate.
Qed.

Lemma encodeRunes_app (a b : list Z) :
  encodeRunes (a ++ b) = encodeRunes a ++ encodeRunes b.
Proof. unfold encodeRunes. rewrite map_app, concat_app. reflexivity. Qed.

Lemma encodeRunes_nil (c : list Z) : encodeRunes c = [] -> c = [].
Proof.
  destruct c as [ | r c ]; [ reflexivity | ].
  unfold encodeRunes. cbn [map concat]. intros H.
  apply app_eq_nil in H. destruct H as [H _].
  exfalso. exact (EncodeRune_nonempty r H).
Qed.

Lemma len_pos_iff {A} (l : list A) : (0 <? len l) = true <-> l <> [].
Proof.
  destruct l; unfold len; simpl; split; try discriminate; try congruence.
  intros _. apply Z.ltb_lt. lia.
Qed.

Lemma runesWidth_app (a b : list Z) :
  runesWidth (a ++ b) = runesWidth a + runesWidth b.
Proof. apply sumZ_app. Qed.

Lemma splitStep_fold (maxWidth : Z) (rs : list Z) :
  forall lines cur w chunks c,
    lines = map encodeRunes chunks -> cur = encodeRunes c ->
    w = runesWidth c ->
    Forall (fun c => c <> []
                     /\ (runesWidth c <= maxWidth \/ List.length c = 1%nat))
           chunks ->
    (c = [] \/ runesWidth c <= maxWidth \/ List.length c = 1%nat) ->
    exists chunks' c',
      fold_left (splitStep maxWidth) rs (lines, cur, w)
      = (map encodeRunes chunks', encodeRunes c', runesWidth c')
      /\ Forall (fun c => c <> []
                          /\ (runesWidth c <= maxWidth
                              \/ List.length c = 1%nat))
                chunks'
      /\ (c' = [] \/ runesWidth c' <= maxWidth \/ List.length c' = 1%nat)
      /\ concat chunks' ++ c' = concat chunks ++ c ++ rs.
Proof.
  induction rs as [ | r rs IH ]; intros lines cur w chunks c Hl Hc Hw Hch Hcur.
  - exists chunks, c. subst. rewrite app_nil_r. auto.
  - cbn [fold_left]. unfold splitStep at 2.
    destruct ((maxWidth <? w + charWidth r) && (0 <? len cur)) eqn:E.
    + apply andb_true_iff in E. destruct E as [E1 E2].
      apply len_pos_iff in E2.
      assert (Hne : c <> []) by (intros ->; apply E2; subst; reflexivity).
      destruct (IH (lines ++ [cur]) ([] ++ EncodeRune r) (0 + charWidth r)
                  (chunks ++ [c]) [r]) as (chunks' & c' & Hf & H1 & H2 & H3).
      * subst. rewrite map_app. reflexivity.
      * unfold encodeRunes. cbn. rewrite app_nil_r. reflexivity.
      * unfold runesWidth, sumZ. cbn. lia.
      * apply Forall_app. split; [ exact Hch | ].
        constructor; [ | constructor ]. split; [ exact Hne | ].
        destruct Hcur as [Hcur | Hcur]; [ contradiction | exact Hcur ].
      * right. right. reflexivity.
      * exists chunks', c'. split; [ exact Hf | ]. split; [ exact H1 | ].
        split; [ exact H2 | ]. rewrite H3, concat_app. cbn [concat].
        rewrite app_nil_r, <- !app_assoc. reflexivity.
    + destruct (IH lines (cur ++ EncodeRune r) (w + charWidth r) chunks
                  (c ++ [r])) as (chunks' & c' & Hf & H1 & H2 & H3).
      * exact Hl.
      * subst. rewrite encodeRunes_app. unfold encodeRunes at 3.
        cbn. rewrite app_nil_r. reflexivity.
      * subst. rewrite runesWidth_app. unfold runesWidth at 3, sumZ.
        cbn. lia.
      * exact Hch.
      * apply andb_false_iff in E. destruct E as [E | E].
        -- apply Z.ltb_ge in E. right. left. subst w.
           rewrite runesWidth_app. unfold runesWidth at 2, sumZ. cbn. lia.
        -- assert (Hnil : c = []).
           { apply encodeRunes_nil.
             destruct cur as [ | b cur ]; [ congruence | ].
             unfold len in E. simpl in E. apply Z.ltb_ge in E. lia. }
           subst c. right. right. reflexivity.
      * exists chunks', c'. split; [ exact Hf | ]. split; [ exact H1 | ].
        split; [ exact H2 | ]. rewrite H3, <- !app_assoc. reflexivity.
Qed.

(** The lines of [splitByWidth] as rune lists. *)
Lemma splitByWidth_chunks (text : list byte) (maxWidth : Z) :
  exists chunks,
    splitByWidth text maxWidth = map encodeRunes chunks
    /\ concat chunks = runes text
    /\ Forall (fun c => c <> []
                        /\ (runesWidth c <= maxWidth
                            \/ List.length c = 1%nat))
              chunks.
Proof.
  unfold splitByWidth.
  destruct (splitStep_fold maxWidth (runes text) [] [] 0 [] [])
    as (chunks & c & -> & H1 & H2 & H3); try reflexivity;
    [ constructor | left; reflexivity | ].
  cbn [concat app] in H3.
  destruct (0 <? len (encodeRunes c)) eqn:E.
  - apply len_pos_iff in E.
    assert (Hne : c <> []) by (intros ->; apply E; reflexivity).
    exists (chunks ++ [c]). rewrite map_app. split; [ reflexivity | ].
    split; [ rewrite concat_app; cbn; rewrite app_nil_r; exact H3 | ].
    apply Forall_app. split; [ exact H1 | ].
    constructor; [ | constructor ]. split; [ exact Hne | ].
    destruct H2 as [H2 | H2]; [ contradiction | exact H2 ].
  - assert (Hnil : c = []).
    { apply encodeRunes_nil. destruct (encodeRunes c); [ reflexivity | ].
      unfold len in E. simpl in E. apply Z.ltb_ge in E. lia. }
    subst c. rewrite app_nil_r in H3. exists chunks. auto.
Qed.

Lemma concat_map_encodeRunes (chunks : list (list Z)) :
  concat (map encodeRunes chunks) = encodeRunes (concat chunks).
Proof.
  induction chunks as [ | c chunks IH ]; [ reflexivity | ].
  cbn [map concat]. rewrite IH, encodeRunes_app. reflexivity.
Qed.

Lemma runes_fuel_ascii (s : list byte) :
  ascii_string s ->
  forall fuel, (List.length s <= fuel)%nat -> runes_fuel fuel s = map bz s.
Proof.
  induction 1 as [ | b s Hb _ IH ]; intros fuel Hf.
  - destruct fuel; reflexivity.
  - destruct fuel as [ | fuel ]; [ simpl in Hf; lia | ].
    cbn [runes_fuel]. rewrite DecodeRune_ascii by (apply Z.ltb_lt; exact Hb).
    cbn [skipn map]. f_equal. apply IH. simpl in Hf. lia.
Qed.

Lemma runes_ascii (s : list byte) : ascii_string s -> runes s = map bz s.
Proof.
  intros H. unfold runes. apply runes_fuel_ascii; [ exact H | lia ].
Qed.

Lemma EncodeRune_ascii (b : byte) : bz b < 0x80 -> EncodeRune (bz b) = [b].
Proof.
  intros Hb. pose proof (bz_range b) as Hr. unfold EncodeRune.
  replace ((0 <=? bz b) && (bz b <=? 127)) with true
    by (symmetry; apply andb_true_iff; split; apply Z.leb_le; lia).
  rewrite of_Z_bz. reflexivity.
Qed.

Lemma encodeRunes_ascii (s : list byte) :
  ascii_string s -> encodeRunes (map bz s) = s.
Proof.
  induction 1 as [ | b s Hb _ IH ]; [ reflexivity | ].
  unfold encodeRunes in *. cbn [map concat].
  rewrite IH, EncodeRune_ascii by exact Hb. reflexivity.
Qed.

(** A chunk of ASCII runes: its encoding has as many bytes as its width. *)
Lemma ascii_chunk (c : list Z) :
  Forall (fun r => 0 <= r < 0x80) c ->
  len (encodeRunes c) = runesWidth c /\ runesWidth c = len c.
Proof.
  induction 1 as [ | r c Hr _ [IH1 IH2] ]; [ split; reflexivity | ].
  change (r :: c) with ([r] ++ c).
  rewrite encodeRunes_app, runesWidth_app, !len_app, IH1, IH2.
  unfold encodeRunes, runesWidth, sumZ, charWidth, EncodeRune. cbn [map concat fold_right].
  replace ((0 <=? r) && (r <=? 127)) with true
    by (symmetry; apply andb_true_iff; split; apply Z.leb_le; lia).
  replace (127 <? r) with false by (symmetry; apply Z.ltb_ge; lia).
  unfold len. cbn. split; lia.
Qed.

Lemma Forall_concat_inv {A} (P : A -> Prop) (ls : list (list A)) :
  Forall P (concat ls) -> Forall (Forall P) ls.
Proof.
  induction ls as [ | l ls IH ]; cbn [concat]; intros H; [ constructor | ].
  apply Forall_app in H. destruct H as [H1 H2].
  constructor; [ exact H1 | apply IH; exact H2 ].
Qed.

(** X18: [splitByWidth] cuts the runes of the text into consecutive,
    non-empty groups and returns the encoding of each group as a line; a
    group is at most [maxWidth] wide (a rune above 127 counting 2) unless
    it is a single rune. No line is empty, and the lines put together are
    the text with every invalid byte replaced by U+FFFD. For a text of
    ASCII bytes the lines put together are the text itself, and for a
    width of at least 1 each line has between 1 and [maxWidth] bytes. *)
Theorem X18_splitByWidth (text : list byte) (maxWidth : Z) :
  (exists chunks,
     splitByWidth text maxWidth = map encodeRunes chunks
     /\ concat chunks = runes text
     /\ Forall (fun c => c <> []
                         /\ (runesWidth c <= maxWidth
                             \/ List.length c = 1%nat))
               chunks)
  /\ Forall (fun l => l <> []) (splitByWidth text maxWidth)
  /\ concat (splitByWidth text maxWidth) = encodeRunes (runes text)
  /\ (ascii_string text ->
      concat (splitByWidth text maxWidth) = text
      /\ (1 <= maxWidth ->
          Forall (fun l => 1 <= len l <= maxWidth)
                 (splitByWidth text maxWidth))).
Proof.
  destruct (splitByWidth_chunks text maxWidth) as (chunks & Hs & Hc & Hf).
  split; [ exists chunks; auto | ].
  split.
  { rewrite Hs. apply List.Forall_map. revert Hf. apply List.Forall_impl.
    intros c [Hne _] H. apply Hne. apply encodeRunes_nil. exact H. }
  split; [ rewrite Hs, concat_map_encodeRunes, Hc; reflexivity | ].
  intros Ha. rewrite Hs, concat_map_encodeRunes, Hc.
  split; [ rewrite runes_ascii by exact Ha; apply encodeRunes_ascii; exact Ha | ].
  intros Hw.
  assert (Hr : Forall (fun r => 0 <= r < 0x80) (concat chunks)).
  { rewrite Hc, runes_ascii by exact Ha. apply List.Forall_map.
    revert Ha. apply List.Forall_impl. intros b Hb.
    pose proof (bz_range b). lia. }
  apply Forall_concat_inv in Hr.
  apply List.Forall_map.
  rewrite List.Forall_forall in Hr, Hf. apply List.Forall_forall.
  intros c Hin. destruct (Hf c Hin) as [Hne Hwd].
  destruct (ascii_chunk c (Hr c Hin)) as [H1 H2]. rewrite H1, H2.
  assert (Hpos : 1 <= len c).
  { destruct c; [ congruence | ]. rewrite len_cons.
    pose proof (len_nonneg c). lia. }
  destruct Hwd as [Hwd | Hwd]; [ lia | ]. unfold len. lia.
Qed.

(** ** Rows of an ASCII text *)

Lemma splitStep_fold_ascii (maxWidth : Z) (bs : list byte) :
  1 <= maxWidth -> ascii_string bs ->
  forall lines cur,
    len cur <= maxWidth ->
    Forall (fun l => len l = maxWidth) lines ->
    exists lines' cur',
      fold_left (splitStep maxWidth) (map bz bs) (lines, cur, len cur)
      = (lines', cur', len cur')
      /\ len cur' <= maxWidth
      /\ Forall (fun l => len l = maxWidth) lines'
      /\ concat lines' ++ cur' = concat lines ++ cur ++ bs
      /\ (cur ++ bs <> [] -> cur' <> []).
Proof.
  intros Hw Ha. induction Ha as [ | b bs Hb _ IH ]; intros lines cur Hc Hl.
  - exists lines, cur. rewrite !app_nil_r. cbn. auto.
  - cbn [map fold_left]. unfold splitStep at 2.
    assert (Hcw : charWidth (bz b) = 1).
    { unfold charWidth.
      replace (127 <? bz b) with false by (symmetry; apply Z.ltb_ge; lia).
      reflexivity. }
    rewrite Hcw, (EncodeRune_ascii b Hb).
    pose proof (len_nonneg cur) as H0.
    destruct ((maxWidth <? len cur + 1) && (0 <? len cur)) eqn:E.
    + apply andb_true_iff in E. destruct E as [E1 _]. apply Z.ltb_lt in E1.
      destruct (IH (lines ++ [cur]) [b]) as (lines' & cur' & Hf & H1 & H2 & H3 & H4).
      * unfold len. simpl. lia.
      * apply Forall_app. split; [ exact Hl | ].
        constructor; [ lia | constructor ].
      * exists lines', cur'. cbn [app] in *.
        change (0 + 1) with (len [b]).
        split; [ exact Hf | ]. split; [ exact H1 | ]. split; [ exact H2 | ].
        split; [ rewrite H3, concat_app; cbn [concat];
                 rewrite app_nil_r, <- !app_assoc; reflexivity | ].
        intros _. apply H4. discriminate.
    + assert (Hlen : len cur + 1 <= maxWidth).
      { apply andb_false_iff in E. destruct E as [E | E].
        - apply Z.ltb_ge in E. exact E.
        - apply Z.ltb_ge in E. lia. }
      destruct (IH lines (cur ++ [b])) as (lines' & cur' & Hf & H1 & H2 & H3 & H4).
      * rewrite len_app. unfold len at 2. simpl. lia.
      * exact Hl.
      * exists lines', cur'.
        replace (len cur + 1) with (len (cur ++ [b]))
          by (rewrite len_app; reflexivity).
        split; [ exact Hf | ]. split; [ exact H1 | ]. split; [ exact H2 | ].
        split; [ rewrite H3, <- !app_assoc; reflexivity | ].
        intros _. apply H4. destruct cur; discriminate.
Qed.

(** The rows [splitByWidth] makes of an ASCII text. *)
Lemma splitByWidth_ascii (text : list byte) (maxWidth : Z) :
  1 <= maxWidth -> ascii_string text -> text <> [] ->
  exists full last,
    splitByWidth text maxWidth = full ++ [last]
    /\ concat full ++ last = text
    /\ Forall (fun l => len l = maxWidth) full
    /\ 1 <= len last <= maxWidth.
Proof.
  intros Hw Ha Hne. unfold splitByWidth. rewrite runes_ascii by exact Ha.
  destruct (splitStep_fold_ascii maxWidth text Hw Ha [] [])
    as (lines & cur & Hf & H1 & H2 & H3 & H4);
    [ unfold len; simpl; lia | constructor | ].
  change (len []) with 0 in Hf. rewrite Hf.
  cbn [concat app] in H3, H4. specialize (H4 Hne).
  replace (0 <? len cur) with true
    by (symmetry; apply len_pos_iff; exact H4).
  exists lines, cur. split; [ reflexivity | ]. split; [ exact H3 | ].
  split; [ exact H2 | ].
  destruct cur; [ congruence | ]. rewrite len_cons in *.
  pose proof (len_nonneg cur). lia.
Qed.

(** X19: [wrapText] writes an ASCII text in rows: with
    [maxWidth = width - len(prefix) - 2] at least 1, every row but the
    last holds exactly [maxWidth] bytes of the text and the last one the
    rest, at most [maxWidth] bytes; each row is preceded by the prefix and
    followed by a newline, and the rows put together are the text. *)
Theorem X19_wrapText_rows (f : ResultFormatter) (text prefix : list byte) :
  ascii_string text -> 1 <= width f - len prefix - 2 ->
  exists full last,
    wrapText f text prefix
    = concat (map (fun row => prefix ++ row ++ newline) (full ++ [last]))
    /\ concat full ++ last = text
    /\ Forall (fun row => len row = width f - len prefix - 2) full
    /\ len last <= width f - len prefix - 2
    /\ (text <> [] -> last <> []).
Proof.
  intros Ha Hw. unfold wrapText.
  destruct (Z.leb_spec (len text) (width f - len prefix - 2)) as [Hle | Hgt].
  - exists [], text. cbn [app map concat]. rewrite app_nil_r.
    repeat split; auto.
  - assert (Hne : text <> []).
    { intros ->. unfold len in *. simpl in *. lia. }
    destruct (splitByWidth_ascii text _ Hw Ha Hne)
      as (full & last & -> & H1 & H2 & H3).
    exists full, last. split; [ reflexivity | ]. split; [ exact H1 | ].
    split; [ exact H2 | ]. split; [ lia | ].
    intros _ ->. unfold len in *. simpl in *. lia.
Qed.

(** A text of 200 bytes under the formatter's width of 100 and the prefix
    of four spaces: two rows of 94 bytes and one of 12. *)
Lemma X19_witness :
  let text := repeat "a"%byte 200 in
  ascii_string text
  /\ 1 <= width NewResultFormatter - len (s2b "    ") - 2
  /\ wrapText NewResultFormatter text (s2b "    ")
     = concat (map (fun row => s2b "    " ++ row ++ newline)
                   [repeat "a"%byte 94; repeat "a"%byte 94;
                    repeat "a"%byte 12])
  /\ exists full last,
       wrapText NewResultFormatter text (s2b "    ")
       = concat (map (fun row => s2b "    " ++ row ++ newline)
                     (full ++ [last]))
       /\ concat full ++ last = text.
Proof.
  intros text.
  assert (Ha : ascii_string text).
  { apply List.Forall_forall. intros b Hb. apply repeat_spec in Hb.
    subst b. vm_compute. reflexivity. }
  assert (Hw : 1 <= width NewResultFormatter - len (s2b "    ") - 2)
    by (vm_compute; discriminate).
  split; [ exact Ha | ]. split; [ exact Hw | ].
  split; [ vm_compute; reflexivity | ].
  destruct (X19_wrapText_rows NewResultFormatter text (s2b "    ") Ha Hw)
    as (full & last & H1 & H2 & _).
  exists full, last. split; assumption.
Defined.

(** ** [maskSensitiveValue] *)

Lemma concat_repeat_one {A} (x : A) (n : nat) :
  concat (repeat [x] n) = repeat x n.
Proof.
  induction n as [ | n IH ]; simpl; [ reflexivity | ]. rewrite IH. reflexivity.
Qed.

Lemma Repeat_one (b : byte) (count : Z) :
  0 <= count < 2 ^ 63 -> Repeat [b] count = Some (repeat b (Z.to_nat count)).
Proof.
  intros Hc. unfold Repeat.
  replace (count <? 0) with false by (symmetry; apply Z.ltb_ge; lia).
  change (len [b]) with 1.
  replace (2 ^ 63 - 1 <? 1 * count) with false
    by (symmetry; apply Z.ltb_ge; lia).
  cbn [orb]. rewrite concat_repeat_one. reflexivity.
Qed.

Lemma Repeat_negative (s : list byte) (count : Z) :
  count < 0 -> Repeat s count = None.
Proof.
  intros Hc. unfold Repeat.
  replace (count <? 0) with true by (symmetry; apply Z.ltb_lt; lia).
  reflexivity.
Qed.

Lemma len_repeat {A} (x : A) (n : nat) : len (repeat x n) = Z.of_nat n.
Proof. unfold len. rewrite repeat_length. reflexivity. Qed.

Lemma len_firstn {A} (l : list A) (n : Z) :
  0 <= n <= len l -> len (firstn (Z.to_nat n) l) = n.
Proof.
  intros Hn. unfold len in *. rewrite List.length_firstn. lia.
Qed.

(** X20: [maskSensitiveValue] never panics and returns a mask as long as
    the value: all stars for a value of at most 6 bytes, and otherwise the
    first two bytes of the value, stars, and its last two bytes. *)
Theorem X20_maskSensitiveValue (value : list byte) :
  len value < 2 ^ 63 ->
  exists r,
    maskSensitiveValue value = Some r
    /\ len r = len value
    /\ (len value <= 6 -> r = repeat "*"%byte (List.length value))
    /\ (6 < len value ->
        r = firstn 2 value ++ repeat "*"%byte (List.length value - 4)
            ++ skipn (List.length value - 2) value).
Proof.
  intros Hl. pose proof (len_nonneg value) as H0. unfold maskSensitiveValue.
  destruct (Z.leb_spec (len value) 6) as [Hle | Hgt].
  - change (s2b "*") with ["*"%byte]. rewrite Repeat_one by lia.
    replace (Z.to_nat (len value)) with (List.length value)
      by (unfold len; lia).
    eexists. split; [ reflexivity | ]. rewrite len_repeat.
    split; [ reflexivity | ]. split; [ reflexivity | lia ].
  - unfold slice_to. rewrite (slice_in_range value 0 2) by lia.
    cbn [mbind option_bind]. rewrite slice_from_in_range by lia.
    cbn [mbind option_bind].
    change (s2b "*") with ["*"%byte]. rewrite Repeat_one by lia.
    cbn [mbind option_bind]. eexists. split; [ reflexivity | ].
    change (Z.to_nat (2 - 0)) with 2%nat. cbn [Z.to_nat Pos.to_nat skipn].
    replace (Z.to_nat (len value - 4)) with (List.length value - 4)%nat
      by (unfold len; lia).
    replace (Z.to_nat (len value - 2)) with (List.length value - 2)%nat
      by (unfold len; lia).
    change (skipn (Z.to_nat 0) value) with value.
    split; [ | split; [ lia | reflexivity ] ].
    rewrite !len_app, len_repeat. unfold len in *.
    rewrite List.length_firstn, !List.length_skipn. lia.
Qed.

(** A value of seven bytes shows four of them. *)
Lemma X20_witness :
  len (s2b "secret7") < 2 ^ 63
  /\ maskSensitiveValue (s2b "secret7") = Some (s2b "se***t7")
  /\ exists r,
       maskSensitiveValue (s2b "secret7") = Some r
       /\ len r = len (s2b "secret7").
Proof.
  assert (Hl : len (s2b "secret7") < 2 ^ 63) by (vm_compute; reflexivity).
  split; [ exact Hl | ]. split; [ vm_compute; reflexivity | ].
  destruct (X20_maskSensitiveValue (s2b "secret7") Hl) as (r & Hr & Hlen & _).
  exists r. split; assumption.
Defined.

(** ** [ResultCollection] *)

Lemma Add_fold (results : list ScanResult.t) :
  forall rc,
    counter_ok rc ->
    len (ResultCollection.Results rc) + len results < 2 ^ 63 ->
    let rc' := fold_left ResultCollection.Add results rc in
    counter_ok rc'
    /\ ResultCollection.Results rc'
       = ResultCollection.Results rc
         ++ imap (fun i result =>
                    ScanResult.with_Index result
                      (len (ResultCollection.Results rc) + Z.of_nat i + 1))
                 results.
Proof.
  induction results as [ | result results IH ]; intros rc Hc Hl rc'.
  - subst rc'. cbn. rewrite app_nil_r. auto.
  - subst rc'. cbn [fold_left].
    pose proof (len_nonneg (ResultCollection.Results rc)) as H0.
    pose proof (len_nonneg results) as H1. rewrite len_cons in Hl.
    assert (Hw : wrap64 (ResultCollection.counter rc + 1)
                 = len (ResultCollection.Results rc) + 1).
    { unfold counter_ok in Hc. rewrite Hc. apply wrap64_small. lia. }
    destruct (IH (ResultCollection.Add rc result)) as [IH1 IH2].
    + unfold counter_ok, ResultCollection.Add. cbn. rewrite Hw, len_app.
      reflexivity.
    + unfold ResultCollection.Add. cbn. rewrite len_app.
      change (len [_]) with 1. lia.
    + split; [ exact IH1 | ]. rewrite IH2.
      unfold ResultCollection.Add. cbn [ResultCollection.Results].
      rewrite Hw, <- app_assoc. f_equal. cbn [imap app]. f_equal.
      * f_equal. lia.
      * apply imap_ext. intros i x _. cbn. f_equal. rewrite len_app.
        change (len [_]) with 1. lia.
Qed.

(** X21: after the results of a list have been added one by one to a new
    collection, [Count] and the counter are the length of the list, and
    the result at position [i] (from 0) is the [i]-th result of the list
    with its [Index] set to [i + 1]: the indices run from 1 in the order
    of insertion. *)
Theorem X21_ResultCollection_Add (results : list ScanResult.t) :
  len results < 2 ^ 63 ->
  let rc := fold_left ResultCollection.Add results ResultCollection.New in
  ResultCollection.Count rc = len results
  /\ ResultCollection.counter rc = len results
  /\ forall i result,
       results !! i = Some result ->
       ResultCollection.Results rc !! i
       = Some (ScanResult.with_Index result (Z.of_nat i + 1)).
Proof.
  intros Hl rc.
  destruct (Add_fold results ResultCollection.New) as [Hc Hr];
    [ reflexivity | exact Hl | ].
  fold rc in Hc, Hr. cbn [ResultCollection.Results ResultCollection.New app] in Hr.
  assert (Hlen : len (ResultCollection.Results rc) = len results).
  { rewrite Hr. unfold len. rewrite length_imap. reflexivity. }
  split; [ exact Hlen | ]. split; [ rewrite Hc; exact Hlen | ].
  intros i result Hi. rewrite Hr, list_lookup_imap, Hi. cbn.
  do 2 f_equal.
Qed.

Lemma X21_witness :
  let r := ScanResult.mk 0 (s2b "rule") (s2b "high") [] [] (s2b "value")
                         (s2b "a.txt") 3 0 [] (s2b "text") in
  len [r; r] < 2 ^ 63
  /\ map ScanResult.Index
         (ResultCollection.Results
            (fold_left ResultCollection.Add [r; r] ResultCollection.New))
     = [1; 2]
  /\ ResultCollection.Count
       (fold_left ResultCollection.Add [r; r] ResultCollection.New) = 2.
Proof.
  intros r.
  assert (Hl : len [r; r] < 2 ^ 63) by (vm_compute; reflexivity).
  split; [ exact Hl | ]. split; [ vm_compute; reflexivity | ].
  apply (X21_ResultCollection_Add [r; r] Hl).
Defined.

Lemma level_count_app M level (a b : list ScanResult.t) :
  level_count M level (a ++ b) = level_count M level a + level_count M level b.
Proof. unfold level_count. rewrite List.filter_app. apply len_app. Qed.

Lemma countResult_stats M stats (r : ScanResult.t) t c h m l :
  stats_are stats t c h m l ->
  stats_are (ResultCollection.countResult M stats r) t
    (c + level_count M "critical" [r]) (h + level_count M "high" [r])
    (m + level_count M "medium" [r]) (l + level_count M "low" [r]).
Proof.
  intros (Ht & Hc & Hh & Hm & Hl).
  unfold ResultCollection.countResult, level_count. cbn [List.filter].
  set (lv := strings_ToLower M (ScanResult.RiskLevel r)). clearbody lv.
  unfold stats_are.
  destruct (bytes_eqb lv (s2b "critical")) eqn:E1.
  { apply bytes_eqb_eq in E1. subst lv. cbn [bytes_eqb byte_eqb s2b].
    rewrite !lookup_insert, Hc. cbn. rewrite Ht, Hh, Hm, Hl, !Z.add_0_r.
    repeat split; reflexivity. }
  destruct (bytes_eqb lv (s2b "high")) eqn:E2.
  { apply bytes_eqb_eq in E2. subst lv. cbn [bytes_eqb byte_eqb s2b].
    rewrite !lookup_insert, Hh. cbn. rewrite Ht, Hc, Hm, Hl, !Z.add_0_r.
    repeat split; reflexivity. }
  destruct (bytes_eqb lv (s2b "medium")) eqn:E3.
  { apply bytes_eqb_eq in E3. subst lv. cbn [bytes_eqb byte_eqb s2b].
    rewrite !lookup_insert, Hm. cbn. rewrite Ht, Hc, Hh, Hl, !Z.add_0_r.
    repeat split; reflexivity. }
  destruct (bytes_eqb lv (s2b "low")) eqn:E4.
  { apply bytes_eqb_eq in E4. subst lv. cbn [bytes_eqb byte_eqb s2b].
    rewrite !lookup_insert, Hl. cbn. rewrite Ht, Hc, Hh, Hm, !Z.add_0_r.
    repeat split; reflexivity. }
  cbn. rewrite !Z.add_0_r. repeat split; assumption.
Qed.

Lemma countResult_fold M (results : list ScanResult.t) :
  forall stats t c h m l,
    stats_are stats t c h m l ->
    stats_are (fold_left (ResultCollection.countResult M) results stats) t
      (c + level_count M "critical" results) (h + level_count M "high" results)
      (m + level_count M "medium" results) (l + level_count M "low" results).
Proof.
  induction results as [ | r results IH ]; intros stats t c h m l Hs.
  - cbn. rewrite !Z.add_0_r. exact Hs.
  - cbn [fold_left]. change (r :: results) with ([r] ++ results).
    rewrite !level_count_app, !Z.add_assoc.
    apply IH, countResult_stats, Hs.
Qed.

Lemma level_count_one M level (r : ScanResult.t) :
  level_count M level [r]
  = if bytes_eqb (strings_ToLower M (ScanResult.RiskLevel r)) (s2b level)
    then 1 else 0.
Proof.
  unfold level_count. cbn [List.filter]. destruct (bytes_eqb _ _); reflexivity.
Qed.

Lemma level_counts_le M (results : list ScanResult.t) :
  level_count M "critical" results + level_count M "high" results
  + level_count M "medium" results + level_count M "low" results
  <= len results.
Proof.
  induction results as [ | r results IH ]; [ vm_compute; discriminate | ].
  change (r :: results) with ([r] ++ results).
  rewrite !level_count_app, len_app, !level_count_one.
  change (len [r]) with 1.
  set (lv := strings_ToLower M (ScanResult.RiskLevel r)). clearbody lv.
  destruct (bytes_eqb lv (s2b "critical")) eqn:E1.
  { apply bytes_eqb_eq in E1. subst lv. cbn. lia. }
  destruct (bytes_eqb lv (s2b "high")) eqn:E2.
  { apply bytes_eqb_eq in E2. subst lv. cbn. lia. }
  destruct (bytes_eqb lv (s2b "medium")) eqn:E3.
  { apply bytes_eqb_eq in E3. subst lv. cbn. lia. }
  destruct (bytes_eqb lv (s2b "low")); cbn; lia.
Qed.

(** X22: the map of [GetStatistics] holds under [total] the number of
    results of the collection and under each of the four risk levels the
    number of results whose lower-cased risk level is that level; the four
    numbers together never exceed the total. *)
Theorem X22_GetStatistics (Map_ToLower : list byte -> list byte)
  (rc : ResultCollection.t) :
  let results := ResultCollection.Results rc in
  stats_are (ResultCollection.GetStatistics Map_ToLower rc) (len results)
    (level_count Map_ToLower "critical" results)
    (level_count Map_ToLower "high" results)
    (level_count Map_ToLower "medium" results)
    (level_count Map_ToLower "low" results)
  /\ level_count Map_ToLower "critical" results
     + level_count Map_ToLower "high" results
     + level_count Map_ToLower "medium" results
     + level_count Map_ToLower "low" results <= len results.
Proof.
  intros results. split; [ | apply level_counts_le ].
  unfold ResultCollection.GetStatistics. fold results.
  apply (countResult_fold Map_ToLower results _ (len results) 0 0 0 0).
  unfold stats_are. rewrite !lookup_insert. cbn. repeat split; reflexivity.
Qed.

(** ** [centerLine] *)

Lemma runes_cons_ascii (b : byte) (s : list byte) :
  bz b < 0x80 -> runes (b :: s) = bz b :: runes s.
Proof.
  intros Hb. unfold runes. cbn [List.length runes_fuel].
  rewrite DecodeRune_ascii by (apply Z.ltb_lt; exact Hb). reflexivity.
Qed.

Lemma runes_spaces (n : nat) (s : list byte) :
  runes (repeat " "%byte n ++ s) = repeat 32 n ++ runes s.
Proof.
  induction n as [ | n IH ]; [ reflexivity | ].
  cbn [repeat app]. rewrite runes_cons_ascii by (vm_compute; reflexivity).
  rewrite IH. reflexivity.
Qed.

Lemma fold_left_width (rs : list Z) (w : Z) :
  fold_left (fun width r => width + charWidth r) rs w = w + runesWidth rs.
Proof.
  revert w. induction rs as [ | r rs IH ]; intros w; cbn [fold_left].
  - unfold runesWidth, sumZ. cbn. lia.
  - rewrite IH. unfold runesWidth, sumZ. cbn. lia.
Qed.

Lemma displayWidth_runes (s : list byte) :
  displayWidth s = runesWidth (runes s).
Proof. unfold displayWidth. rewrite fold_left_width. lia. Qed.

Lemma runesWidth_nonneg (rs : list Z) : 0 <= runesWidth rs.
Proof.
  apply sumZ_nonneg. intros r. unfold charWidth. destruct (127 <? r); lia.
Qed.

Lemma runesWidth_spaces (n : nat) : runesWidth (repeat 32 n) = Z.of_nat n.
Proof.
  induction n as [ | n IH ]; [ reflexivity | ].
  cbn [repeat]. unfold runesWidth, sumZ in *. cbn [fold_right].
  rewrite IH. change (charWidth 32) with 1. lia.
Qed.

(** X23: for a formatter width from 0 up, [centerLine] never panics. A
    text at least as wide as the formatter is returned with a newline;
    a narrower text is preceded by half the free width in spaces, rounded
    down, so that the padded text is never wider than the formatter and
    the margin on the right is the one on the left or one more. *)
Theorem X23_centerLine (f : ResultFormatter) (text : list byte) :
  0 <= width f < 2 ^ 62 ->
  exists r,
    centerLine f text = Some r
    /\ (width f <= displayWidth text -> r = text ++ newline)
    /\ (displayWidth text < width f ->
        exists padding,
          Z.of_nat padding = (width f - displayWidth text) / 2
          /\ r = repeat " "%byte padding ++ text ++ newline
          /\ displayWidth (repeat " "%byte padding ++ text) <= width f
          /\ 0 <= width f - displayWidth (repeat " "%byte padding ++ text)
                  - Z.of_nat padding <= 1).
Proof.
  intros Hw. unfold centerLine.
  pose proof (runesWidth_nonneg (runes text)) as H0.
  rewrite <- displayWidth_runes in H0.
  assert (P62 : 2 ^ 62 = 4611686018427387904) by reflexivity.
  assert (P63 : 2 ^ 63 = 9223372036854775808) by reflexivity.
  destruct (Z.leb_spec (width f) (displayWidth text)) as [Hle | Hgt].
  - exists (text ++ newline). split; [ reflexivity | ].
    split; [ reflexivity | lia ].
  - set (d := width f - displayWidth text) in *.
    assert (Hq : Z.quot d 2 = d / 2) by (apply Z.quot_div_nonneg; lia).
    assert (Hd : 0 <= d / 2 <= d)
      by (split; [ apply Z.div_pos; lia | apply Z.div_le_upper_bound; lia ]).
    rewrite Hq. change (s2b " ") with [" "%byte].
    rewrite Repeat_one by lia. cbn [mbind option_bind].
    eexists. split; [ reflexivity | ]. split; [ lia | ].
    intros _. exists (Z.to_nat (d / 2)).
    split; [ lia | ]. split; [ reflexivity | ].
    rewrite displayWidth_runes, runes_spaces, runesWidth_app,
      runesWidth_spaces, <- displayWidth_runes.
    assert (Hm : d = 2 * (d / 2) + d mod 2) by (apply Z.div_mod; lia).
    pose proof (Z.mod_pos_bound d 2 ltac:(lia)) as Hmod.
    subst d. lia.
Qed.

(** A text of 10 bytes under the width 100: 45 spaces on the left. *)
Lemma X23_witness :
  0 <= width NewResultFormatter < 2 ^ 62
  /\ centerLine NewResultFormatter (s2b "0123456789")
     = Some (repeat " "%byte 45 ++ s2b "0123456789" ++ newline)
  /\ exists r, centerLine NewResultFormatter (s2b "0123456789") = Some r.
Proof.
  assert (Hw : 0 <= width NewResultFormatter < 2 ^ 62)
    by (split; vm_compute; [ discriminate | reflexivity ]).
  split; [ exact Hw | ]. split; [ vm_compute; reflexivity | ].
  destruct (X23_centerLine NewResultFormatter (s2b "0123456789") Hw)
    as (r & Hr & _).
  exists r. exact Hr.
Defined.
